(** * RoyalChess: the wagered-chess game manager

    A shallow embedding of [src/game/Constants.ts] and of the capture-based
    [ChessGameManager] of [src/game/ChessGameManager.ts] (the second manager
    of that file, the one whose header reads "capture-based payment model"),
    followed by the properties of the specification that concern them.
    After the manager come the parts of [src/socket/SocketHandler.ts] that
    act on it or decide a settlement, and the [LobbyManager], with further
    properties of the code.

    Numbers.  JavaScript numbers are binary64 doubles.  Two models are used:

    - satoshi amounts (deposits, base value, pot, ledger entries, payouts)
      are whole numbers and are modelled as [Z]; [Math.ceil (a * b / 100)]
      and [Math.floor] on them are ceiling and floor division.  Module
      [Double] transcribes the same formulas on doubles.  Below 2^47 units
      (some 1.4 million coins) the doubles give the whole numbers of the
      model, which is proved from the definition of binary64 rounding
      ([double_agrees_below]); far above that they can be one unit off, and
      the statements about the exact shares are made for amounts below
      2^47;
    - the tier catalogue is in cents and [getMinBalanceCents] multiplies by
      the inexact constant [1.1]; there the double result differs from the
      exact one, so that function is modelled on primitive floats. *)

From Stdlib Require Import ZArith Lia List Floats.
From stdpp Require Import gmap strings list.

Local Open Scope Z_scope.

(** ** JavaScript numbers *)

Module Js.

(** The double nearest to an integer (an integer literal or an integer-valued
    number read from a record). *)
Definition num (z : Z) : float :=
  SF2Prim (binary_normalize prec emax z 0 false).

(** The integer value of [m * 2 ^ e], rounded up and rounded down. *)
Definition scaled_ceil (m e : Z) : Z :=
  if 0 <=? e then m * 2 ^ e else - ((- m) / 2 ^ (- e)).

Definition scaled_floor (m e : Z) : Z :=
  if 0 <=? e then m * 2 ^ e else m / 2 ^ (- e).

Definition signed (s : bool) (m : positive) : Z :=
  if s then Z.neg m else Z.pos m.

(** [Math.ceil] and [Math.floor]: NaN, the infinities and the zeros are
    returned as they are (a zero that results from rounding is the positive
    one). *)
Definition Math_ceil (x : float) : float :=
  match Prim2SF x with
  | S754_finite s m e => num (scaled_ceil (signed s m) e)
  | _ => x
  end.

Definition Math_floor (x : float) : float :=
  match Prim2SF x with
  | S754_finite s m e => num (scaled_floor (signed s m) e)
  | _ => x
  end.

(** The integer a double holds, when it is finite and integral. *)
Definition to_Z (x : float) : option Z :=
  match Prim2SF x with
  | S754_zero _ => Some 0
  | S754_finite s m e =>
      if scaled_ceil (signed s m) e =? scaled_floor (signed s m) e
      then Some (scaled_floor (signed s m) e) else None
  | _ => None
  end.

End Js.

(** Ceiling division: [Math.ceil (a / b)] for whole [a] and positive [b].
    The satoshi formulas of the source, [Math.ceil (x * (p / 100))],
    [Math.ceil (x * 3 / 100)] and [Math.floor (x * (1 - 3 / 100))], are taken
    with it and with floor division.  For [0 <= x < 2^47] these are the
    numbers the doubles give ([captureAmount_exact], [platformShare_exact],
    [depositReturn_exact]); for larger [x] the doubles can differ by one
    unit, as two examples after these lemmas show. *)
Definition ceil_div (a b : Z) : Z := - ((- a) / b).

(** ** Constants.ts *)

Record StakeTierDef := {
  tier : Z;
  name : string;
  depositCents : Z;
  baseCents : Z;
}.

Definition STAKE_TIERS : list StakeTierDef := [
  {| tier := 1;    name := "Penny";   depositCents := 1;    baseCents := 1 |};
  {| tier := 25;   name := "Quarter"; depositCents := 25;   baseCents := 25 |};
  {| tier := 50;   name := "Half";    depositCents := 50;   baseCents := 50 |};
  {| tier := 100;  name := "Dollar";  depositCents := 100;  baseCents := 100 |};
  {| tier := 500;  name := "Five";    depositCents := 500;  baseCents := 500 |};
  {| tier := 1000; name := "Ten";     depositCents := 1000; baseCents := 1000 |}
].

Definition getTierByValue (v : Z) : option StakeTierDef :=
  List.find (fun t => tier t =? v) STAKE_TIERS.

(** [ChessPieceType]: the one-letter piece symbols, kept in a module of their
    own so that they do not capture variable names. *)
Module Piece.
Inductive t := k | q | r | b | n | p.
End Piece.
Abbreviation ChessPieceType := Piece.t.

#[global] Instance ChessPieceType_eq_dec : EqDecision ChessPieceType.
Proof. solve_decision. Defined.

Definition PIECE_CAPTURE_PERCENT (piece : ChessPieceType) : Z :=
  match piece with
  | Piece.k => 100
  | Piece.q => 90
  | Piece.r => 80
  | Piece.b => 70
  | Piece.n => 70
  | Piece.p => 20
  end.

Definition PLATFORM_CUT_PERCENT : Z := 3.

Record PlatformSplit := {
  recipientSats : Z;
  platformSats_of : Z;
}.

(** [Math.ceil (totalSats * PLATFORM_CUT_PERCENT / 100)] as a ceiling
    division: the number the doubles give below 2^47 units. *)
Definition applyPlatformCut (totalSats : Z) : PlatformSplit :=
  let platformSats := ceil_div (totalSats * PLATFORM_CUT_PERCENT) 100 in
  {| recipientSats := totalSats - platformSats; platformSats_of := platformSats |}.

(** [centsToSats]: [None] stands for the thrown "Invalid BSV price". *)
Definition centsToSats (cents : float) (bsvPriceUsd : float) : option float :=
  if (bsvPriceUsd <=? 0)%float then None
  else
    let dollars := (cents / 100)%float in
    let bsv := (dollars / bsvPriceUsd)%float in
    Some (Js.Math_ceil (bsv * 100000000)%float).

Definition WORST_CASE_CAPTURE_PERCENT : Z := 90 + 80*2 + 70*2 + 70*2 + 20*8.

(** The literal [1.1] denotes the double [0x1.199999999999ap+0]. *)
Definition buffer_1_1 : float := 0x1.199999999999ap+0%float.

Definition getMinBalanceCents (t : StakeTierDef) : float :=
  let deposit := Js.num (depositCents t) in
  let worstCaseCaptures :=
    (Js.num (baseCents t) * (Js.num WORST_CASE_CAPTURE_PERCENT / 100))%float in
  Js.Math_ceil ((deposit + worstCaseCaptures) * buffer_1_1)%float.

Definition getMinBalanceSats (t : StakeTierDef) (bsvPriceUsd : float) : option float :=
  centsToSats (getMinBalanceCents t) bsvPriceUsd.

Inductive GameEndReason :=
  | checkmate
  | stalemate
  | resignation
  | disconnect
  | timeout
  | insufficient_funds
  | draw_agreement
  | threefold_repetition
  | fifty_move_rule
  | insufficient_material.

#[global] Instance GameEndReason_eq_dec : EqDecision GameEndReason.
Proof. solve_decision. Defined.

(** ** ChessGameManager.ts: types *)

Inductive GamePhase := awaiting_wagers | playing | paused | gameover.

#[global] Instance GamePhase_eq_dec : EqDecision GamePhase.
Proof. solve_decision. Defined.

Inductive PlayerSlot := white | black.

#[global] Instance PlayerSlot_eq_dec : EqDecision PlayerSlot.
Proof. solve_decision. Defined.

(** The slot as it is spliced into a timer key. *)
Definition slot_name (s : PlayerSlot) : string :=
  match s with white => "white" | black => "black" end.

(** The side letters of the position engine. *)
Module ChessColor.
Inductive t := w | b.
End ChessColor.

(** [pendingPayment]: its [type] field has the single value ['wager']. *)
Module PendingPayment.
Record t := mk {
  fromSlot : PlayerSlot;
  amount : Z;
  toAddress : string;
}.
End PendingPayment.

(** An entry of [capturePayments], the capture ledger. *)
Module CapturePayment.
Record t := mk {
  fromSlot : PlayerSlot;
  toSlot : PlayerSlot;
  piece : ChessPieceType;
  amountSats : Z;
  capturerSats : Z;
  platformSats : Z;
  paid : bool;
  txid : option string;
}.
End CapturePayment.

(** An entry of [moveHistory]. *)
Module MoveRecord.
Record t := mk {
  san : string;
  from : string;
  to : string;
  color : ChessColor.t;
}.
End MoveRecord.

(** A seat: [PlayerState]. *)
Module Player.
Section fields.

Record t := mk {
  socketId : string;
  address : string;
  username : string;
  color : PlayerSlot;
  wagerPaid : bool;
  moveCount : Z;
  connected : bool;
  disconnectedAt : option Z;
}.

Definition set_socketId (v : string) (x : t) : t :=
  {| socketId := v; address := address x; username := username x; color := color x;
     wagerPaid := wagerPaid x; moveCount := moveCount x; connected := connected x;
     disconnectedAt := disconnectedAt x |}.

Definition set_wagerPaid (v : bool) (x : t) : t :=
  {| socketId := socketId x; address := address x; username := username x;
     color := color x; wagerPaid := v; moveCount := moveCount x; connected := connected x;
     disconnectedAt := disconnectedAt x |}.

Definition set_moveCount (v : Z) (x : t) : t :=
  {| socketId := socketId x; address := address x; username := username x;
     color := color x; wagerPaid := wagerPaid x; moveCount := v; connected := connected x;
     disconnectedAt := disconnectedAt x |}.

Definition set_connected (v : bool) (x : t) : t :=
  {| socketId := socketId x; address := address x; username := username x;
     color := color x; wagerPaid := wagerPaid x; moveCount := moveCount x; connected := v;
     disconnectedAt := disconnectedAt x |}.

Definition set_disconnectedAt (v : option Z) (x : t) : t :=
  {| socketId := socketId x; address := address x; username := username x;
     color := color x; wagerPaid := wagerPaid x; moveCount := moveCount x;
     connected := connected x; disconnectedAt := v |}.

End fields.
End Player.

(** [GameState].  [chess] is the position held by the engine. *)
Module Game.
Section fields.
Context {Position : Type}.

Record t := mk {
  id : string;
  phase : GamePhase;
  tier : StakeTierDef;
  depositSats : Z;
  baseSats : Z;
  bsvPriceAtStart : float;
  chess : Position;
  white : Player.t;
  black : Player.t;
  pot : Z;
  pendingPayment : option PendingPayment.t;
  capturePayments : list CapturePayment.t;
  pausedFor : option PlayerSlot;
  pausedAt : option Z;
  pauseReason : option string;
  createdAt : Z;
  startedAt : option Z;
  endedAt : option Z;
  endReason : option GameEndReason;
  winner : option PlayerSlot;
  turnStartedAt : Z;
  moveHistory : list MoveRecord.t;
}.

Definition set_phase (v : GamePhase) (x : t) : t :=
  {| id := id x; phase := v; tier := tier x; depositSats := depositSats x;
     baseSats := baseSats x; bsvPriceAtStart := bsvPriceAtStart x; chess := chess x;
     white := white x; black := black x; pot := pot x; pendingPayment := pendingPayment x;
     capturePayments := capturePayments x; pausedFor := pausedFor x;
     pausedAt := pausedAt x; pauseReason := pauseReason x; createdAt := createdAt x;
     startedAt := startedAt x; endedAt := endedAt x; endReason := endReason x;
     winner := winner x; turnStartedAt := turnStartedAt x; moveHistory := moveHistory x |}.

Definition set_chess (v : Position) (x : t) : t :=
  {| id := id x; phase := phase x; tier := tier x; depositSats := depositSats x;
     baseSats := baseSats x; bsvPriceAtStart := bsvPriceAtStart x; chess := v;
     white := white x; black := black x; pot := pot x; pendingPayment := pendingPayment x;
     capturePayments := capturePayments x; pausedFor := pausedFor x;
     pausedAt := pausedAt x; pauseReason := pauseReason x; createdAt := createdAt x;
     startedAt := startedAt x; endedAt := endedAt x; endReason := endReason x;
     winner := winner x; turnStartedAt := turnStartedAt x; moveHistory := moveHistory x |}.

Definition set_white (v : Player.t) (x : t) : t :=
  {| id := id x; phase := phase x; tier := tier x; depositSats := depositSats x;
     baseSats := baseSats x; bsvPriceAtStart := bsvPriceAtStart x; chess := chess x;
     white := v; black := black x; pot := pot x; pendingPayment := pendingPayment x;
     capturePayments := capturePayments x; pausedFor := pausedFor x;
     pausedAt := pausedAt x; pauseReason := pauseReason x; createdAt := createdAt x;
     startedAt := startedAt x; endedAt := endedAt x; endReason := endReason x;
     winner := winner x; turnStartedAt := turnStartedAt x; moveHistory := moveHistory x |}.

Definition set_black (v : Player.t) (x : t) : t :=
  {| id := id x; phase := phase x; tier := tier x; depositSats := depositSats x;
     baseSats := baseSats x; bsvPriceAtStart := bsvPriceAtStart x; chess := chess x;
     white := white x; black := v; pot := pot x; pendingPayment := pendingPayment x;
     capturePayments := capturePayments x; pausedFor := pausedFor x;
     pausedAt := pausedAt x; pauseReason := pauseReason x; createdAt := createdAt x;
     startedAt := startedAt x; endedAt := endedAt x; endReason := endReason x;
     winner := winner x; turnStartedAt := turnStartedAt x; moveHistory := moveHistory x |}.

Definition set_pot (v : Z) (x : t) : t :=
  {| id := id x; phase := phase x; tier := tier x; depositSats := depositSats x;
     baseSats := baseSats x; bsvPriceAtStart := bsvPriceAtStart x; chess := chess x;
     white := white x; black := black x; pot := v; pendingPayment := pendingPayment x;
     capturePayments := capturePayments x; pausedFor := pausedFor x;
     pausedAt := pausedAt x; pauseReason := pauseReason x; createdAt := createdAt x;
     startedAt := startedAt x; endedAt := endedAt x; endReason := endReason x;
     winner := winner x; turnStartedAt := turnStartedAt x; moveHistory := moveHistory x |}.

Definition set_pendingPayment (v : option PendingPayment.t) (x : t) : t :=
  {| id := id x; phase := phase x; tier := tier x; depositSats := depositSats x;
     baseSats := baseSats x; bsvPriceAtStart := bsvPriceAtStart x; chess := chess x;
     white := white x; black := black x; pot := pot x; pendingPayment := v;
     capturePayments := capturePayments x; pausedFor := pausedFor x;
     pausedAt := pausedAt x; pauseReason := pauseReason x; createdAt := createdAt x;
     startedAt := startedAt x; endedAt := endedAt x; endReason := endReason x;
     winner := winner x; turnStartedAt := turnStartedAt x; moveHistory := moveHistory x |}.

Definition set_capturePayments (v : list CapturePayment.t) (x : t) : t :=
  {| id := id x; phase := phase x; tier := tier x; depositSats := depositSats x;
     baseSats := baseSats x; bsvPriceAtStart := bsvPriceAtStart x; chess := chess x;
     white := white x; black := black x; pot := pot x; pendingPayment := pendingPayment x;
     capturePayments := v; pausedFor := pausedFor x; pausedAt := pausedAt x;
     pauseReason := pauseReason x; createdAt := createdAt x; startedAt := startedAt x;
     endedAt := endedAt x; endReason := endReason x; winner := winner x;
     turnStartedAt := turnStartedAt x; moveHistory := moveHistory x |}.

Definition set_pausedFor (v : option PlayerSlot) (x : t) : t :=
  {| id := id x; phase := phase x; tier := tier x; depositSats := depositSats x;
     baseSats := baseSats x; bsvPriceAtStart := bsvPriceAtStart x; chess := chess x;
     white := white x; black := black x; pot := pot x; pendingPayment := pendingPayment x;
     capturePayments := capturePayments x; pausedFor := v; pausedAt := pausedAt x;
     pauseReason := pauseReason x; createdAt := createdAt x; startedAt := startedAt x;
     endedAt := endedAt x; endReason := endReason x; winner := winner x;
     turnStartedAt := turnStartedAt x; moveHistory := moveHistory x |}.

Definition set_pausedAt (v : option Z) (x : t) : t :=
  {| id := id x; phase := phase x; tier := tier x; depositSats := depositSats x;
     baseSats := baseSats x; bsvPriceAtStart := bsvPriceAtStart x; chess := chess x;
     white := white x; black := black x; pot := pot x; pendingPayment := pendingPayment x;
     capturePayments := capturePayments x; pausedFor := pausedFor x; pausedAt := v;
     pauseReason := pauseReason x; createdAt := createdAt x; startedAt := startedAt x;
     endedAt := endedAt x; endReason := endReason x; winner := winner x;
     turnStartedAt := turnStartedAt x; moveHistory := moveHistory x |}.

Definition set_pauseReason (v : option string) (x : t) : t :=
  {| id := id x; phase := phase x; tier := tier x; depositSats := depositSats x;
     baseSats := baseSats x; bsvPriceAtStart := bsvPriceAtStart x; chess := chess x;
     white := white x; black := black x; pot := pot x; pendingPayment := pendingPayment x;
     capturePayments := capturePayments x; pausedFor := pausedFor x;
     pausedAt := pausedAt x; pauseReason := v; createdAt := createdAt x;
     startedAt := startedAt x; endedAt := endedAt x; endReason := endReason x;
     winner := winner x; turnStartedAt := turnStartedAt x; moveHistory := moveHistory x |}.

Definition set_startedAt (v : option Z) (x : t) : t :=
  {| id := id x; phase := phase x; tier := tier x; depositSats := depositSats x;
     baseSats := baseSats x; bsvPriceAtStart := bsvPriceAtStart x; chess := chess x;
     white := white x; black := black x; pot := pot x; pendingPayment := pendingPayment x;
     capturePayments := capturePayments x; pausedFor := pausedFor x;
     pausedAt := pausedAt x; pauseReason := pauseReason x; createdAt := createdAt x;
     startedAt := v; endedAt := endedAt x; endReason := endReason x; winner := winner x;
     turnStartedAt := turnStartedAt x; moveHistory := moveHistory x |}.

Definition set_endedAt (v : option Z) (x : t) : t :=
  {| id := id x; phase := phase x; tier := tier x; depositSats := depositSats x;
     baseSats := baseSats x; bsvPriceAtStart := bsvPriceAtStart x; chess := chess x;
     white := white x; black := black x; pot := pot x; pendingPayment := pendingPayment x;
     capturePayments := capturePayments x; pausedFor := pausedFor x;
     pausedAt := pausedAt x; pauseReason := pauseReason x; createdAt := createdAt x;
     startedAt := startedAt x; endedAt := v; endReason := endReason x; winner := winner x;
     turnStartedAt := turnStartedAt x; moveHistory := moveHistory x |}.

Definition set_endReason (v : option GameEndReason) (x : t) : t :=
  {| id := id x; phase := phase x; tier := tier x; depositSats := depositSats x;
     baseSats := baseSats x; bsvPriceAtStart := bsvPriceAtStart x; chess := chess x;
     white := white x; black := black x; pot := pot x; pendingPayment := pendingPayment x;
     capturePayments := capturePayments x; pausedFor := pausedFor x;
     pausedAt := pausedAt x; pauseReason := pauseReason x; createdAt := createdAt x;
     startedAt := startedAt x; endedAt := endedAt x; endReason := v; winner := winner x;
     turnStartedAt := turnStartedAt x; moveHistory := moveHistory x |}.

Definition set_winner (v : option PlayerSlot) (x : t) : t :=
  {| id := id x; phase := phase x; tier := tier x; depositSats := depositSats x;
     baseSats := baseSats x; bsvPriceAtStart := bsvPriceAtStart x; chess := chess x;
     white := white x; black := black x; pot := pot x; pendingPayment := pendingPayment x;
     capturePayments := capturePayments x; pausedFor := pausedFor x;
     pausedAt := pausedAt x; pauseReason := pauseReason x; createdAt := createdAt x;
     startedAt := startedAt x; endedAt := endedAt x; endReason := endReason x; winner := v;
     turnStartedAt := turnStartedAt x; moveHistory := moveHistory x |}.

Definition set_turnStartedAt (v : Z) (x : t) : t :=
  {| id := id x; phase := phase x; tier := tier x; depositSats := depositSats x;
     baseSats := baseSats x; bsvPriceAtStart := bsvPriceAtStart x; chess := chess x;
     white := white x; black := black x; pot := pot x; pendingPayment := pendingPayment x;
     capturePayments := capturePayments x; pausedFor := pausedFor x;
     pausedAt := pausedAt x; pauseReason := pauseReason x; createdAt := createdAt x;
     startedAt := startedAt x; endedAt := endedAt x; endReason := endReason x;
     winner := winner x; turnStartedAt := v; moveHistory := moveHistory x |}.

Definition set_moveHistory (v : list MoveRecord.t) (x : t) : t :=
  {| id := id x; phase := phase x; tier := tier x; depositSats := depositSats x;
     baseSats := baseSats x; bsvPriceAtStart := bsvPriceAtStart x; chess := chess x;
     white := white x; black := black x; pot := pot x; pendingPayment := pendingPayment x;
     capturePayments := capturePayments x; pausedFor := pausedFor x;
     pausedAt := pausedAt x; pauseReason := pauseReason x; createdAt := createdAt x;
     startedAt := startedAt x; endedAt := endedAt x; endReason := endReason x;
     winner := winner x; turnStartedAt := turnStartedAt x; moveHistory := v |}.

End fields.
Arguments t : clear implicits.
End Game.

(** [GameOverResult]. *)
Module GameOver.
Record t := mk {
  winner : option PlayerSlot;
  loser : option PlayerSlot;
  reason : GameEndReason;
  pot : Z;
  winnerPayout : Z;
  loserPayout : Z;
  platformCut : Z;
  whiteAddress : string;
  blackAddress : string;
}.
End GameOver.

(** [MoveResult['capturePayment']]. *)
Module CaptureInfo.
Record t := mk {
  victimSlot : PlayerSlot;
  capturerSlot : PlayerSlot;
  piece : ChessPieceType;
  amountSats : Z;
  capturerSats : Z;
  platformSats : Z;
}.
End CaptureInfo.

(** [MoveResult]: an absent property is [None]. *)
Module MoveResult.
Record t := mk {
  success : bool;
  error : option string;
  san : option string;
  fen : option string;
  move : option MoveRecord.t;
  capturePayment : option CaptureInfo.t;
  isCheck : option bool;
  isCheckmate : option bool;
  isStalemate : option bool;
  isDraw : option bool;
  drawReason : option string;
  gameOver : option bool;
  gameOverResult : option GameOver.t;
}.

Definition failure (msg : string) : t :=
  {| success := false; error := Some msg; san := None; fen := None; move := None;
     capturePayment := None; isCheck := None; isCheckmate := None;
     isStalemate := None; isDraw := None; drawReason := None; gameOver := None;
     gameOverResult := None |}.
End MoveResult.

(** The result objects of the other operations. *)
Module WagerRequest.
Record t := mk {
  amount : Z;
  toAddress : string;
}.
End WagerRequest.

Module ConfirmResult.
Record t := mk {
  success : bool;
  bothPaid : bool;
  error : option string;
}.
End ConfirmResult.

Module DrawOffer.
Record t := mk {
  success : bool;
  opponentSocketId : option string;
  error : option string;
}.
End DrawOffer.

Module DrawAccept.
Record t := mk {
  success : bool;
  result : option GameOver.t;
  error : option string;
}.
End DrawAccept.

Module Resignation.
Record t := mk {
  gameId : string;
  result : GameOver.t;
}.
End Resignation.

Module WagerRefund.
Record t := mk {
  address : string;
  amount : Z;
}.
End WagerRefund.

Module Disconnection.
Record t := mk {
  gameId : string;
  slot : PlayerSlot;
  graceStarted : bool;
  immediateResult : option GameOver.t;
  wagerRefund : option WagerRefund.t;
}.
End Disconnection.

Module Reconnection.
Record t := mk {
  success : bool;
  game : option string;
  slot : option PlayerSlot;
  error : option string;
}.
End Reconnection.

(** ** Timers and callbacks

    [setTimeout] hands out a fresh handle and records the callback among the
    host's pending timeouts; [clearTimeout] removes it; a timeout that fires
    leaves the pending set and runs its callback.  The three callbacks the
    manager schedules are closures over a game (and seats); they are
    represented by the data they close over. *)

Abbreviation Timeout := nat.

Inductive TimerTask :=
  | TurnExpiry (gameId : string)
  | PauseExpiry (gameId : string) (forSlot : PlayerSlot)
  | DisconnectExpiry (gameId : string) (slot opponent : PlayerSlot).

(** An invocation of one of the manager's callback fields ([onTurnTimeout],
    [onPauseTimeout], [onFundsNeeded], [onDisconnectTimeout]).  The handlers
    the socket layer installs there are not part of the manager; the manager
    model records each call. *)
Inductive Notification :=
  | OnTurnTimeout (gameId : string) (winner loser : PlayerSlot)
  | OnPauseTimeout (gameId : string) (winner loser : PlayerSlot)
  | OnFundsNeeded (gameId : string) (slot : PlayerSlot) (amountNeeded : Z)
  | OnDisconnectTimeout (gameId : string) (winner loser : PlayerSlot).

(** The manager.  [heap] holds the game objects by identity (their id):
    [games] is the registry [this.games], from which [removeGame] deletes,
    while a timer closure keeps its game reachable.  [pending] and
    [nextTimeout] are the host's timeout table. *)
Module Mgr.
Section fields.
Context {Position : Type}.

Record t := mk {
  heap : gmap string (Game.t Position);
  games : gset string;
  playerToGame : gmap string string;
  turnTimers : gmap string Timeout;
  pauseTimers : gmap string Timeout;
  disconnectTimers : gmap string Timeout;
  pending : gmap Timeout TimerTask;
  nextTimeout : Timeout;
  emitted : list Notification;
}.

Definition set_heap (v : gmap string (Game.t Position)) (x : t) : t :=
  {| heap := v; games := games x; playerToGame := playerToGame x;
     turnTimers := turnTimers x; pauseTimers := pauseTimers x;
     disconnectTimers := disconnectTimers x; pending := pending x;
     nextTimeout := nextTimeout x; emitted := emitted x |}.

Definition set_games (v : gset string) (x : t) : t :=
  {| heap := heap x; games := v; playerToGame := playerToGame x;
     turnTimers := turnTimers x; pauseTimers := pauseTimers x;
     disconnectTimers := disconnectTimers x; pending := pending x;
     nextTimeout := nextTimeout x; emitted := emitted x |}.

Definition set_playerToGame (v : gmap string string) (x : t) : t :=
  {| heap := heap x; games := games x; playerToGame := v; turnTimers := turnTimers x;
     pauseTimers := pauseTimers x; disconnectTimers := disconnectTimers x;
     pending := pending x; nextTimeout := nextTimeout x; emitted := emitted x |}.

Definition set_turnTimers (v : gmap string Timeout) (x : t) : t :=
  {| heap := heap x; games := games x; playerToGame := playerToGame x; turnTimers := v;
     pauseTimers := pauseTimers x; disconnectTimers := disconnectTimers x;
     pending := pending x; nextTimeout := nextTimeout x; emitted := emitted x |}.

Definition set_pauseTimers (v : gmap string Timeout) (x : t) : t :=
  {| heap := heap x; games := games x; playerToGame := playerToGame x;
     turnTimers := turnTimers x; pauseTimers := v; disconnectTimers := disconnectTimers x;
     pending := pending x; nextTimeout := nextTimeout x; emitted := emitted x |}.

Definition set_disconnectTimers (v : gmap string Timeout) (x : t) : t :=
  {| heap := heap x; games := games x; playerToGame := playerToGame x;
     turnTimers := turnTimers x; pauseTimers := pauseTimers x; disconnectTimers := v;
     pending := pending x; nextTimeout := nextTimeout x; emitted := emitted x |}.

Definition set_pending (v : gmap Timeout TimerTask) (x : t) : t :=
  {| heap := heap x; games := games x; playerToGame := playerToGame x;
     turnTimers := turnTimers x; pauseTimers := pauseTimers x;
     disconnectTimers := disconnectTimers x; pending := v; nextTimeout := nextTimeout x;
     emitted := emitted x |}.

Definition set_nextTimeout (v : Timeout) (x : t) : t :=
  {| heap := heap x; games := games x; playerToGame := playerToGame x;
     turnTimers := turnTimers x; pauseTimers := pauseTimers x;
     disconnectTimers := disconnectTimers x; pending := pending x; nextTimeout := v;
     emitted := emitted x |}.

Definition set_emitted (v : list Notification) (x : t) : t :=
  {| heap := heap x; games := games x; playerToGame := playerToGame x;
     turnTimers := turnTimers x; pauseTimers := pauseTimers x;
     disconnectTimers := disconnectTimers x; pending := pending x;
     nextTimeout := nextTimeout x; emitted := v |}.

End fields.
Arguments t : clear implicits.
End Mgr.

(** ** The position engine (chess.js), taken as a parameter *)

Module ChessMove.
Record t := mk {
  san : string;
  from : string;
  to : string;
  color : ChessColor.t;
  captured : option ChessPieceType;
}.
End ChessMove.

Class ChessEngine (Position : Type) := {
  new_Chess : Position;
  chess_turn : Position -> ChessColor.t;
  chess_move : Position -> string -> string -> option string ->
               option (ChessMove.t * Position);
  chess_isCheckmate : Position -> bool;
  chess_isStalemate : Position -> bool;
  chess_isThreefoldRepetition : Position -> bool;
  chess_isInsufficientMaterial : Position -> bool;
  chess_isDraw : Position -> bool;
  chess_isCheck : Position -> bool;
  chess_fen : Position -> string;
}.

(** ** ChessGameManager.ts: the manager *)

Section Manager.
Context {Position : Type} `{!ChessEngine Position}.

Abbreviation game := (Game.t Position).
Abbreviation manager := (Mgr.t Position).

Definition empty_manager : manager :=
  {| Mgr.heap := ∅; Mgr.games := ∅; Mgr.playerToGame := ∅; Mgr.turnTimers := ∅;
     Mgr.pauseTimers := ∅; Mgr.disconnectTimers := ∅; Mgr.pending := ∅;
     Mgr.nextTimeout := 0%nat; Mgr.emitted := [] |}.

(** *** Helpers *)

(** [this.games.get(id)]. *)
Definition games_get (id : string) (m : manager) : option game :=
  if decide (id ∈ Mgr.games m) then Mgr.heap m !! id else None.

(** A mutation of a game object: the object is written back under its
    identity. *)
Definition store (g : game) (m : manager) : manager :=
  Mgr.set_heap (<[Game.id g := g]> (Mgr.heap m)) m.

(** [game[slot]] and the assignment to it. *)
Definition player (g : game) (slot : PlayerSlot) : Player.t :=
  match slot with white => Game.white g | black => Game.black g end.

Definition set_player (slot : PlayerSlot) (v : Player.t) (g : game) : game :=
  match slot with white => Game.set_white v g | black => Game.set_black v g end.

Definition getGame (id : string) (m : manager) : option game := games_get id m.

(** [id ? this.games.get(id) : undefined]: the empty string is falsy. *)
Definition getGameBySocket (sid : string) (m : manager) : option game :=
  match Mgr.playerToGame m !! sid with
  | Some id => if decide (id = "") then None else games_get id m
  | None => None
  end.

Definition getSlot (g : game) (sid : string) : option PlayerSlot :=
  if decide (Player.socketId (Game.white g) = sid) then Some white
  else if decide (Player.socketId (Game.black g) = sid) then Some black
  else None.

Definition opponentSlot (s : PlayerSlot) : PlayerSlot :=
  if decide (s = white) then black else white.

Definition getActiveCount (m : manager) : nat := size (Mgr.games m).

(** [game.chess.turn() === 'w' ? 'white' : 'black']. *)
Definition currentTurn (g : game) : PlayerSlot :=
  match chess_turn (Game.chess g) with
  | ChessColor.w => white
  | ChessColor.b => black
  end.

Definition emit (n : Notification) (m : manager) : manager :=
  Mgr.set_emitted (Mgr.emitted m ++ [n]) m.

(** *** The host's timeouts *)

Definition setTimeout (task : TimerTask) (m : manager) : Timeout * manager :=
  let t := Mgr.nextTimeout m in
  (t, Mgr.set_nextTimeout (S t) (Mgr.set_pending (<[t := task]> (Mgr.pending m)) m)).

Definition clearTimeout (t : Timeout) (m : manager) : manager :=
  Mgr.set_pending (delete t (Mgr.pending m)) m.

(** *** Timer bookkeeping *)

Definition disconnectKey (gameId : string) (slot : PlayerSlot) : string :=
  gameId +:+ ":" +:+ slot_name slot.

Definition clearTurnTimer (gameId : string) (m : manager) : manager :=
  match Mgr.turnTimers m !! gameId with
  | Some t =>
      let m1 := clearTimeout t m in
      Mgr.set_turnTimers (delete gameId (Mgr.turnTimers m1)) m1
  | None => m
  end.

Definition clearPauseTimer (gameId : string) (m : manager) : manager :=
  match Mgr.pauseTimers m !! gameId with
  | Some t =>
      let m1 := clearTimeout t m in
      Mgr.set_pauseTimers (delete gameId (Mgr.pauseTimers m1)) m1
  | None => m
  end.

Definition clearDisconnectTimer (gameId : string) (slot : PlayerSlot)
    (m : manager) : manager :=
  let key := disconnectKey gameId slot in
  match Mgr.disconnectTimers m !! key with
  | Some t =>
      let m1 := clearTimeout t m in
      Mgr.set_disconnectTimers (delete key (Mgr.disconnectTimers m1)) m1
  | None => m
  end.

Definition startTurnTimer (g : game) (m : manager) : manager :=
  let m1 := clearTurnTimer (Game.id g) m in
  let '(timer, m2) := setTimeout (TurnExpiry (Game.id g)) m1 in
  Mgr.set_turnTimers (<[Game.id g := timer]> (Mgr.turnTimers m2)) m2.

(** *** createGame

    The awaited price, the generated id, the coin flip and the clock are
    inputs.  Deposit and base value leave the double world here: a game is
    modelled only when [centsToSats] returns finite whole numbers for both.
    At a price that is NaN, or so small that the amount overflows, the
    source goes on with a game whose amounts are NaN or Infinity; whole
    numbers cannot hold those, and the model answers [CreateNotWhole]: such
    a call is outside the model. *)

Inductive CreateGameResult :=
  | CreateOk (g : game) (m : manager)
  | CreateNull
  | CreateThrows
  | CreateNotWhole.

Definition mkPlayer (sid addr name : string) (color : PlayerSlot) : Player.t :=
  {| Player.socketId := sid; Player.address := addr; Player.username := name;
     Player.color := color; Player.wagerPaid := false; Player.moveCount := 0;
     Player.connected := true; Player.disconnectedAt := None |}.

Definition createGame (p1Sid p1Addr p1Name p2Sid p2Addr p2Name : string)
    (tierValue : Z) (bsvPrice : float) (gameId : string) (p1IsWhite : bool)
    (now : Z) (m : manager) : CreateGameResult :=
  match getTierByValue tierValue with
  | None => CreateNull
  | Some tier =>
      match centsToSats (Js.num (depositCents tier)) bsvPrice,
            centsToSats (Js.num (baseCents tier)) bsvPrice with
      | Some d, Some b =>
          match Js.to_Z d, Js.to_Z b with
          | Some depositSats, Some baseSats =>
              let g : game :=
                {| Game.id := gameId;
                   Game.phase := awaiting_wagers;
                   Game.tier := tier;
                   Game.depositSats := depositSats;
                   Game.baseSats := baseSats;
                   Game.bsvPriceAtStart := bsvPrice;
                   Game.chess := new_Chess;
                   Game.white :=
                     mkPlayer (if p1IsWhite then p1Sid else p2Sid)
                              (if p1IsWhite then p1Addr else p2Addr)
                              (if p1IsWhite then p1Name else p2Name) white;
                   Game.black :=
                     mkPlayer (if p1IsWhite then p2Sid else p1Sid)
                              (if p1IsWhite then p2Addr else p1Addr)
                              (if p1IsWhite then p2Name else p1Name) black;
                   Game.pot := 0;
                   Game.pendingPayment := None;
                   Game.capturePayments := [];
                   Game.pausedFor := None;
                   Game.pausedAt := None;
                   Game.pauseReason := None;
                   Game.createdAt := now;
                   Game.startedAt := None;
                   Game.endedAt := None;
                   Game.endReason := None;
                   Game.winner := None;
                   Game.turnStartedAt := 0;
                   Game.moveHistory := [] |} in
              let m1 := Mgr.set_games ({[gameId]} ∪ Mgr.games m) (store g m) in
              let m2 := Mgr.set_playerToGame (<[p1Sid := gameId]> (Mgr.playerToGame m1)) m1 in
              let m3 := Mgr.set_playerToGame (<[p2Sid := gameId]> (Mgr.playerToGame m2)) m2 in
              CreateOk g m3
          | _, _ => CreateNotWhole
          end
      | _, _ => CreateThrows
      end
  end.

(** *** Wager payment *)

Definition requestWagerPayment (gameId : string) (slot : PlayerSlot)
    (escrowAddress : string) (m : manager) : option WagerRequest.t * manager :=
  match games_get gameId m with
  | None => (None, m)
  | Some g =>
      if decide (Game.phase g ≠ awaiting_wagers) then (None, m)
      else if Player.wagerPaid (player g slot) then (None, m)
      else
        let g1 :=
          Game.set_pendingPayment
            (Some {| PendingPayment.fromSlot := slot;
                     PendingPayment.amount := Game.depositSats g;
                     PendingPayment.toAddress := escrowAddress |}) g in
        (Some {| WagerRequest.amount := Game.depositSats g;
                 WagerRequest.toAddress := escrowAddress |},
         store g1 m)
  end.

Definition confirmWagerPayment (gameId : string) (slot : PlayerSlot)
    (txid : string) (now : Z) (m : manager) : ConfirmResult.t * manager :=
  match games_get gameId m with
  | None =>
      ({| ConfirmResult.success := false; ConfirmResult.bothPaid := false;
          ConfirmResult.error := Some "Game not found" |}, m)
  | Some g =>
      let g1 := set_player slot (Player.set_wagerPaid true (player g slot)) g in
      let g2 := Game.set_pot (Game.pot g1 + Game.depositSats g1) g1 in
      let g3 := Game.set_pendingPayment None g2 in
      let bothPaid :=
        Player.wagerPaid (Game.white g3) && Player.wagerPaid (Game.black g3) in
      if bothPaid then
        let g4 := Game.set_phase playing g3 in
        let g5 := Game.set_startedAt (Some now) g4 in
        let g6 := Game.set_turnStartedAt now g5 in
        ({| ConfirmResult.success := true; ConfirmResult.bothPaid := bothPaid;
            ConfirmResult.error := None |},
         startTurnTimer g6 (store g6 m))
      else
        ({| ConfirmResult.success := true; ConfirmResult.bothPaid := bothPaid;
            ConfirmResult.error := None |},
         store g3 m)
  end.

(** *** Game end

    [reduce ((sum, cp) => sum + ..., 0)] is a left fold from 0;
    [Math.ceil (loserDeposit * PLATFORM_CUT_PERCENT / 100)] is a ceiling
    division and [Math.floor (depositSats * (1 - PLATFORM_CUT_PERCENT / 100))]
    a floor division by 100: the numbers the doubles give for a deposit
    below 2^47 units. *)

Definition clearGameTimers (gameId : string) (m : manager) : manager :=
  let m1 := clearTurnTimer gameId m in
  let m2 := clearPauseTimer gameId m1 in
  let m3 := clearDisconnectTimer gameId white m2 in
  clearDisconnectTimer gameId black m3.

Definition endGame (g : game) (winner : PlayerSlot) (reason : GameEndReason)
    (now : Z) (m : manager) : GameOver.t * manager :=
  let g1 := Game.set_phase gameover g in
  let g2 := Game.set_endedAt (Some now) g1 in
  let g3 := Game.set_endReason (Some reason) g2 in
  let g4 := Game.set_winner (Some winner) g3 in
  let g5 := Game.set_pendingPayment None g4 in
  let m1 := clearGameTimers (Game.id g5) (store g5 m) in
  let loser := opponentSlot winner in
  let ownDeposit := Game.depositSats g5 in
  let loserDeposit := Game.depositSats g5 in
  let depositPlatformCut := ceil_div (loserDeposit * PLATFORM_CUT_PERCENT) 100 in
  let depositToWinner := loserDeposit - depositPlatformCut in
  let capturePlatformCut :=
    fold_left (fun sum cp => sum + CapturePayment.platformSats cp)
              (Game.capturePayments g5) 0 in
  let totalPlatformCut := depositPlatformCut + capturePlatformCut in
  let captureEarnings :=
    fold_left (fun sum cp => sum + CapturePayment.capturerSats cp)
              (List.filter (fun cp => bool_decide (CapturePayment.toSlot cp = winner))
                           (Game.capturePayments g5)) 0 in
  let winnerPayout := ownDeposit + depositToWinner + captureEarnings in
  ({| GameOver.winner := Some winner;
      GameOver.loser := Some loser;
      GameOver.reason := reason;
      GameOver.pot := Game.pot g5 + Game.depositSats g5 * 2;
      GameOver.winnerPayout := winnerPayout;
      GameOver.loserPayout := 0;
      GameOver.platformCut := totalPlatformCut;
      GameOver.whiteAddress := Player.address (Game.white g5);
      GameOver.blackAddress := Player.address (Game.black g5) |}, m1).

Definition endGameDraw (g : game) (reason : GameEndReason) (now : Z)
    (m : manager) : GameOver.t * manager :=
  let g1 := Game.set_phase gameover g in
  let g2 := Game.set_endedAt (Some now) g1 in
  let g3 := Game.set_endReason (Some reason) g2 in
  let g4 := Game.set_winner None g3 in
  let g5 := Game.set_pendingPayment None g4 in
  let m1 := clearGameTimers (Game.id g5) (store g5 m) in
  let depositReturn := Game.depositSats g5 * (100 - PLATFORM_CUT_PERCENT) / 100 in
  let platformCut := (Game.depositSats g5 - depositReturn) * 2 in
  ({| GameOver.winner := None;
      GameOver.loser := None;
      GameOver.reason := reason;
      GameOver.pot := Game.pot g5 + Game.depositSats g5 * 2;
      GameOver.winnerPayout := depositReturn;
      GameOver.loserPayout := depositReturn;
      GameOver.platformCut := platformCut;
      GameOver.whiteAddress := Player.address (Game.white g5);
      GameOver.blackAddress := Player.address (Game.black g5) |}, m1).

(** *** attemptMove *)

(** The capture branch: the ledger entry of a captured piece, with
    [Math.ceil (baseSats * (PIECE_CAPTURE_PERCENT[capturedPiece] / 100))] and
    [Math.ceil (amountSats * PLATFORM_CUT_PERCENT / 100)] as ceiling
    divisions: the numbers the doubles give for a base value below 2^47
    units. *)
Definition capturePaymentFor (g : game) (slot : PlayerSlot)
    (capturedPiece : ChessPieceType) : CapturePayment.t :=
  let victimSlot := opponentSlot slot in
  let capturerSlot := slot in
  let amountSats :=
    ceil_div (Game.baseSats g * PIECE_CAPTURE_PERCENT capturedPiece) 100 in
  let platformSats := ceil_div (amountSats * PLATFORM_CUT_PERCENT) 100 in
  let capturerSats := amountSats - platformSats in
  {| CapturePayment.fromSlot := victimSlot;
     CapturePayment.toSlot := capturerSlot;
     CapturePayment.piece := capturedPiece;
     CapturePayment.amountSats := amountSats;
     CapturePayment.capturerSats := capturerSats;
     CapturePayment.platformSats := platformSats;
     CapturePayment.paid := false;
     CapturePayment.txid := None |}.

Definition captureInfoOf (cp : CapturePayment.t) : CaptureInfo.t :=
  {| CaptureInfo.victimSlot := CapturePayment.fromSlot cp;
     CaptureInfo.capturerSlot := CapturePayment.toSlot cp;
     CaptureInfo.piece := CapturePayment.piece cp;
     CaptureInfo.amountSats := CapturePayment.amountSats cp;
     CaptureInfo.capturerSats := CapturePayment.capturerSats cp;
     CaptureInfo.platformSats := CapturePayment.platformSats cp |}.

(** [promotion || undefined]. *)
Definition promotionArg (promotion : option string) : option string :=
  match promotion with
  | Some s => if decide (s = "") then None else Some s
  | None => None
  end.

Definition moveOver (moveRecord : MoveRecord.t) (fen : string)
    (capturePayment : option CaptureInfo.t) (result : GameOver.t)
    (isCheckmate isStalemate isDraw : option bool) (drawReason : option string)
    : MoveResult.t :=
  {| MoveResult.success := true; MoveResult.error := None;
     MoveResult.san := Some (MoveRecord.san moveRecord);
     MoveResult.fen := Some fen;
     MoveResult.move := Some moveRecord;
     MoveResult.capturePayment := capturePayment;
     MoveResult.isCheck := None;
     MoveResult.isCheckmate := isCheckmate;
     MoveResult.isStalemate := isStalemate;
     MoveResult.isDraw := isDraw;
     MoveResult.drawReason := drawReason;
     MoveResult.gameOver := Some true;
     MoveResult.gameOverResult := Some result |}.

Definition attemptMove (socketId from to : string) (promotion : option string)
    (escrowAddress : option string) (now : Z) (m : manager)
    : MoveResult.t * manager :=
  match getGameBySocket socketId m with
  | None => (MoveResult.failure "Not in a game", m)
  | Some g =>
  if decide (Game.phase g ≠ playing) then (MoveResult.failure "Game not active", m)
  else
  match getSlot g socketId with
  | None => (MoveResult.failure "Not a player", m)
  | Some slot =>
  if decide (slot ≠ currentTurn g) then (MoveResult.failure "Not your turn", m)
  else
  match chess_move (Game.chess g) from to (promotionArg promotion) with
  | None => (MoveResult.failure "Illegal move", m)
  | Some (move, position) =>
      let g1 := Game.set_chess position g in
      let g2 :=
        set_player slot
          (Player.set_moveCount (Player.moveCount (player g1 slot) + 1)
                                (player g1 slot)) g1 in
      let moveRecord :=
        {| MoveRecord.san := ChessMove.san move;
           MoveRecord.from := ChessMove.from move;
           MoveRecord.to := ChessMove.to move;
           MoveRecord.color := ChessMove.color move |} in
      let g3 := Game.set_moveHistory (Game.moveHistory g2 ++ [moveRecord]) g2 in
      let '(capturePayment, g4) :=
        match ChessMove.captured move with
        | Some capturedPiece =>
            let cp := capturePaymentFor g3 slot capturedPiece in
            let g3a :=
              Game.set_capturePayments (Game.capturePayments g3 ++ [cp]) g3 in
            let g3b :=
              Game.set_pot (Game.pot g3a + CapturePayment.amountSats cp) g3a in
            (Some (captureInfoOf cp), g3b)
        | None => (None, g3)
        end in
      let fen := chess_fen (Game.chess g4) in
      if chess_isCheckmate (Game.chess g4) then
        let '(result, m1) := endGame g4 slot checkmate now m in
        (moveOver moveRecord fen capturePayment result (Some true) None None None, m1)
      else if chess_isStalemate (Game.chess g4) then
        let '(result, m1) := endGameDraw g4 stalemate now m in
        (moveOver moveRecord fen capturePayment result None (Some true) (Some true) None,
         m1)
      else if chess_isThreefoldRepetition (Game.chess g4) then
        let '(result, m1) := endGameDraw g4 threefold_repetition now m in
        (moveOver moveRecord fen capturePayment result None None (Some true)
                  (Some "threefold_repetition"), m1)
      else if chess_isInsufficientMaterial (Game.chess g4) then
        let '(result, m1) := endGameDraw g4 insufficient_material now m in
        (moveOver moveRecord fen capturePayment result None None (Some true)
                  (Some "insufficient_material"), m1)
      else if chess_isDraw (Game.chess g4) then
        let '(result, m1) := endGameDraw g4 fifty_move_rule now m in
        (moveOver moveRecord fen capturePayment result None None (Some true)
                  (Some "fifty_move_rule"), m1)
      else
        let g5 := Game.set_turnStartedAt now g4 in
        ({| MoveResult.success := true; MoveResult.error := None;
            MoveResult.san := Some (MoveRecord.san moveRecord);
            MoveResult.fen := Some fen;
            MoveResult.move := Some moveRecord;
            MoveResult.capturePayment := capturePayment;
            MoveResult.isCheck := Some (chess_isCheck (Game.chess g5));
            MoveResult.isCheckmate := None;
            MoveResult.isStalemate := None;
            MoveResult.isDraw := None;
            MoveResult.drawReason := None;
            MoveResult.gameOver := Some false;
            MoveResult.gameOverResult := None |},
         startTurnTimer g5 (store g5 m))
  end
  end
  end.

(** *** Draw offer and resignation *)

Definition offerDraw (socketId : string) (m : manager) : DrawOffer.t * manager :=
  let inactive :=
    {| DrawOffer.success := false; DrawOffer.opponentSocketId := None;
       DrawOffer.error := Some "Game not active" |} in
  match getGameBySocket socketId m with
  | None => (inactive, m)
  | Some g =>
      if decide (Game.phase g ≠ playing) then (inactive, m)
      else
        match getSlot g socketId with
        | None =>
            ({| DrawOffer.success := false; DrawOffer.opponentSocketId := None;
                DrawOffer.error := Some "Not a player" |}, m)
        | Some slot =>
            let oppSlot := opponentSlot slot in
            ({| DrawOffer.success := true;
                DrawOffer.opponentSocketId := Some (Player.socketId (player g oppSlot));
                DrawOffer.error := None |}, m)
        end
  end.

Definition acceptDraw (socketId : string) (now : Z) (m : manager)
    : DrawAccept.t * manager :=
  let inactive :=
    {| DrawAccept.success := false; DrawAccept.result := None;
       DrawAccept.error := Some "Game not active" |} in
  match getGameBySocket socketId m with
  | None => (inactive, m)
  | Some g =>
      if decide (Game.phase g ≠ playing) then (inactive, m)
      else
        let '(result, m1) := endGameDraw g draw_agreement now m in
        ({| DrawAccept.success := true; DrawAccept.result := Some result;
            DrawAccept.error := None |}, m1)
  end.

Definition resign (socketId : string) (now : Z) (m : manager)
    : option Resignation.t * manager :=
  match getGameBySocket socketId m with
  | None => (None, m)
  | Some g =>
      if decide (Game.phase g = gameover) then (None, m)
      else
        match getSlot g socketId with
        | None => (None, m)
        | Some slot =>
            let winner := opponentSlot slot in
            let '(result, m1) := endGame g winner resignation now m in
            (Some {| Resignation.gameId := Game.id g; Resignation.result := result |},
             m1)
        end
  end.

(** *** Pause for funds *)

Definition pauseForFunds (g : game) (forSlot : PlayerSlot) (amountNeeded : Z)
    (reason : string) (now : Z) (m : manager) : manager :=
  let g1 := Game.set_phase paused g in
  let g2 := Game.set_pausedFor (Some forSlot) g1 in
  let g3 := Game.set_pausedAt (Some now) g2 in
  let g4 := Game.set_pauseReason (Some reason) g3 in
  let m1 := clearTurnTimer (Game.id g4) (store g4 m) in
  let '(timer, m2) := setTimeout (PauseExpiry (Game.id g4) forSlot) m1 in
  let m3 := Mgr.set_pauseTimers (<[Game.id g4 := timer]> (Mgr.pauseTimers m2)) m2 in
  emit (OnFundsNeeded (Game.id g4) forSlot amountNeeded) m3.

(** *** Disconnect and reconnect *)

Definition handleDisconnect (socketId : string) (now : Z) (m : manager)
    : option Disconnection.t * manager :=
  match getGameBySocket socketId m with
  | None => (None, m)
  | Some g =>
  if decide (Game.phase g = gameover) then (None, m)
  else
  match getSlot g socketId with
  | None => (None, m)
  | Some slot =>
      let g1 := set_player slot (Player.set_connected false (player g slot)) g in
      let g2 :=
        set_player slot (Player.set_disconnectedAt (Some now) (player g1 slot)) g1 in
      let opponent := opponentSlot slot in
      let m1 := clearTurnTimer (Game.id g2) (store g2 m) in
      if decide (Game.phase g2 = awaiting_wagers) then
        let g3 := Game.set_phase gameover g2 in
        let g4 := Game.set_endedAt (Some now) g3 in
        let g5 := Game.set_endReason (Some disconnect) g4 in
        let m2 := clearDisconnectTimer (Game.id g5) white (store g5 m1) in
        let m3 := clearDisconnectTimer (Game.id g5) black m2 in
        let wagerRefund :=
          if Player.wagerPaid (player g5 opponent) then
            Some {| WagerRefund.address := Player.address (player g5 opponent);
                    WagerRefund.amount := Game.depositSats g5 |}
          else None in
        let result :=
          {| GameOver.winner := None; GameOver.loser := None;
             GameOver.reason := disconnect;
             GameOver.pot := 0; GameOver.winnerPayout := 0;
             GameOver.loserPayout := 0; GameOver.platformCut := 0;
             GameOver.whiteAddress := Player.address (Game.white g5);
             GameOver.blackAddress := Player.address (Game.black g5) |} in
        (Some {| Disconnection.gameId := Game.id g5; Disconnection.slot := slot;
                 Disconnection.graceStarted := false;
                 Disconnection.immediateResult := Some result;
                 Disconnection.wagerRefund := wagerRefund |}, m3)
      else
        let timerKey := disconnectKey (Game.id g2) slot in
        let m2 := clearDisconnectTimer (Game.id g2) slot m1 in
        let '(timer, m3) :=
          setTimeout (DisconnectExpiry (Game.id g2) slot opponent) m2 in
        let m4 :=
          Mgr.set_disconnectTimers (<[timerKey := timer]> (Mgr.disconnectTimers m3)) m3 in
        (Some {| Disconnection.gameId := Game.id g2; Disconnection.slot := slot;
                 Disconnection.graceStarted := true;
                 Disconnection.immediateResult := None;
                 Disconnection.wagerRefund := None |}, m4)
  end
  end.

Definition reconnectError (msg : string) : Reconnection.t :=
  {| Reconnection.success := false; Reconnection.game := None;
     Reconnection.slot := None; Reconnection.error := Some msg |}.

Definition handleReconnect (socketId gameId address : string) (now : Z)
    (m : manager) : Reconnection.t * manager :=
  match games_get gameId m with
  | None => (reconnectError "Game not found", m)
  | Some g =>
  if decide (Game.phase g = gameover) then (reconnectError "Game already ended", m)
  else
  let slot :=
    if decide (Player.address (Game.white g) = address) then Some white
    else if decide (Player.address (Game.black g) = address) then Some black
    else None in
  match slot with
  | None => (reconnectError "Not in this game", m)
  | Some slot =>
      let m1 := clearDisconnectTimer gameId slot m in
      let g1 := set_player slot (Player.set_connected true (player g slot)) g in
      let g2 := set_player slot (Player.set_disconnectedAt None (player g1 slot)) g1 in
      let g3 := set_player slot (Player.set_socketId socketId (player g2 slot)) g2 in
      let m2 :=
        Mgr.set_playerToGame (<[socketId := gameId]> (Mgr.playerToGame m1))
                             (store g3 m1) in
      let ok :=
        {| Reconnection.success := true; Reconnection.game := Some (Game.id g3);
           Reconnection.slot := Some slot; Reconnection.error := None |} in
      if decide (Game.phase g3 = playing) then
        let g4 := Game.set_turnStartedAt now g3 in
        (ok, startTurnTimer g4 (store g4 m2))
      else (ok, m2)
  end
  end.

(** *** Timer expiry

    The callbacks handed to [setTimeout] by [startTurnTimer], [pauseForFunds]
    and [handleDisconnect].  The first two close over the game object, the
    third looks the game up in the registry.  Each returns the settlement it
    computed, if any. *)

Definition onTurnExpiry (gameId : string) (now : Z) (m : manager)
    : option GameOver.t * manager :=
  match Mgr.heap m !! gameId with
  | None => (None, m)
  | Some g =>
      if decide (Game.phase g ≠ playing) then (None, m)
      else
        let current := currentTurn g in
        let winner := opponentSlot current in
        let '(result, m1) := endGame g winner timeout now m in
        (Some result, emit (OnTurnTimeout (Game.id g) winner current) m1)
  end.

Definition onPauseExpiry (gameId : string) (forSlot : PlayerSlot) (now : Z)
    (m : manager) : option GameOver.t * manager :=
  match Mgr.heap m !! gameId with
  | None => (None, m)
  | Some g =>
      if decide (Game.phase g ≠ paused) then (None, m)
      else
        let winnerSlot := opponentSlot forSlot in
        let '(result, m1) := endGame g winnerSlot insufficient_funds now m in
        (Some result, emit (OnPauseTimeout (Game.id g) winnerSlot forSlot) m1)
  end.

Definition onDisconnectExpiry (gameId : string) (slot opponent : PlayerSlot)
    (now : Z) (m : manager) : option GameOver.t * manager :=
  match games_get gameId m with
  | None => (None, m)
  | Some g =>
      if decide (Game.phase g = gameover) then (None, m)
      else if negb (Player.connected (player g slot)) then
        let '(result, m1) := endGame g opponent disconnect now m in
        (Some result, emit (OnDisconnectTimeout gameId opponent slot) m1)
      else (None, m)
  end.

Definition onExpiry (task : TimerTask) (now : Z) (m : manager)
    : option GameOver.t * manager :=
  match task with
  | TurnExpiry gameId => onTurnExpiry gameId now m
  | PauseExpiry gameId forSlot => onPauseExpiry gameId forSlot now m
  | DisconnectExpiry gameId slot opponent =>
      onDisconnectExpiry gameId slot opponent now m
  end.

(** The host fires a pending timeout: it leaves the pending set, then its
    callback runs.  A handle that is not pending cannot fire. *)
Definition fireTimeout (t : Timeout) (now : Z) (m : manager)
    : option GameOver.t * manager :=
  match Mgr.pending m !! t with
  | None => (None, m)
  | Some task => onExpiry task now (clearTimeout t m)
  end.

(** *** removeGame *)

Definition unbindSocket (sid id : string) (m : manager) : manager :=
  if decide (Mgr.playerToGame m !! sid = Some id)
  then Mgr.set_playerToGame (delete sid (Mgr.playerToGame m)) m
  else m.

Definition removeGame (id : string) (m : manager) : manager :=
  match games_get id m with
  | None => m
  | Some g =>
      let m1 := unbindSocket (Player.socketId (Game.white g)) id m in
      let m2 := unbindSocket (Player.socketId (Game.black g)) id m1 in
      let m3 := clearGameTimers id m2 in
      Mgr.set_games (Mgr.games m3 ∖ {[id]}) m3
  end.

(** *** Sequences of operations

    The calls the socket layer and the host can make, each with the clock
    reading at the call. *)

Inductive Op :=
  | OpCreateGame (p1Sid p1Addr p1Name p2Sid p2Addr p2Name : string)
      (tierValue : Z) (bsvPrice : float) (gameId : string) (p1IsWhite : bool)
  | OpRequestWager (gameId : string) (slot : PlayerSlot) (escrowAddress : string)
  | OpConfirmWager (gameId : string) (slot : PlayerSlot) (txid : string)
  | OpAttemptMove (socketId from to : string) (promotion : option string)
  | OpOfferDraw (socketId : string)
  | OpAcceptDraw (socketId : string)
  | OpResign (socketId : string)
  | OpEndGame (gameId : string) (winner : PlayerSlot) (reason : GameEndReason)
  | OpEndGameDraw (gameId : string) (reason : GameEndReason)
  | OpPauseForFunds (gameId : string) (forSlot : PlayerSlot) (amountNeeded : Z)
      (reason : string)
  | OpDisconnect (socketId : string)
  | OpReconnect (socketId gameId address : string)
  | OpFire (t : Timeout)
  | OpRemoveGame (gameId : string).

(** A method that takes the game object is called on an object of the heap. *)
Definition withGame (gameId : string) (f : game -> manager -> manager)
    (m : manager) : manager :=
  match Mgr.heap m !! gameId with
  | Some g => f g m
  | None => m
  end.

Definition step (op : Op) (now : Z) (m : manager) : manager :=
  match op with
  | OpCreateGame p1Sid p1Addr p1Name p2Sid p2Addr p2Name tierValue bsvPrice gameId
                 p1IsWhite =>
      match createGame p1Sid p1Addr p1Name p2Sid p2Addr p2Name tierValue bsvPrice
                       gameId p1IsWhite now m with
      | CreateOk _ m1 => m1
      | _ => m
      end
  | OpRequestWager gameId slot escrowAddress =>
      snd (requestWagerPayment gameId slot escrowAddress m)
  | OpConfirmWager gameId slot txid => snd (confirmWagerPayment gameId slot txid now m)
  | OpAttemptMove socketId from to promotion =>
      snd (attemptMove socketId from to promotion None now m)
  | OpOfferDraw socketId => snd (offerDraw socketId m)
  | OpAcceptDraw socketId => snd (acceptDraw socketId now m)
  | OpResign socketId => snd (resign socketId now m)
  | OpEndGame gameId winner reason =>
      withGame gameId (fun g m => snd (endGame g winner reason now m)) m
  | OpEndGameDraw gameId reason =>
      withGame gameId (fun g m => snd (endGameDraw g reason now m)) m
  | OpPauseForFunds gameId forSlot amountNeeded reason =>
      withGame gameId (fun g m => pauseForFunds g forSlot amountNeeded reason now m) m
  | OpDisconnect socketId => snd (handleDisconnect socketId now m)
  | OpReconnect socketId gameId address =>
      snd (handleReconnect socketId gameId address now m)
  | OpFire t => snd (fireTimeout t now m)
  | OpRemoveGame gameId => removeGame gameId m
  end.

Fixpoint run (ops : list (Op * Z)) (m : manager) : manager :=
  match ops with
  | [] => m
  | (op, now) :: rest => run rest (step op now m)
  end.

(** The pot of a game object, and its phase. *)
Definition potOf (gameId : string) (m : manager) : option Z :=
  Game.pot <$> Mgr.heap m !! gameId.

Definition phaseOf (gameId : string) (m : manager) : option GamePhase :=
  Game.phase <$> Mgr.heap m !! gameId.

End Manager.

(** ** A scripted position engine

    A stand-in for chess.js used to run the manager on concrete games: the
    position is the list of moves still to be played, each with the terminal
    status the engine would report after it. *)

Module Scripted.

Inductive Status := Open | Mate | Stale.

Record Position := mk {
  ply : nat;
  status : Status;
  script : list (ChessMove.t * Status);
}.

Definition start (s : list (ChessMove.t * Status)) : Position :=
  {| ply := 0; status := Open; script := s |}.

Definition turn (pos : Position) : ChessColor.t :=
  if Nat.even (ply pos) then ChessColor.w else ChessColor.b.

Definition move (pos : Position) (from to : string) (promotion : option string)
    : option (ChessMove.t * Position) :=
  match script pos with
  | (mv, st) :: rest =>
      if decide (ChessMove.from mv = from ∧ ChessMove.to mv = to)
      then Some (mv, {| ply := S (ply pos); status := st; script := rest |})
      else None
  | [] => None
  end.

Definition engine (s : list (ChessMove.t * Status)) : ChessEngine Position :=
  {| new_Chess := start s;
     chess_turn := turn;
     chess_move := move;
     chess_isCheckmate := fun pos => match status pos with Mate => true | _ => false end;
     chess_isStalemate := fun pos => match status pos with Stale => true | _ => false end;
     chess_isThreefoldRepetition := fun _ => false;
     chess_isInsufficientMaterial := fun _ => false;
     chess_isDraw := fun pos => match status pos with Stale => true | _ => false end;
     chess_isCheck := fun pos => match status pos with Mate => true | _ => false end;
     chess_fen := fun pos => "" |}.

End Scripted.

(** ** Concrete games *)

Module Scenario.

Definition mv (san from to : string) (color : ChessColor.t)
    (captured : option ChessPieceType) : ChessMove.t :=
  {| ChessMove.san := san; ChessMove.from := from; ChessMove.to := to;
     ChessMove.color := color; ChessMove.captured := captured |}.

(** 1. e4 d5 2. exd5 Qxd5: each side takes a pawn. *)
Definition opening : list (ChessMove.t * Scripted.Status) := [
  (mv "e4" "e2" "e4" ChessColor.w None, Scripted.Open);
  (mv "d5" "d7" "d5" ChessColor.b None, Scripted.Open);
  (mv "exd5" "e4" "d5" ChessColor.w (Some Piece.p), Scripted.Open);
  (mv "Qxd5" "d8" "d5" ChessColor.b (Some Piece.p), Scripted.Open)
].

#[global] Instance engine : ChessEngine Scripted.Position := Scripted.engine opening.

(** A Dollar-tier game at 50 USD per coin: "s1" plays white, "s2" black. *)
Definition created : Mgr.t Scripted.Position :=
  step (OpCreateGame "s1" "1Alice" "alice" "s2" "1Bob" "bob" 100 50 "g1" true) 0
       empty_manager.

Definition started : Mgr.t Scripted.Position :=
  run [(OpConfirmWager "g1" white "tx1", 1); (OpConfirmWager "g1" black "tx2", 2)]
      created.

Definition afterCaptures : Mgr.t Scripted.Position :=
  run [(OpAttemptMove "s1" "e2" "e4" None, 3);
       (OpAttemptMove "s2" "d7" "d5" None, 4);
       (OpAttemptMove "s1" "e4" "d5" None, 5);
       (OpAttemptMove "s2" "d8" "d5" None, 6)] started.

(** The game object "g1" of a manager (a fresh game when there is none). *)
Definition fresh : Game.t Scripted.Position :=
  {| Game.id := "g1"; Game.phase := awaiting_wagers;
     Game.tier := {| tier := 100; name := "Dollar"; depositCents := 100; baseCents := 100 |};
     Game.depositSats := 2000000; Game.baseSats := 2000000;
     Game.bsvPriceAtStart := 50%float; Game.chess := new_Chess;
     Game.white := mkPlayer "s1" "1Alice" "alice" white;
     Game.black := mkPlayer "s2" "1Bob" "bob" black;
     Game.pot := 0; Game.pendingPayment := None; Game.capturePayments := [];
     Game.pausedFor := None; Game.pausedAt := None; Game.pauseReason := None;
     Game.createdAt := 0; Game.startedAt := None; Game.endedAt := None;
     Game.endReason := None; Game.winner := None; Game.turnStartedAt := 0;
     Game.moveHistory := [] |}.

Definition gameIn (m : Mgr.t Scripted.Position) : Game.t Scripted.Position :=
  default fresh (Mgr.heap m !! "g1").

(** Black resigns after the two captures. *)
Definition blackResigns : option Resignation.t * Mgr.t Scripted.Position :=
  resign "s2" 9 afterCaptures.

Definition settlement : option GameOver.t := Resignation.result <$> fst blackResigns.

(** A Penny-tier game at 10 USD per coin, whose base value is 100000 units,
    up to the position in which white can take the pawn on d5. *)
Definition pennyBeforeCapture : Mgr.t Scripted.Position :=
  run [(OpCreateGame "s1" "1Alice" "alice" "s2" "1Bob" "bob" 1 10 "g1" true, 0);
       (OpConfirmWager "g1" white "tx1", 1);
       (OpConfirmWager "g1" black "tx2", 2);
       (OpAttemptMove "s1" "e2" "e4" None, 3);
       (OpAttemptMove "s2" "d7" "d5" None, 4)] empty_manager.

(** White's deposit is confirmed twice. *)
Definition whitePaidTwice : Mgr.t Scripted.Position :=
  run [(OpConfirmWager "g1" white "tx1", 1); (OpConfirmWager "g1" white "tx1", 2)]
      created.

(** Black pays and then drops out while white's deposit is still being
    verified: the game is over when white's confirmation arrives. *)
Definition abandoned : Mgr.t Scripted.Position :=
  run [(OpConfirmWager "g1" black "tx2", 1); (OpDisconnect "s2", 2)] created.

Definition lateConfirm : ConfirmResult.t * Mgr.t Scripted.Position :=
  confirmWagerPayment "g1" white "tx1" 3 abandoned.

(** The started game is paused for funds twice. *)
Definition pausedOnce : Mgr.t Scripted.Position :=
  step (OpPauseForFunds "g1" white 400000 "capture") 3 started.

Definition pausedTwice : Mgr.t Scripted.Position :=
  step (OpPauseForFunds "g1" white 400000 "capture") 4 pausedOnce.

End Scenario.

(** ** Vocabulary of the specification *)

(** The game a timer callback closes over. *)
Definition taskGame (task : TimerTask) : string :=
  match task with
  | TurnExpiry gameId => gameId
  | PauseExpiry gameId _ => gameId
  | DisconnectExpiry gameId _ _ => gameId
  end.

(** Summation over a ledger, as the specification's "sum of ... across". *)
Definition sumZ {A : Type} (f : A -> Z) (l : list A) : Z :=
  foldr (fun x acc => f x + acc) 0 l.

(** The capture-ledger entries where a seat was the capturer. *)
Definition capturedBy (seat : PlayerSlot) (ledger : list CapturePayment.t)
    : list CapturePayment.t :=
  List.filter (fun cp => bool_decide (CapturePayment.toSlot cp = seat)) ledger.

(** A ledger entry splits its amount into the capturer's and the platform's
    share. *)
Definition wellSplit (cp : CapturePayment.t) : Prop :=
  CapturePayment.capturerSats cp + CapturePayment.platformSats cp
  = CapturePayment.amountSats cp.

(** A full initial army: king, queen, two rooks, two bishops, two knights and
    eight pawns. *)
Definition initialArmy : list ChessPieceType :=
  [Piece.k; Piece.q; Piece.r; Piece.r; Piece.b; Piece.b; Piece.n; Piece.n]
  ++ repeat Piece.p 8.

(** The pieces of the army that can be captured (all but the king). *)
Definition capturableArmy : list ChessPieceType :=
  List.filter (fun piece => bool_decide (piece ≠ Piece.k)) initialArmy.

(** The ledger entry of a capture, by the formulas of the specification. *)
Definition captureEntry (baseAmount : Z) (capturer : PlayerSlot)
    (kind : ChessPieceType) : CapturePayment.t :=
  let amount := ceil_div (baseAmount * PIECE_CAPTURE_PERCENT kind) 100 in
  let platform := ceil_div (amount * PLATFORM_CUT_PERCENT) 100 in
  {| CapturePayment.fromSlot := opponentSlot capturer;
     CapturePayment.toSlot := capturer;
     CapturePayment.piece := kind;
     CapturePayment.amountSats := amount;
     CapturePayment.capturerSats := amount - platform;
     CapturePayment.platformSats := platform;
     CapturePayment.paid := false;
     CapturePayment.txid := None |}.

(** The requirement of the specification, in thousandths of a cent: deposit
    plus base times the percentages of a full initial army over 100, times
    1.1. *)
Definition requiredMilliCents (t : StakeTierDef) : Z :=
  (100 * depositCents t + baseCents t * sumZ PIECE_CAPTURE_PERCENT initialArmy) * 11.

Section Outcomes.
Context {Position : Type} `{!ChessEngine Position}.

(** What a capturing move leaves behind: the mover's game gains one ledger
    entry, computed by the formulas of the specification, and its pot grows
    by the entry's total amount. *)
Definition capturePaid (socketId from to : string) (promotion : option string)
    (m m' : Mgr.t Position) : Prop :=
  ∃ g slot move position,
    getGameBySocket socketId m = Some g
    ∧ Game.phase g = playing
    ∧ getSlot g socketId = Some slot
    ∧ chess_move (Game.chess g) from to (promotionArg promotion) = Some (move, position)
    ∧ ∀ kind, ChessMove.captured move = Some kind ->
        let entry := captureEntry (Game.baseSats g) slot kind in
        ∃ g',
          Mgr.heap m' !! Game.id g = Some g'
          ∧ Game.capturePayments g' = Game.capturePayments g ++ [entry]
          ∧ Game.pot g' = Game.pot g + CapturePayment.amountSats entry.

End Outcomes.

(** ** The share formulas on doubles

    The formulas of [attemptMove], [endGame] and [endGameDraw] as the source
    evaluates them, on binary64.  They are compared with the integer model:
    at every amount below 2^47 they give the same whole numbers. *)

Module Double.

Definition captureAmount (baseSats : Z) (piece : ChessPieceType) : float :=
  Js.Math_ceil (Js.num baseSats * (Js.num (PIECE_CAPTURE_PERCENT piece) / 100))%float.

Definition platformShare (amountSats : Z) : float :=
  Js.Math_ceil (Js.num amountSats * Js.num PLATFORM_CUT_PERCENT / 100)%float.

Definition depositReturn (depositSats : Z) : float :=
  Js.Math_floor (Js.num depositSats * (1 - Js.num PLATFORM_CUT_PERCENT / 100))%float.

Definition holds (x : float) (z : Z) : bool := bool_decide (Js.to_Z x = Some z).

(** The three formulas agree with the integer model at an amount. *)
Definition agrees (sats : Z) : bool :=
  forallb (fun piece =>
             holds (captureAmount sats piece)
                   (ceil_div (sats * PIECE_CAPTURE_PERCENT piece) 100))
          [Piece.k; Piece.q; Piece.r; Piece.b; Piece.n; Piece.p]
  && holds (platformShare sats) (ceil_div (sats * PLATFORM_CUT_PERCENT) 100)
  && holds (depositReturn sats) (sats * (100 - PLATFORM_CUT_PERCENT) / 100).

(** Small amounts, the amounts of the tiers at some prices, and amounts up
    to 2^47 units. *)
Definition samples : list Z :=
  map Z.of_nat (seq 0 500)
  ++ [20000; 100000; 200000; 400000; 2000000; 4000000; 50000000; 100000000;
      123456789; 1000000000; 99999999999; 100000000000000; 2 ^ 46 + 1; 2 ^ 47 - 1].

End Double.

(** Where a mantissa that is being shifted right stands.  The exact value
    is [M / W] and [q] is its integer part; the record [mrs] holds [q] with
    its last [n] binary places cut off, and its round bit and sticky bit say
    where [M / W] lies between that number and the next at the scale
    [2 ^ n]. *)
Definition located (q M W n : Z) (mrs : shr_record) : Prop :=
  0 <= shr_m mrs
  ∧ shr_m mrs * 2 ^ n <= q < (shr_m mrs + 1) * 2 ^ n
  ∧ ∃ t, 2 * (M - shr_m mrs * (W * 2 ^ n)) = (if shr_r mrs then W * 2 ^ n else 0) + t
         ∧ 0 <= t < W * 2 ^ n
         ∧ (shr_s mrs = true ↔ 0 < t).

(** ** Invariants of the timer bookkeeping *)

Section Invariants.
Context {Position : Type}.
Implicit Types (m : Mgr.t Position).

(** A pending turn-clock timeout is the one on record for its game. *)
Definition turnTracked m : Prop :=
  ∀ t id, Mgr.pending m !! t = Some (TurnExpiry id) -> Mgr.turnTimers m !! id = Some t.

(** A pending grace-clock timeout is the one on record for its game and
    seat. *)
Definition graceTracked m : Prop :=
  ∀ t id slot opponent,
    Mgr.pending m !! t = Some (DisconnectExpiry id slot opponent) ->
    Mgr.disconnectTimers m !! disconnectKey id slot = Some t.

(** The same for the funds-pause clock. *)
Definition pauseTracked m : Prop :=
  ∀ t id forSlot,
    Mgr.pending m !! t = Some (PauseExpiry id forSlot) ->
    Mgr.pauseTimers m !! id = Some t.

(** The host has not handed out the next handle yet. *)
Definition handlesFresh m : Prop :=
  ∀ t, is_Some (Mgr.pending m !! t) -> (t < Mgr.nextTimeout m)%nat.

Definition clocksTracked m : Prop :=
  turnTracked m ∧ graceTracked m ∧ handlesFresh m.

(** An operation other than [createGame]. *)
Definition notCreate (op : Op) : Prop :=
  match op with
  | OpCreateGame _ _ _ _ _ _ _ _ _ _ => False
  | _ => True
  end.

(** An operation other than [confirmWagerPayment]. *)
Definition notConfirm (op : Op) : Prop :=
  match op with
  | OpConfirmWager _ _ _ => False
  | _ => True
  end.

(** An operation other than [pauseForFunds]. *)
Definition notPause (op : Op) : Prop :=
  match op with
  | OpPauseForFunds _ _ _ _ => False
  | _ => True
  end.

(** The game objects are stored under their id and hold amounts that are
    not negative. *)
Definition heapSound m : Prop :=
  ∀ id g, Mgr.heap m !! id = Some g ->
          Game.id g = id ∧ 0 <= Game.depositSats g ∧ 0 <= Game.baseSats g.

End Invariants.

(** ** How the pot moves *)

Section PotRelations.
Context {Position : Type}.
Implicit Types (g : Game.t Position) (m : Mgr.t Position).

(** The identity and the amounts of a game that no operation changes. *)
Definition sameStakes g g' : Prop :=
  Game.id g' = Game.id g
  ∧ Game.depositSats g' = Game.depositSats g
  ∧ Game.baseSats g' = Game.baseSats g.

(** A manager differs from another in at most one game object, which went
    from [g] to [g'] with [change g g']. *)
Definition touches (change : Game.t Position -> Game.t Position -> Prop) m m' : Prop :=
  Mgr.heap m' = Mgr.heap m
  ∨ ∃ g g', Mgr.heap m !! Game.id g = Some g
            ∧ Mgr.heap m' = <[Game.id g := g']> (Mgr.heap m)
            ∧ change g g'.

(** What no operation does to a game: change its tier, rewrite or drop an
    entry of the ledger or of the move history, change the address, name or
    colour of a seat, take back a confirmed deposit, or lower a move
    count. *)
Definition gameKeeps g g' : Prop :=
  Game.tier g' = Game.tier g
  ∧ Game.capturePayments g `prefix_of` Game.capturePayments g'
  ∧ Game.moveHistory g `prefix_of` Game.moveHistory g'
  ∧ ∀ slot,
      Player.address (player g' slot) = Player.address (player g slot)
      ∧ Player.username (player g' slot) = Player.username (player g slot)
      ∧ Player.color (player g' slot) = Player.color (player g slot)
      ∧ (Player.wagerPaid (player g slot) = true ->
         Player.wagerPaid (player g' slot) = true)
      ∧ Player.moveCount (player g slot) <= Player.moveCount (player g' slot).

(** What an operation may do to a game: never lower its pot, leave the pot
    alone once the game is over unless the operation is
    [confirmWagerPayment], never take the game back to the deposit phase,
    and add only entries to the ledger that split their amount.  Only
    [confirmWagerPayment] puts a game into play or changes the pot of a game
    that is not in play, and only it and [pauseForFunds] take a game out of
    phase gameover. *)
Definition gameMove (op : Op) g g' : Prop :=
  sameStakes g g'
  ∧ Game.pot g <= Game.pot g'
  ∧ (notConfirm op -> Game.phase g = gameover -> Game.pot g' = Game.pot g)
  ∧ (Game.phase g' = awaiting_wagers -> Game.phase g = awaiting_wagers)
  ∧ (Forall wellSplit (Game.capturePayments g) ->
     Forall wellSplit (Game.capturePayments g'))
  ∧ gameKeeps g g'
  ∧ (notConfirm op -> Game.phase g ≠ playing ->
     Game.pot g' = Game.pot g ∧ Game.phase g' ≠ playing)
  ∧ (notConfirm op -> notPause op -> Game.phase g = gameover ->
     Game.phase g' = gameover).

End PotRelations.


(** ** ChessGameManager.ts: the state sent to a client *)

(** The object built by [getClientState]; its nested [opponent] object is
    flattened into two fields. *)
Module ClientState.
Record t := mk {
  gameId : string;
  phase : GamePhase;
  fen : string;
  turn : PlayerSlot;
  myColor : PlayerSlot;
  opponent_username : string;
  opponent_address : string;
  pot : Z;
  depositSats : Z;
  baseSats : Z;
  myWagerPaid : bool;
  opponentWagerPaid : bool;
  moveHistory : list MoveRecord.t;
  isCheck : bool;
  pendingPayment : option WagerRequest.t;
}.
End ClientState.

Section ClientView.
Context {Position : Type} `{!ChessEngine Position}.

Definition getClientState (g : Game.t Position) (forSlot : PlayerSlot)
    : ClientState.t :=
  {| ClientState.gameId := Game.id g;
     ClientState.phase := Game.phase g;
     ClientState.fen := chess_fen (Game.chess g);
     ClientState.turn := currentTurn g;
     ClientState.myColor := forSlot;
     ClientState.opponent_username := Player.username (player g (opponentSlot forSlot));
     ClientState.opponent_address := Player.address (player g (opponentSlot forSlot));
     ClientState.pot := Game.pot g;
     ClientState.depositSats := Game.depositSats g;
     ClientState.baseSats := Game.baseSats g;
     ClientState.myWagerPaid := Player.wagerPaid (player g forSlot);
     ClientState.opponentWagerPaid := Player.wagerPaid (player g (opponentSlot forSlot));
     ClientState.moveHistory := Game.moveHistory g;
     ClientState.isCheck := chess_isCheck (Game.chess g);
     ClientState.pendingPayment :=
       match Game.pendingPayment g with
       | Some pp =>
           if decide (PendingPayment.fromSlot pp = forSlot)
           then Some {| WagerRequest.amount := PendingPayment.amount pp;
                        WagerRequest.toAddress := PendingPayment.toAddress pp |}
           else None
       | None => None
       end |}.

End ClientView.

(** ** SocketHandler.ts: what the socket layer does with the manager

    The handlers talk to sockets, the database and the chain.  Modelled here
    are the parts that act on the manager or decide a settlement: the three
    timeout callbacks installed in the manager, the escrow call and the
    payouts announced by [handleGameEnd], the resumption in [funds_added],
    and [submit_wager] when nothing runs between its checks and its
    confirmation.  The rate limiter is taken to let the event through. *)

(** The arguments of [escrowManager.settle]. *)
Module SettleCall.
Record t := mk {
  gameId : string;
  toAddress : string;
  amount : Z;
  platformAmount : Z;
}.
End SettleCall.

Module Socket.

Inductive WagerOutcome :=
  | WagerRejected (error : string)
  | WagerUnverified
  | WagerConfirmed (confirm : ConfirmResult.t).

Section handlers.
Context {Position : Type} `{!ChessEngine Position}.

(** [handleGameEnd]: the call to [escrowManager.settle], if any. *)
Definition settlement (gameId : string) (result : GameOver.t) : option SettleCall.t :=
  match GameOver.winner result with
  | Some winner =>
      let winnerAddr :=
        match winner with
        | white => GameOver.whiteAddress result
        | black => GameOver.blackAddress result
        end in
      if decide (0 < GameOver.pot result
                 ∧ (546 < GameOver.winnerPayout result ∨ 546 < GameOver.platformCut result))
      then Some {| SettleCall.gameId := gameId;
                   SettleCall.toAddress := winnerAddr;
                   SettleCall.amount := GameOver.winnerPayout result;
                   SettleCall.platformAmount := GameOver.platformCut result |}
      else None
  | None =>
      if decide (0 < GameOver.pot result ∧ 546 < GameOver.winnerPayout result)
      then Some {| SettleCall.gameId := gameId;
                   SettleCall.toAddress := GameOver.whiteAddress result;
                   SettleCall.amount := GameOver.winnerPayout result;
                   SettleCall.platformAmount :=
                     GameOver.platformCut result + GameOver.loserPayout result |}
      else None
  end.

(** [handleGameEnd]: the [payout] field of the [game_over] event sent to a
    seat. *)
Definition payoutShown (result : GameOver.t) (slot : PlayerSlot) : Z :=
  match GameOver.winner result with
  | Some winner =>
      if decide (slot = winner) then GameOver.winnerPayout result else 0
  | None =>
      match slot with
      | white => GameOver.winnerPayout result
      | black => GameOver.loserPayout result
      end
  end.

(** The timeout callbacks.  Each returns the result it hands to
    [handleGameEnd], if it gets that far. *)
Definition onTurnTimeout (gameId : string) (winnerSlot loserSlot : PlayerSlot)
    (now : Z) (m : Mgr.t Position) : option GameOver.t * Mgr.t Position :=
  match getGame gameId m with
  | None => (None, m)
  | Some g =>
      let '(result, m1) := endGame g winnerSlot timeout now m in
      (Some result, m1)
  end.

Definition onPauseTimeout (gameId : string) (winnerSlot loserSlot : PlayerSlot)
    (now : Z) (m : Mgr.t Position) : option GameOver.t * Mgr.t Position :=
  match getGame gameId m with
  | None => (None, m)
  | Some g =>
      let '(result, m1) := endGame g winnerSlot insufficient_funds now m in
      (Some result, m1)
  end.

Definition onDisconnectTimeout (gameId : string) (winnerSlot loserSlot : PlayerSlot)
    (now : Z) (m : Mgr.t Position) : option GameOver.t * Mgr.t Position :=
  match getGame gameId m with
  | None => (None, m)
  | Some g =>
      if decide (Game.phase g = gameover) then (None, m)
      else
        let '(result, m1) := endGame g winnerSlot disconnect now m in
        (Some result, m1)
  end.

(** A call recorded by the manager reaches the handler installed for it;
    the handler of [onFundsNeeded] only sends messages. *)
Definition deliver (n : Notification) (now : Z) (m : Mgr.t Position)
    : option GameOver.t * Mgr.t Position :=
  match n with
  | OnTurnTimeout gameId winner loser => onTurnTimeout gameId winner loser now m
  | OnPauseTimeout gameId winner loser => onPauseTimeout gameId winner loser now m
  | OnFundsNeeded _ _ _ => (None, m)
  | OnDisconnectTimeout gameId winner loser =>
      onDisconnectTimeout gameId winner loser now m
  end.


(** [submit_wager], with the outcome of the awaited verification as an
    input ([Some txid] when the transaction was verified), run without
    anything in between its checks and its confirmation. *)
Definition submit_wager (socketId : string) (verified : option string) (now : Z)
    (m : Mgr.t Position) : WagerOutcome * Mgr.t Position :=
  match getGameBySocket socketId m with
  | None => (WagerRejected "No game awaiting wager", m)
  | Some g =>
      if decide (Game.phase g ≠ awaiting_wagers)
      then (WagerRejected "No game awaiting wager", m)
      else
        match getSlot g socketId with
        | None => (WagerRejected "Not a player", m)
        | Some slot =>
            if Player.wagerPaid (player g slot)
            then (WagerRejected "Wager already paid", m)
            else
              match verified with
              | None => (WagerUnverified, m)
              | Some txid =>
                  let '(confirm, m1) :=
                    confirmWagerPayment (Game.id g) slot txid now m in
                  (WagerConfirmed confirm, m1)
              end
        end
  end.

End handlers.
End Socket.

(** ** LobbyManager: online players and direct challenges

    The class that follows the constants in [src/game/Constants.ts].  The
    generated id of a challenge and the clock readings are inputs.  The two
    listings whose order is the insertion order of a [Map],
    [getOnlinePlayers] and [getPendingChallengesFor], are not modelled. *)

Module Lobby.

Inductive PlayerStatus := idle | matchmaking | in_game.

#[global] Instance PlayerStatus_eq_dec : EqDecision PlayerStatus.
Proof. solve_decision. Defined.

Module LobbyPlayer.
Record t := mk {
  socketId : string;
  address : string;
  username : string;
  status : PlayerStatus;
  joinedAt : Z;
  gamesWon : Z;
  gamesPlayed : Z;
}.

Definition set_status (v : PlayerStatus) (x : t) : t :=
  {| socketId := socketId x; address := address x; username := username x;
     status := v; joinedAt := joinedAt x; gamesWon := gamesWon x;
     gamesPlayed := gamesPlayed x |}.
End LobbyPlayer.

Module Challenge.
Record t := mk {
  id : string;
  fromSocketId : string;
  fromAddress : string;
  fromUsername : string;
  toSocketId : string;
  toAddress : string;
  toUsername : string;
  stakeTier : Z;
  createdAt : Z;
  expiresAt : Z;
}.
End Challenge.

Definition CHALLENGE_TIMEOUT_MS : Z := 30000.

(** The result object of [createChallenge], [acceptChallenge] and
    [declineChallenge]. *)
Module Outcome.
Record t := mk {
  success : bool;
  challenge : option Challenge.t;
  error : option string;
}.

Definition failure (msg : string) : t :=
  {| success := false; challenge := None; error := Some msg |}.

Definition ok (ch : Challenge.t) : t :=
  {| success := true; challenge := Some ch; error := None |}.
End Outcome.

(** The lobby.  [pending] and [nextTimeout] are the host's timeout table,
    whose callbacks close over a challenge id; [expired] records the calls
    of [onChallengeExpired]. *)
Record t := mk {
  players : gmap string LobbyPlayer.t;
  addressToSocket : gmap string string;
  challenges : gmap string Challenge.t;
  challengeTimers : gmap string Timeout;
  pending : gmap Timeout string;
  nextTimeout : Timeout;
  expired : list Challenge.t;
}.

Definition set_players (v : gmap string LobbyPlayer.t) (x : t) : t :=
  {| players := v; addressToSocket := addressToSocket x; challenges := challenges x;
     challengeTimers := challengeTimers x; pending := pending x;
     nextTimeout := nextTimeout x; expired := expired x |}.

Definition set_addressToSocket (v : gmap string string) (x : t) : t :=
  {| players := players x; addressToSocket := v; challenges := challenges x;
     challengeTimers := challengeTimers x; pending := pending x;
     nextTimeout := nextTimeout x; expired := expired x |}.

Definition set_challenges (v : gmap string Challenge.t) (x : t) : t :=
  {| players := players x; addressToSocket := addressToSocket x; challenges := v;
     challengeTimers := challengeTimers x; pending := pending x;
     nextTimeout := nextTimeout x; expired := expired x |}.

Definition set_challengeTimers (v : gmap string Timeout) (x : t) : t :=
  {| players := players x; addressToSocket := addressToSocket x;
     challenges := challenges x; challengeTimers := v; pending := pending x;
     nextTimeout := nextTimeout x; expired := expired x |}.

Definition set_pending (v : gmap Timeout string) (x : t) : t :=
  {| players := players x; addressToSocket := addressToSocket x;
     challenges := challenges x; challengeTimers := challengeTimers x; pending := v;
     nextTimeout := nextTimeout x; expired := expired x |}.

Definition set_nextTimeout (v : Timeout) (x : t) : t :=
  {| players := players x; addressToSocket := addressToSocket x;
     challenges := challenges x; challengeTimers := challengeTimers x;
     pending := pending x; nextTimeout := v; expired := expired x |}.

Definition set_expired (v : list Challenge.t) (x : t) : t :=
  {| players := players x; addressToSocket := addressToSocket x;
     challenges := challenges x; challengeTimers := challengeTimers x;
     pending := pending x; nextTimeout := nextTimeout x; expired := v |}.

Definition empty : t :=
  {| players := ∅; addressToSocket := ∅; challenges := ∅; challengeTimers := ∅;
     pending := ∅; nextTimeout := 0%nat; expired := [] |}.

Definition cancelChallenge (challengeId : string) (l : t) : t :=
  let l1 := set_challenges (delete challengeId (challenges l)) l in
  match challengeTimers l1 !! challengeId with
  | Some timer =>
      let l2 := set_pending (delete timer (pending l1)) l1 in
      set_challengeTimers (delete challengeId (challengeTimers l2)) l2
  | None => l1
  end.

(** A loop over the challenges that cancels those meeting a condition.  The
    entries visited are those present when the loop starts, and cancelling
    one does not touch another. *)
Definition cancelEach (cond : Challenge.t -> bool)
    (entries : list (string * Challenge.t)) (l : t) : t :=
  foldr (fun '(challengeId, ch) acc =>
           if cond ch then cancelChallenge challengeId acc else acc)
        l entries.

Definition cancelWhere (cond : Challenge.t -> bool) (l : t) : t :=
  cancelEach cond (map_to_list (challenges l)) l.

Definition involves (socketId : string) (ch : Challenge.t) : bool :=
  bool_decide (Challenge.fromSocketId ch = socketId
               ∨ Challenge.toSocketId ch = socketId).

Definition leave (socketId : string) (l : t) : t :=
  let l1 :=
    match players l !! socketId with
    | Some player =>
        set_addressToSocket (delete (LobbyPlayer.address player) (addressToSocket l)) l
    | None => l
    end in
  let l2 := set_players (delete socketId (players l1)) l1 in
  cancelWhere (involves socketId) l2.

(** [join].  Its first statement, [vacated], makes another connection that
    holds the address leave; an empty socket id read from [addressToSocket]
    is falsy.  [stats?.gamesWon || 0] and [stats?.gamesPlayed || 0] are the
    given counts, or 0. *)
Definition vacated (socketId address : string) (l : t) : t :=
  match addressToSocket l !! address with
  | Some existing =>
      if decide (existing ≠ "" ∧ existing ≠ socketId) then leave existing l else l
  | None => l
  end.

Definition join (socketId address username : string)
    (stats : option (option Z * option Z)) (now : Z) (l : t) : t :=
  let l1 := vacated socketId address l in
  let player :=
    {| LobbyPlayer.socketId := socketId;
       LobbyPlayer.address := address;
       LobbyPlayer.username := username;
       LobbyPlayer.status := idle;
       LobbyPlayer.joinedAt := now;
       LobbyPlayer.gamesWon := default 0 (stats ≫= fst);
       LobbyPlayer.gamesPlayed := default 0 (stats ≫= snd) |} in
  let l2 := set_players (<[socketId := player]> (players l1)) l1 in
  set_addressToSocket (<[address := socketId]> (addressToSocket l2)) l2.

Definition setStatus (socketId : string) (status : PlayerStatus) (l : t) : t :=
  match players l !! socketId with
  | Some player =>
      set_players (<[socketId := LobbyPlayer.set_status status player]> (players l)) l
  | None => l
  end.

Definition setStatusByAddress (address : string) (status : PlayerStatus) (l : t) : t :=
  match addressToSocket l !! address with
  | Some socketId => if decide (socketId = "") then l else setStatus socketId status l
  | None => l
  end.

Definition getPlayer (socketId : string) (l : t) : option LobbyPlayer.t :=
  players l !! socketId.

Definition getPlayerByAddress (address : string) (l : t) : option LobbyPlayer.t :=
  match addressToSocket l !! address with
  | Some socketId => if decide (socketId = "") then None else players l !! socketId
  | None => None
  end.

Definition getOnlineCount (l : t) : nat := size (players l).

Definition isOnline (address : string) (l : t) : bool :=
  bool_decide (is_Some (addressToSocket l !! address)).

(** The challenge that makes a new one from the same sender to the same
    addressee a duplicate. *)
Definition duplicates (fromSocketId fromAddress toSocketId toAddress : string)
    (ch : Challenge.t) : Prop :=
  (Challenge.fromSocketId ch = fromSocketId ∧ Challenge.toAddress ch = toAddress)
  ∨ (Challenge.fromAddress ch = fromAddress ∧ Challenge.toSocketId ch = toSocketId).

#[global] Instance duplicates_dec fromSocketId fromAddress toSocketId toAddress ch :
  Decision (duplicates fromSocketId fromAddress toSocketId toAddress ch).
Proof. unfold duplicates. apply _. Defined.

Definition createChallenge (fromSocketId toAddress : string) (stakeTier : Z)
    (challengeId : string) (createdAt now : Z) (l : t) : Outcome.t * t :=
  match players l !! fromSocketId with
  | None => (Outcome.failure "You are not in the lobby", l)
  | Some from =>
  if decide (LobbyPlayer.status from ≠ idle)
  then (Outcome.failure "You are not available", l)
  else
  match addressToSocket l !! toAddress with
  | None => (Outcome.failure "Player is not online", l)
  | Some toSocketId =>
  if decide (toSocketId = "") then (Outcome.failure "Player is not online", l)
  else
  match players l !! toSocketId with
  | None => (Outcome.failure "Player is not online", l)
  | Some to =>
  if decide (LobbyPlayer.status to ≠ idle)
  then (Outcome.failure (LobbyPlayer.username to +:+ " is busy"), l)
  else if decide (LobbyPlayer.address from = toAddress)
  then (Outcome.failure "Cannot challenge yourself", l)
  else if decide (map_Exists
                    (fun _ ch => duplicates fromSocketId (LobbyPlayer.address from)
                                            toSocketId toAddress ch)
                    (challenges l))
  then (Outcome.failure "Challenge already pending", l)
  else
    let challenge :=
      {| Challenge.id := challengeId;
         Challenge.fromSocketId := fromSocketId;
         Challenge.fromAddress := LobbyPlayer.address from;
         Challenge.fromUsername := LobbyPlayer.username from;
         Challenge.toSocketId := toSocketId;
         Challenge.toAddress := LobbyPlayer.address to;
         Challenge.toUsername := LobbyPlayer.username to;
         Challenge.stakeTier := stakeTier;
         Challenge.createdAt := createdAt;
         Challenge.expiresAt := now + CHALLENGE_TIMEOUT_MS |} in
    let l1 := set_challenges (<[challengeId := challenge]> (challenges l)) l in
    let timer := nextTimeout l1 in
    let l2 :=
      set_nextTimeout (S timer) (set_pending (<[timer := challengeId]> (pending l1)) l1) in
    let l3 := set_challengeTimers (<[challengeId := timer]> (challengeTimers l2)) l2 in
    (Outcome.ok challenge, l3)
  end
  end
  end.

(** The callback of the timeout set by [createChallenge]. *)
Definition onChallengeTimeout (challengeId : string) (l : t) : t :=
  match challenges l !! challengeId with
  | Some ch =>
      let l1 := set_challenges (delete challengeId (challenges l)) l in
      let l2 := set_challengeTimers (delete challengeId (challengeTimers l1)) l1 in
      set_expired (expired l2 ++ [ch]) l2
  | None => l
  end.

Definition fireTimeout (timer : Timeout) (l : t) : t :=
  match pending l !! timer with
  | Some challengeId =>
      onChallengeTimeout challengeId (set_pending (delete timer (pending l)) l)
  | None => l
  end.

Definition available (player : option LobbyPlayer.t) : bool :=
  match player with
  | Some p => bool_decide (LobbyPlayer.status p = idle)
  | None => false
  end.

Definition acceptChallenge (challengeId socketId : string) (l : t) : Outcome.t * t :=
  match challenges l !! challengeId with
  | None => (Outcome.failure "Challenge not found or expired", l)
  | Some challenge =>
      if decide (Challenge.toSocketId challenge ≠ socketId)
      then (Outcome.failure "Not your challenge", l)
      else
        let from := players l !! Challenge.fromSocketId challenge in
        let to := players l !! Challenge.toSocketId challenge in
        if negb (available from)
        then (Outcome.failure "Challenger is no longer available", l)
        else if negb (available to)
        then (Outcome.failure "You are no longer available", l)
        else (Outcome.ok challenge, cancelChallenge challengeId l)
  end.

Definition declineChallenge (challengeId socketId : string) (l : t) : Outcome.t * t :=
  match challenges l !! challengeId with
  | None => (Outcome.failure "Challenge not found", l)
  | Some challenge =>
      if decide (Challenge.toSocketId challenge ≠ socketId)
      then (Outcome.failure "Not your challenge", l)
      else (Outcome.ok challenge, cancelChallenge challengeId l)
  end.

Definition cancelChallengesFrom (socketId : string) (l : t) : t :=
  cancelWhere (fun ch => bool_decide (Challenge.fromSocketId ch = socketId)) l.

(** The calls the socket layer and the host can make. *)
Inductive Op :=
  | OpJoin (socketId address username : string) (stats : option (option Z * option Z))
  | OpLeave (socketId : string)
  | OpSetStatus (socketId : string) (status : PlayerStatus)
  | OpSetStatusByAddress (address : string) (status : PlayerStatus)
  | OpCreateChallenge (fromSocketId toAddress : string) (stakeTier : Z)
      (challengeId : string) (createdAt : Z)
  | OpAcceptChallenge (challengeId socketId : string)
  | OpDeclineChallenge (challengeId socketId : string)
  | OpCancelChallenge (challengeId : string)
  | OpCancelChallengesFrom (socketId : string)
  | OpFire (timer : Timeout).

Definition step (op : Op) (now : Z) (l : t) : t :=
  match op with
  | OpJoin socketId address username stats => join socketId address username stats now l
  | OpLeave socketId => leave socketId l
  | OpSetStatus socketId status => setStatus socketId status l
  | OpSetStatusByAddress address status => setStatusByAddress address status l
  | OpCreateChallenge fromSocketId toAddress stakeTier challengeId createdAt =>
      snd (createChallenge fromSocketId toAddress stakeTier challengeId createdAt now l)
  | OpAcceptChallenge challengeId socketId => snd (acceptChallenge challengeId socketId l)
  | OpDeclineChallenge challengeId socketId => snd (declineChallenge challengeId socketId l)
  | OpCancelChallenge challengeId => cancelChallenge challengeId l
  | OpCancelChallengesFrom socketId => cancelChallengesFrom socketId l
  | OpFire timer => fireTimeout timer l
  end.

Fixpoint run (ops : list (Op * Z)) (l : t) : t :=
  match ops with
  | [] => l
  | (op, now) :: rest => run rest (step op now l)
  end.

(** Socket ids are never empty: a join under the empty id is left out of
    the sequences considered. *)
Definition namedJoin (op : Op) : Prop :=
  match op with
  | OpJoin socketId _ _ _ => socketId ≠ ""
  | _ => True
  end.

(** A generated challenge id is new: it names no challenge of the lobby. *)
Definition freshId (op : Op) (l : t) : Prop :=
  match op with
  | OpCreateChallenge _ _ _ challengeId _ => challenges l !! challengeId = None
  | _ => True
  end.

Fixpoint freshIds (ops : list (Op * Z)) (l : t) : Prop :=
  match ops with
  | [] => True
  | (op, now) :: rest => freshId op l ∧ freshIds rest (step op now l)
  end.

(** Every online player is stored under their socket id, which is not
    empty, and is the one on record for their address. *)
Definition registered (l : t) : Prop :=
  ∀ socketId player,
    players l !! socketId = Some player ->
    socketId ≠ ""
    ∧ LobbyPlayer.socketId player = socketId
    ∧ addressToSocket l !! LobbyPlayer.address player = Some socketId.

(** Both ends of a stored challenge are online, and it is stored under its
    id. *)
Definition endsOnline (l : t) : Prop :=
  ∀ challengeId ch,
    challenges l !! challengeId = Some ch ->
    Challenge.id ch = challengeId
    ∧ is_Some (players l !! Challenge.fromSocketId ch)
    ∧ is_Some (players l !! Challenge.toSocketId ch).

(** The expiry timeouts: a pending one is on record for its challenge, the
    challenge is stored, and a timeout on record is pending. *)
Definition expiryTracked (l : t) : Prop :=
  (∀ timer challengeId,
     pending l !! timer = Some challengeId ->
     challengeTimers l !! challengeId = Some timer)
  ∧ (∀ timer challengeId,
       challengeTimers l !! challengeId = Some timer ->
       pending l !! timer = Some challengeId
       ∧ is_Some (challenges l !! challengeId))
  ∧ (∀ timer, is_Some (pending l !! timer) -> (timer < nextTimeout l)%nat).

End Lobby.

(** ** Further vocabulary *)

Section Vocabulary.
Context {Position : Type} `{!ChessEngine Position}.

(** No turn clock, funds-pause clock or grace clock of a game is on record,
    and no turn-clock or grace-clock timeout of it is pending. *)
Definition clocksStopped (id : string) (m : Mgr.t Position) : Prop :=
  Mgr.turnTimers m !! id = None
  ∧ Mgr.pauseTimers m !! id = None
  ∧ (∀ slot, Mgr.disconnectTimers m !! disconnectKey id slot = None)
  ∧ (∀ t, Mgr.pending m !! t ≠ Some (TurnExpiry id))
  ∧ (∀ t slot opponent, Mgr.pending m !! t ≠ Some (DisconnectExpiry id slot opponent)).

(** The end of the game the engine reports for a position, asked in the
    order of [attemptMove]. *)
Definition verdict (position : Position) : option GameEndReason :=
  if chess_isCheckmate position then Some checkmate
  else if chess_isStalemate position then Some stalemate
  else if chess_isThreefoldRepetition position then Some threefold_repetition
  else if chess_isInsufficientMaterial position then Some insufficient_material
  else if chess_isDraw position then Some fifty_move_rule
  else None.

(** The entry of the move history for a move of the engine. *)
Definition moveRecordOf (move : ChessMove.t) : MoveRecord.t :=
  {| MoveRecord.san := ChessMove.san move;
     MoveRecord.from := ChessMove.from move;
     MoveRecord.to := ChessMove.to move;
     MoveRecord.color := ChessMove.color move |}.

(** The seat an address belongs to, as [handleReconnect] finds it: white's
    when it is white's address, else black's when it is black's. *)
Definition seatByAddress (g : Game.t Position) (address : string) : option PlayerSlot :=
  if decide (Player.address (Game.white g) = address) then Some white
  else if decide (Player.address (Game.black g) = address) then Some black
  else None.

(** The number of seats whose deposit is confirmed. *)
Definition paidSeats (g : Game.t Position) : Z :=
  (if Player.wagerPaid (Game.white g) then 1 else 0)
  + (if Player.wagerPaid (Game.black g) then 1 else 0).

End Vocabulary.

(** ** Further concrete cases *)

Module Cases.

(** The four moves of the opening. *)
Definition moves : list (Op * Z) :=
  [(OpAttemptMove "s1" "e2" "e4" None, 3);
   (OpAttemptMove "s2" "d7" "d5" None, 4);
   (OpAttemptMove "s1" "e4" "d5" None, 5);
   (OpAttemptMove "s2" "d8" "d5" None, 6)].

(** White's connection drops in the started game. *)
Definition dropped : Mgr.t Scripted.Position :=
  snd (handleDisconnect "s1" 3 Scenario.started).

(** What is tried on the abandoned game: black comes back on a new
    connection, white resigns, a timeout fires. *)
Definition afterwards : list (Op * Z) :=
  [(OpReconnect "s9" "g1" "1Bob", 4); (OpResign "s1", 5); (OpFire 0%nat, 6)].

(** Two players in the lobby, and a challenge between them. *)
Definition arrivals : list (Lobby.Op * Z) :=
  [(Lobby.OpJoin "c1" "1Alice" "alice" None, 0);
   (Lobby.OpJoin "c2" "1Bob" "bob" (Some (Some 3, Some 5)), 1)].

Definition challenging : list (Lobby.Op * Z) :=
  arrivals ++ [(Lobby.OpCreateChallenge "c1" "1Bob" 100 "ch_1" 2, 2)].

Definition lobby : Lobby.t := Lobby.run arrivals Lobby.empty.

Definition challenged : Lobby.t := Lobby.run challenging Lobby.empty.

Definition bob : Lobby.LobbyPlayer.t :=
  {| Lobby.LobbyPlayer.socketId := "c2";
     Lobby.LobbyPlayer.address := "1Bob";
     Lobby.LobbyPlayer.username := "bob";
     Lobby.LobbyPlayer.status := Lobby.idle;
     Lobby.LobbyPlayer.joinedAt := 1;
     Lobby.LobbyPlayer.gamesWon := 3;
     Lobby.LobbyPlayer.gamesPlayed := 5 |}.

Definition challenge : Lobby.Challenge.t :=
  {| Lobby.Challenge.id := "ch_1";
     Lobby.Challenge.fromSocketId := "c1";
     Lobby.Challenge.fromAddress := "1Alice";
     Lobby.Challenge.fromUsername := "alice";
     Lobby.Challenge.toSocketId := "c2";
     Lobby.Challenge.toAddress := "1Bob";
     Lobby.Challenge.toUsername := "bob";
     Lobby.Challenge.stakeTier := 100;
     Lobby.Challenge.createdAt := 2;
     Lobby.Challenge.expiresAt := 30002 |}.

End Cases.
(** ** Arithmetic of the shares *)

Lemma ceil_div_spec (a b : Z) :
  0 < b -> b * (ceil_div a b - 1) < a <= b * ceil_div a b.
Proof.
  intros Hb. unfold ceil_div.
  pose proof (Z.div_mod (- a) b ltac:(lia)) as Hdm.
  pose proof (Z.mod_pos_bound (- a) b Hb) as Hm.
  lia.
Qed.

Lemma ceil_div_nonneg (a b : Z) : 0 < b -> 0 <= a -> 0 <= ceil_div a b.
Proof.
  intros Hb Ha. pose proof (ceil_div_spec a b Hb). nia.
Qed.

Lemma ceil_div_le_self (a : Z) : 0 <= a -> ceil_div (a * PLATFORM_CUT_PERCENT) 100 <= a.
Proof.
  intros Ha. unfold PLATFORM_CUT_PERCENT.
  pose proof (ceil_div_spec (a * 3) 100 ltac:(lia)). lia.
Qed.

(** Keeping 97 percent rounded down is the same as giving up 3 percent
    rounded up. *)
Lemma floor_keep_is_ceil_cut (d : Z) :
  d * (100 - PLATFORM_CUT_PERCENT) / 100
  = d - ceil_div (d * PLATFORM_CUT_PERCENT) 100.
Proof.
  unfold ceil_div, PLATFORM_CUT_PERCENT.
  replace (d * (100 - 3)) with (d * 100 + - (d * 3)) by lia.
  rewrite Z.div_add_l by lia. lia.
Qed.

Lemma fold_left_sum {A : Type} (f : A -> Z) (l : list A) (a : Z) :
  fold_left (fun sum x => sum + f x) l a = a + sumZ f l.
Proof.
  revert a. induction l as [|x l IH]; intros a; simpl.
  - lia.
  - rewrite IH. lia.
Qed.

Lemma sumZ_app {A : Type} (f : A -> Z) (l1 l2 : list A) :
  sumZ f (l1 ++ l2) = sumZ f l1 + sumZ f l2.
Proof.
  induction l1 as [|x l1 IH]; simpl; lia.
Qed.

Lemma opponentSlot_involutive (s : PlayerSlot) : opponentSlot (opponentSlot s) = s.
Proof. by destruct s. Qed.

Lemma opponentSlot_ne (s : PlayerSlot) : opponentSlot s ≠ s.
Proof. by destruct s. Qed.

(** Every entry was captured by one seat or by the other. *)
Lemma sumZ_capturedBy_split (f : CapturePayment.t -> Z) (seat : PlayerSlot)
    (ledger : list CapturePayment.t) :
  sumZ f ledger
  = sumZ f (capturedBy seat ledger) + sumZ f (capturedBy (opponentSlot seat) ledger).
Proof.
  induction ledger as [|cp ledger IH]; simpl; [lia|].
  destruct seat, (CapturePayment.toSlot cp) eqn:Hto; simpl; lia.
Qed.

Lemma sumZ_wellSplit (ledger : list CapturePayment.t) :
  Forall wellSplit ledger ->
  sumZ CapturePayment.capturerSats ledger + sumZ CapturePayment.platformSats ledger
  = sumZ CapturePayment.amountSats ledger.
Proof.
  induction 1 as [|cp ledger Hcp _ IH]; simpl; [lia|].
  unfold wellSplit in Hcp. lia.
Qed.

(** ** The integer model against doubles *)

(** On the sample amounts the share formulas give the same whole numbers on
    doubles as in the integer model. *)
Lemma double_agrees_on_samples : forallb Double.agrees Double.samples = true.
Proof. by vm_compute. Qed.

(** *** Rounding to 53 bits

    [binary_round_aux] of the library's specification of binary64 shifts a
    mantissa right until 53 bits are left and rounds to nearest, ties to
    even.  What it returns is pinned down here, far enough to compute with
    the products and quotients of the share formulas. *)

Lemma iter_pos_iter {A : Type} (f : A -> A) (p : positive) (x : A) :
  SpecFloat.iter_pos f p x = Pos.iter f x p.
Proof.
  revert x. induction p as [p IH|p IH|]; intros x; simpl.
  - rewrite !IH, <- !Pos.iter_swap. done.
  - by rewrite !IH.
  - done.
Qed.

Lemma located_shr_1 q M W n mrs :
  0 < W -> 0 <= n -> located q M W n mrs -> located q M W (n + 1) (shr_1 mrs).
Proof.
  intros HW Hn (Hm & Hq & t & Ht & Hlt & Hs).
  unfold located. rewrite Z.pow_add_r, Z.pow_1_r by lia.
  assert (0 < 2 ^ n) as HP by (by apply Z.pow_pos_nonneg).
  assert (0 < W * 2 ^ n) as HWP by lia.
  set (P := 2 ^ n) in *. clearbody P.
  destruct mrs as [m r s]; cbn in *.
  assert (∀ b : bool, orb r s = true ↔ 0 < (if r then W * P else 0) + t) as Hs'.
  { intros _. destruct r; cbn; [|done]. split; [lia|done]. }
  destruct m as [|[m|m|]|m]; cbn; try lia.
  all: split; [lia|]; split; [lia|].
  all: eexists ((if r then W * P else 0) + t); split; [nia|]; split;
    [destruct r; lia|by apply Hs'].
Qed.

Lemma located_shr q M W p mrs :
  0 < W -> located q M W 0 mrs ->
  located q M W (Z.pos p) (SpecFloat.iter_pos shr_1 p mrs).
Proof.
  intros HW H0. rewrite iter_pos_iter.
  induction p as [|p IH] using Pos.peano_ind.
  - by apply (located_shr_1 q M W 0).
  - rewrite Pos.iter_succ, Pos2Z.inj_succ.
    by apply located_shr_1.
Qed.

Lemma located_round q M W n mrs :
  0 < W -> 0 <= n -> located q M W n mrs ->
  let m0 := round_nearest_even (shr_m mrs) (loc_of_shr_record mrs) in
  shr_m mrs <= m0 <= shr_m mrs + 1
  ∧ m0 * 2 ^ n <= q + 2 ^ n
  ∧ - (W * 2 ^ n) <= 2 * M - 2 * m0 * (W * 2 ^ n) <= W * 2 ^ n.
Proof.
  intros HW Hn (Hm & Hq & t & Ht & Hlt & Hs).
  assert (0 < 2 ^ n) as HP by (by apply Z.pow_pos_nonneg).
  set (P := 2 ^ n) in *. clearbody P.
  destruct mrs as [m r s]; cbn in *.
  destruct r, s; cbn.
  all: try destruct (Z.even m).
  all: try (assert (0 < t) by (by apply Hs)).
  all: try (assert (¬ 0 < t) by (rewrite <- Hs; done)).
  all: split; [lia|]; split; nia.
Qed.

Lemma digits2_bounds (p : positive) :
  2 ^ (Z.pos (digits2_pos p) - 1) <= Z.pos p < 2 ^ Z.pos (digits2_pos p).
Proof.
  induction p as [p IH|p IH|]; cbn [digits2_pos].
  1,2: rewrite Pos2Z.inj_succ;
       replace (Z.succ (Z.pos (digits2_pos p)) - 1)
         with (Z.succ (Z.pos (digits2_pos p) - 1)) by lia;
       rewrite !Z.pow_succ_r by lia; lia.
  done.
Qed.

Lemma digits2_unique (p : positive) (d : Z) :
  2 ^ (d - 1) <= Z.pos p < 2 ^ d -> Z.pos (digits2_pos p) = d.
Proof.
  intros [Hlo Hhi]. pose proof (digits2_bounds p) as [Hlo' Hhi'].
  assert (0 < d).
  { destruct (decide (0 < d)); [done|].
    assert (2 ^ d <= 2 ^ 0) by (destruct (decide (d < 0));
      [rewrite Z.pow_neg_r by lia; done | apply Z.pow_le_mono_r; lia]).
    change (2 ^ 0) with 1 in *. lia. }
  destruct (Z.lt_trichotomy (Z.pos (digits2_pos p)) d) as [Hlt|[Heq|Hgt]]; [|done|].
  - assert (2 ^ Z.pos (digits2_pos p) <= 2 ^ (d - 1)) by (apply Z.pow_le_mono_r; lia).
    lia.
  - assert (2 ^ d <= 2 ^ (Z.pos (digits2_pos p) - 1)) by (apply Z.pow_le_mono_r; lia).
    lia.
Qed.

Lemma located_shr_by q M W n E mrs :
  0 < W -> 0 <= n -> located q M W 0 mrs ->
  located q M W n (fst (shr mrs E n)) ∧ snd (shr mrs E n) = E + n.
Proof.
  intros HW Hn H0. destruct n as [|p|p]; cbn [shr fst snd]; [|split; [|done]|lia].
  - split; [done|lia].
  - by apply located_shr.
Qed.

Lemma scaled_half (m e : Z) :
  Js.scaled_ceil m (e + 1) = Js.scaled_ceil (2 * m) e
  ∧ Js.scaled_floor m (e + 1) = Js.scaled_floor (2 * m) e.
Proof.
  unfold Js.scaled_ceil, Js.scaled_floor.
  destruct (Z.leb_spec 0 e), (Z.leb_spec 0 (e + 1)); try lia.
  - rewrite Z.pow_add_r, Z.pow_1_r by lia. lia.
  - assert (e = -1) as -> by lia. cbn [Z.add Z.opp Z.pow Z.pow_pos Pos.iter Z.mul Pos.mul].
    replace (- (2 * m)) with (- m * 2) by lia. rewrite Z.div_mul by lia.
    replace (2 * m) with (m * 2) by lia. rewrite Z.div_mul by lia. lia.
  - replace (- e) with (- (e + 1) + 1) by lia.
    rewrite Z.pow_add_r, Z.pow_1_r by lia.
    assert (0 < 2 ^ (- (e + 1))) by (apply Z.pow_pos_nonneg; lia).
    replace (- (2 * m)) with (2 * - m) by lia.
    rewrite (Z.mul_comm (2 ^ _) 2), !Z.div_mul_cancel_l by lia. done.
Qed.

Lemma binary_round_aux_spec (q E : Z) (l : location) (M W d : Z) :
  0 < W ->
  located q M W 0 (shr_record_of_loc q l) ->
  2 ^ (d - 1) <= q < 2 ^ d -> 53 <= d ->
  -1074 <= E + (d - 53) -> E + (d - 53) + 1 <= 971 ->
  ∃ (m' : positive) (e' m0 : Z),
    binary_round_aux prec emax false q E l = S754_finite false m' e'
    ∧ 2 ^ 52 <= m0 <= 2 ^ 53
    ∧ - (W * 2 ^ (d - 53)) <= 2 * M - 2 * m0 * (W * 2 ^ (d - 53)) <= W * 2 ^ (d - 53)
    ∧ Js.scaled_ceil (Z.pos m') e' = Js.scaled_ceil m0 (E + (d - 53))
    ∧ Js.scaled_floor (Z.pos m') e' = Js.scaled_floor m0 (E + (d - 53))
    ∧ (m0 < 2 ^ 53 -> Z.pos m' = m0 ∧ e' = E + (d - 53)).
Proof.
  intros HW Hloc Hq Hd Hlo Hhi.
  assert (0 < 2 ^ (d - 1)) as Hpow by (apply Z.pow_pos_nonneg; lia).
  destruct q as [|pq|pq]; [lia| |lia].
  pose proof (digits2_unique pq d Hq) as Hdig.
  unfold binary_round_aux, shr_fexp, fexp, emin.
  change prec with 53. change emax with 1024.
  cbn [Zdigits2]. rewrite Hdig.
  rewrite Z.max_l by lia.
  replace (d + E - 53 - E) with (d - 53) by lia.
  set (n := d - 53) in *.
  destruct (located_shr_by (Z.pos pq) M W n E _ HW ltac:(lia) Hloc) as [Hn He].
  destruct (shr (shr_record_of_loc (Z.pos pq) l) E n) as [mrs' e'].
  cbn [fst snd] in Hn, He. subst e'.
  pose proof (located_round (Z.pos pq) M W n mrs' HW ltac:(lia) Hn) as Hr.
  cbn zeta in Hr.
  set (m0 := round_nearest_even (shr_m mrs') (loc_of_shr_record mrs')) in *.
  destruct Hr as (Hm0 & Hm0q & Herr).
  destruct Hn as (Hm & Hmq & _).
  assert (0 < 2 ^ n) as HP by (apply Z.pow_pos_nonneg; lia).
  assert (2 ^ d = 2 ^ 53 * 2 ^ n) as Hd2
    by (rewrite <- Z.pow_add_r by lia; f_equal; lia).
  assert (2 ^ (d - 1) = 2 ^ 52 * 2 ^ n) as Hd1
    by (rewrite <- Z.pow_add_r by lia; f_equal; lia).
  rewrite Hd2, Hd1 in Hq.
  assert (2 ^ 52 <= shr_m mrs' < 2 ^ 53) as Hmb by nia.
  assert (2 ^ 52 <= m0 <= 2 ^ 53) as Hm0b by lia.
  clearbody m0.
  destruct (decide (m0 < 2 ^ 53)) as [Hlt|Hge].
  - destruct m0 as [|pm|pm]; [lia| |lia].
    cbn [Zdigits2].
    rewrite (digits2_unique pm 53) by (change (53 - 1) with 52; lia).
    rewrite Z.max_l by lia.
    replace (53 + (E + n) - 53 - (E + n)) with 0 by lia.
    cbn [shr shr_record_of_loc shr_m].
    destruct (Z.leb_spec (E + n) (1024 - 53)); [|lia].
    exists pm, (E + n), (Z.pos pm). split_and!; (done || lia).
  - assert (m0 = 2 ^ 53) as -> by lia.
    change (2 ^ 53) with 9007199254740992 in *.
    change (Zdigits2 9007199254740992) with 54.
    rewrite Z.max_l by lia.
    replace (54 + (E + n) - 53 - (E + n)) with 1 by lia.
    cbn [shr shr_record_of_loc shr_m SpecFloat.iter_pos shr_1].
    change (1024 - 53) with 971.
    destruct (Z.leb_spec (E + n + 1) 971); [|lia].
    exists (4503599627370496)%positive, (E + n + 1), 9007199254740992.
    destruct (scaled_half 4503599627370496 (E + n)) as [-> ->].
    split_and!; (done || lia).
Qed.

Lemma binary_round_aux_exact (mu : positive) (n E : Z) :
  2 ^ 52 <= Z.pos mu < 2 ^ 53 -> 0 <= n -> -1074 <= E + n -> E + n + 1 <= 971 ->
  binary_round_aux prec emax false (Z.pos mu * 2 ^ n) E loc_Exact
  = S754_finite false mu (E + n).
Proof.
  intros Hmu Hn Hlo Hhi.
  assert (0 < 2 ^ n) as HP by (apply Z.pow_pos_nonneg; lia).
  destruct (binary_round_aux_spec (Z.pos mu * 2 ^ n) E loc_Exact
              (Z.pos mu * 2 ^ n) 1 (n + 53))
    as (m' & e' & m0 & -> & Hm0 & Herr & _ & _ & Hsame).
  - done.
  - unfold located; cbn. split; [lia|]. split; [lia|]. exists 0. split_and!; [lia..|done].
  - replace (n + 53 - 1) with (52 + n) by lia.
    rewrite Z.add_comm, !Z.pow_add_r by lia. nia.
  - lia.
  - lia.
  - lia.
  - replace (n + 53 - 53) with n in * by lia.
    assert (m0 = Z.pos mu) as -> by nia.
    destruct Hsame as [Hm' ->]; [lia|]. by simplify_eq.
Qed.

Lemma iter_xO (p s : positive) : Z.pos (Pos.iter xO p s) = Z.pos p * 2 ^ Z.pos s.
Proof.
  induction s as [|s IH] using Pos.peano_ind.
  - cbn. lia.
  - rewrite Pos.iter_succ, Pos2Z.inj_succ, Z.pow_succ_r by lia.
    rewrite Pos2Z.inj_xO, IH. lia.
Qed.

Lemma valid_normal (m : positive) (e : Z) :
  2 ^ 52 <= Z.pos m < 2 ^ 53 -> -1074 <= e <= 971 ->
  SpecFloat.valid_binary prec emax (S754_finite false m e) = true.
Proof.
  intros Hm He. unfold SpecFloat.valid_binary, bounded, canonical_mantissa, fexp, emin.
  change prec with 53. change emax with 1024.
  rewrite (digits2_unique m 53) by (change (53 - 1) with 52; lia).
  rewrite Z.max_l by lia.
  apply andb_true_intro. split; [apply Z.eqb_eq|apply Z.leb_le]; lia.
Qed.

(** The double of a whole number below 2^53: the number itself, with its
    digits moved up to 53 bits. *)
Lemma num_spec (x : Z) :
  1 <= x < 2 ^ 53 ->
  ∃ (mx : positive) (a : Z),
    0 <= a <= 52
    ∧ Z.pos mx = x * 2 ^ a
    ∧ 2 ^ 52 <= Z.pos mx < 2 ^ 53
    ∧ Prim2SF (Js.num x) = S754_finite false mx (- a).
Proof.
  intros Hx. destruct x as [|p|p]; [lia| |lia].
  pose proof (digits2_bounds p) as Hd.
  set (d := Z.pos (digits2_pos p)) in *.
  assert (1 <= d) as Hd1 by (subst d; lia).
  assert (d <= 53) as Hd53.
  { destruct (decide (d <= 53)); [done|].
    assert (2 ^ 53 <= 2 ^ (d - 1)) by (apply Z.pow_le_mono_r; lia). lia. }
  assert (∃ mx : positive, Z.pos mx = Z.pos p * 2 ^ (53 - d)
            ∧ binary_normalize prec emax (Z.pos p) 0 false
              = S754_finite false mx (d - 53)) as (mx & Hmx & Hnorm).
  { unfold binary_normalize, binary_round, shl_align, fexp, emin.
    change prec with 53. change emax with 1024. fold d.
    rewrite Z.max_l by lia.
    destruct (d + 0 - 53 - 0) as [|s|s] eqn:Hs.
    - exists p. assert (d = 53) as Hd' by lia. rewrite Hd' in *.
      split; [change (2 ^ (53 - 53)) with 1; lia|].
      pose proof (binary_round_aux_exact p 0 0) as Hex.
      rewrite Z.pow_0_r, Z.mul_1_r in Hex.
      change prec with 53 in Hex. change emax with 1024 in Hex. rewrite Hex; [done|..]; lia.
    - lia.
    - exists (Pos.iter xO p s).
      assert (53 - d = Z.pos s) as Hs' by lia.
      split; [by rewrite iter_xO, Hs'|].
      pose proof (binary_round_aux_exact (Pos.iter xO p s) 0 (d + 0 - 53)) as Hex.
      rewrite Z.pow_0_r, Z.mul_1_r, Z.add_0_r in Hex.
      replace (d + 0 - 53) with (d - 53) in * by lia.
      change prec with 53 in Hex. change emax with 1024 in Hex.
      rewrite Hex; [done| |lia..].
      rewrite iter_xO, <- Hs'.
      assert (2 ^ 53 = 2 ^ d * 2 ^ (53 - d)) as ->
        by (rewrite <- Z.pow_add_r by lia; f_equal; lia).
      assert (2 ^ 52 = 2 ^ (d - 1) * 2 ^ (53 - d)) as ->
        by (rewrite <- Z.pow_add_r by lia; f_equal; lia).
      assert (0 < 2 ^ (53 - d)) by (apply Z.pow_pos_nonneg; lia).
      nia. }
  assert (2 ^ 52 <= Z.pos mx < 2 ^ 53) as Hb.
  { rewrite Hmx.
    assert (2 ^ 53 = 2 ^ d * 2 ^ (53 - d)) as ->
      by (rewrite <- Z.pow_add_r by lia; f_equal; lia).
    assert (2 ^ 52 = 2 ^ (d - 1) * 2 ^ (53 - d)) as ->
      by (rewrite <- Z.pow_add_r by lia; f_equal; lia).
    assert (0 < 2 ^ (53 - d)) by (apply Z.pow_pos_nonneg; lia).
    nia. }
  exists mx, (53 - d). split_and!; [lia|lia|done|lia|lia|].
  unfold Js.num. rewrite Hnorm, Prim2SF_SF2Prim.
  - f_equal; lia.
  - apply valid_normal; [done|lia].
Qed.

(** A whole number below 2^53 is read back from its double. *)
Lemma to_Z_num (x : Z) : 0 <= x < 2 ^ 53 -> Js.to_Z (Js.num x) = Some x.
Proof.
  intros Hx. destruct (decide (x = 0)) as [->|Hne]; [by vm_compute|].
  destruct (num_spec x ltac:(lia)) as (mx & a & Ha & Hmx & _ & Hnum).
  unfold Js.to_Z. rewrite Hnum. cbn [Js.signed].
  assert (0 < 2 ^ a) by (apply Z.pow_pos_nonneg; lia).
  unfold Js.scaled_ceil, Js.scaled_floor.
  destruct (Z.leb_spec 0 (- a)).
  - assert (a = 0) as -> by lia. cbn [Z.opp Z.pow] in *. rewrite Hmx, Z.mul_1_r.
    rewrite Z.eqb_refl. f_equal. lia.
  - rewrite Z.opp_involutive, Hmx.
    replace (- (x * 2 ^ a)) with (- x * 2 ^ a) by lia.
    rewrite !Z.div_mul by lia. rewrite Z.opp_involutive, Z.eqb_refl. done.
Qed.

(** The product of a whole number below 2^53 with a normal double [c]: the
    53-bit mantissa [m0] nearest to the exact product, which has [n + 53]
    bits. *)
Lemma mul_const_spec (x : Z) (c : float) (C : positive) (ec : Z) :
  1 <= x < 2 ^ 53 ->
  Prim2SF c = S754_finite false C ec ->
  2 ^ 52 <= Z.pos C < 2 ^ 53 ->
  -1074 <= ec <= 900 ->
  ∃ (mx : positive) (a : Z) (m' : positive) (e' m0 n : Z),
    0 <= a <= 52
    ∧ Z.pos mx = x * 2 ^ a
    ∧ 2 ^ 52 <= Z.pos mx < 2 ^ 53
    ∧ (n = 52 ∨ n = 53)
    ∧ 2 ^ 52 * 2 ^ n <= Z.pos mx * Z.pos C < 2 ^ 53 * 2 ^ n
    ∧ Prim2SF (Js.num x * c) = S754_finite false m' e'
    ∧ 2 ^ 52 <= m0 <= 2 ^ 53
    ∧ - 2 ^ n <= 2 * (Z.pos mx * Z.pos C) - 2 * m0 * 2 ^ n <= 2 ^ n
    ∧ Js.scaled_ceil (Z.pos m') e' = Js.scaled_ceil m0 (- a + ec + n)
    ∧ Js.scaled_floor (Z.pos m') e' = Js.scaled_floor m0 (- a + ec + n).
Proof.
  intros Hx Hc HC Hec.
  destruct (num_spec x Hx) as (mx & a & Ha & Hmx & Hb & Hnum).
  pose proof (digits2_bounds (mx * C)) as Hd.
  set (d := Z.pos (digits2_pos (mx * C))) in *.
  rewrite Pos2Z.inj_mul in Hd.
  change (2 ^ 52) with 4503599627370496 in Hb, HC.
  change (2 ^ 53) with 9007199254740992 in Hb, HC.
  assert (2 ^ 104 <= Z.pos mx * Z.pos C < 2 ^ 106) as HM.
  { change (2 ^ 104) with (4503599627370496 * 4503599627370496).
    change (2 ^ 106) with (9007199254740992 * 9007199254740992). nia. }
  assert (d = 105 ∨ d = 106) as Hd'.
  { assert (1 <= d) by (subst d; lia).
    destruct (decide (d <= 104)).
    { assert (2 ^ d <= 2 ^ 104) by (apply Z.pow_le_mono_r; lia). lia. }
    destruct (decide (107 <= d)).
    { assert (2 ^ 106 <= 2 ^ (d - 1)) by (apply Z.pow_le_mono_r; lia). lia. }
    lia. }
  destruct (binary_round_aux_spec (Z.pos (mx * C)) (- a + ec) loc_Exact
              (Z.pos (mx * C)) 1 d)
    as (m' & e' & m0 & Hres & Hm0 & Herr & Hceil & Hfloor & _).
  - done.
  - unfold located; cbn. split; [lia|]. split; [lia|]. exists 0.
    split_and!; [lia..|done].
  - by rewrite Pos2Z.inj_mul.
  - lia.
  - lia.
  - lia.
  - exists mx, a, m', e', m0, (d - 53).
    rewrite mul_spec, Hnum, Hc. cbn [SF64mul SFmul xorb].
    rewrite Pos2Z.inj_mul, !Z.mul_1_l in *.
    change (2 ^ 52) with 4503599627370496.
    change (2 ^ 53) with 9007199254740992.
    split_and!; try done; try lia.
    all: destruct Hd' as [-> | ->]; cbn; cbn in Hd; lia.
Qed.

Lemma ceil_unique (m T K : Z) : 0 < T -> (K - 1) * T < m <= K * T -> - ((- m) / T) = K.
Proof.
  intros HT Hm. symmetry. apply Z.opp_inj. rewrite Z.opp_involutive.
  apply (Z.div_unique_pos (- m) T (- K) (K * T - m)); lia.
Qed.

Lemma floor_unique (m T K : Z) : 0 < T -> K * T <= m < (K + 1) * T -> m / T = K.
Proof.
  intros HT Hm. symmetry.
  apply (Z.div_unique_pos m T K (m - K * T)); lia.
Qed.

Lemma shift_of_bound (x a : Z) :
  0 <= a -> 2 ^ 52 <= x * 2 ^ a -> x < 2 ^ 47 -> 64 <= 2 ^ a ∧ 6 <= a.
Proof.
  intros Ha Hlo Hx.
  assert (6 <= a).
  { destruct (decide (6 <= a)); [done|].
    assert (2 ^ a <= 2 ^ 5) by (apply Z.pow_le_mono_r; lia).
    change (2 ^ 5) with 32 in *. change (2 ^ 52) with 4503599627370496 in *.
    change (2 ^ 47) with 140737488355328 in *. nia. }
  split; [|done]. change 64 with (2 ^ 6). apply Z.pow_le_mono_r; lia.
Qed.

(** The exponent of the rounded product is [- (a + j)]: the value is the
    mantissa over [2 ^ a * 2 ^ j]. *)
Ltac scale_to a j :=
  match goal with
  | |- context [2 ^ ?e] =>
      replace e with (a + j) by lia;
      rewrite (Z.pow_add_r 2 a j) by lia;
      let v := eval vm_compute in (2 ^ j) in change (2 ^ j) with v
  end.

Ltac powers :=
  change (2 ^ 52) with 4503599627370496 in *;
  change (2 ^ 53) with 9007199254740992 in *.

Section Shares.
Variables x a mx m0 n : Z.
Hypothesis Hx : 1 <= x < 2 ^ 47.
Hypothesis Ha : 0 <= a <= 52.
Hypothesis Hmx : mx = x * 2 ^ a.
Hypothesis Hb : 2 ^ 52 <= mx < 2 ^ 53.
Hypothesis Hn : n = 52 ∨ n = 53.
Hypothesis Hm0 : 2 ^ 52 <= m0 <= 2 ^ 53.

Lemma ceil_100 :
  2 ^ 52 * 2 ^ n <= mx * 4503599627370496 < 2 ^ 53 * 2 ^ n ->
  - 2 ^ n <= 2 * (mx * 4503599627370496) - 2 * m0 * 2 ^ n <= 2 ^ n ->
  Js.scaled_ceil m0 (- a + -52 + n) = ceil_div (x * 100) 100.
Proof.
  intros HM Herr.
  destruct (shift_of_bound x a) as [HA Ha8]; [lia..|].
  pose proof (ceil_div_spec (x * 100) 100 ltac:(lia)) as HK.
  set (K := ceil_div (x * 100) 100) in *. clearbody K.
  assert (K = x) as -> by lia.
  unfold Js.scaled_ceil.
  destruct (Z.leb_spec 0 (- a + -52 + n)); [lia|].
  destruct Hn as [-> | ->]; [scale_to a 0|exfalso; powers; lia].
  apply ceil_unique; [lia|]. powers. assert (m0 = mx) as -> by lia. lia.
Qed.

Lemma ceil_90 :
  2 ^ 52 * 2 ^ n <= mx * 8106479329266893 < 2 ^ 53 * 2 ^ n ->
  - 2 ^ n <= 2 * (mx * 8106479329266893) - 2 * m0 * 2 ^ n <= 2 ^ n ->
  Js.scaled_ceil m0 (- a + -53 + n) = ceil_div (x * 90) 100.
Proof.
  intros HM Herr.
  destruct (shift_of_bound x a) as [HA Ha8]; [lia..|].
  pose proof (ceil_div_spec (x * 90) 100 ltac:(lia)) as HK.
  set (K := ceil_div (x * 90) 100) in *. clearbody K.
  set (A := 2 ^ a) in *.
  assert (100 * (K * A) <= 90 * mx + 90 * A) as HK1 by nia.
  assert (90 * mx <= 100 * (K * A)) as HK2 by nia.
  unfold Js.scaled_ceil.
  destruct (Z.leb_spec 0 (- a + -53 + n)); [lia|].
  destruct Hn as [-> | ->]; [scale_to a 1|scale_to a 0].
  all: fold A; apply ceil_unique; [lia|]; powers; lia.
Qed.

Lemma ceil_80 :
  2 ^ 52 * 2 ^ n <= mx * 7205759403792794 < 2 ^ 53 * 2 ^ n ->
  - 2 ^ n <= 2 * (mx * 7205759403792794) - 2 * m0 * 2 ^ n <= 2 ^ n ->
  Js.scaled_ceil m0 (- a + -53 + n) = ceil_div (x * 80) 100.
Proof.
  intros HM Herr.
  destruct (shift_of_bound x a) as [HA Ha8]; [lia..|].
  pose proof (ceil_div_spec (x * 80) 100 ltac:(lia)) as HK.
  set (K := ceil_div (x * 80) 100) in *. clearbody K.
  set (A := 2 ^ a) in *.
  assert (100 * (K * A) <= 80 * mx + 80 * A) as HK1 by nia.
  assert (80 * mx <= 100 * (K * A)) as HK2 by nia.
  unfold Js.scaled_ceil.
  destruct (Z.leb_spec 0 (- a + -53 + n)); [lia|].
  destruct Hn as [-> | ->]; [scale_to a 1|scale_to a 0].
  all: fold A; apply ceil_unique; [lia|]; powers; lia.
Qed.

Lemma ceil_70 :
  2 ^ 52 * 2 ^ n <= mx * 6305039478318694 < 2 ^ 53 * 2 ^ n ->
  - 2 ^ n <= 2 * (mx * 6305039478318694) - 2 * m0 * 2 ^ n <= 2 ^ n ->
  Js.scaled_ceil m0 (- a + -53 + n) = ceil_div (x * 70) 100.
Proof.
  intros HM Herr.
  destruct (shift_of_bound x a) as [HA Ha8]; [lia..|].
  pose proof (ceil_div_spec (x * 70) 100 ltac:(lia)) as HK.
  set (K := ceil_div (x * 70) 100) in *. clearbody K.
  set (A := 2 ^ a) in *.
  assert (100 * (K * A) <= 70 * mx + 90 * A) as HK1 by nia.
  assert (70 * mx <= 100 * (K * A)) as HK2 by nia.
  unfold Js.scaled_ceil.
  destruct (Z.leb_spec 0 (- a + -53 + n)); [lia|].
  destruct Hn as [-> | ->]; [scale_to a 1|scale_to a 0].
  all: fold A; apply ceil_unique; [lia|]; powers; lia.
Qed.

Lemma ceil_20 :
  2 ^ 52 * 2 ^ n <= mx * 7205759403792794 < 2 ^ 53 * 2 ^ n ->
  - 2 ^ n <= 2 * (mx * 7205759403792794) - 2 * m0 * 2 ^ n <= 2 ^ n ->
  Js.scaled_ceil m0 (- a + -55 + n) = ceil_div (x * 20) 100.
Proof.
  intros HM Herr.
  destruct (shift_of_bound x a) as [HA Ha8]; [lia..|].
  pose proof (ceil_div_spec (x * 20) 100 ltac:(lia)) as HK.
  set (K := ceil_div (x * 20) 100) in *. clearbody K.
  set (A := 2 ^ a) in *.
  assert (100 * (K * A) <= 20 * mx + 80 * A) as HK1 by nia.
  assert (20 * mx <= 100 * (K * A)) as HK2 by nia.
  unfold Js.scaled_ceil.
  destruct (Z.leb_spec 0 (- a + -55 + n)); [lia|].
  destruct Hn as [-> | ->]; [scale_to a 3|scale_to a 2].
  all: fold A; apply ceil_unique; [lia|]; powers; lia.
Qed.

Lemma floor_97 :
  2 ^ 52 * 2 ^ n <= mx * 8736983277098762 < 2 ^ 53 * 2 ^ n ->
  - 2 ^ n <= 2 * (mx * 8736983277098762) - 2 * m0 * 2 ^ n <= 2 ^ n ->
  Js.scaled_floor m0 (- a + -53 + n) = x * 97 / 100.
Proof.
  intros HM Herr.
  destruct (shift_of_bound x a) as [HA Ha8]; [lia..|].
  pose proof (Z.div_mod (x * 97) 100 ltac:(lia)) as HK.
  pose proof (Z.mod_pos_bound (x * 97) 100 ltac:(lia)) as HK'.
  set (K := x * 97 / 100) in *. clearbody K.
  set (A := 2 ^ a) in *.
  assert (100 * (K * A) <= 97 * mx) as HK1 by nia.
  assert (97 * mx <= 100 * (K * A) + 99 * A) as HK2 by nia.
  unfold Js.scaled_floor.
  destruct (Z.leb_spec 0 (- a + -53 + n)); [lia|].
  destruct Hn as [-> | ->]; [scale_to a 1|scale_to a 0].
  all: fold A; apply floor_unique; [lia|]; powers; lia.
Qed.

End Shares.

Lemma mul_3_exact (x : Z) :
  1 <= x < 2 ^ 47 -> (Js.num x * Js.num 3)%float = Js.num (x * 3).
Proof.
  intros Hx.
  change (2 ^ 47) with 140737488355328 in Hx.
  destruct (num_spec x) as (mx & a & Ha & Hmx & Hbx & Hnumx);
    [change (2 ^ 53) with 9007199254740992; lia|].
  destruct (num_spec (x * 3)) as (mw & b & Hb & Hmw & Hbw & Hnumw);
    [change (2 ^ 53) with 9007199254740992; lia|].
  destruct (shift_of_bound x a) as [_ Ha6]; [lia..|].
  apply Prim2SF_inj.
  rewrite mul_spec, Hnumx, Hnumw.
  replace (Prim2SF (Js.num 3)) with (S754_finite false 6755399441055744 (-51))
    by (by vm_compute).
  cbn [SF64mul SFmul xorb]. rewrite Pos2Z.inj_mul.
  replace (Z.pos mx * 6755399441055744) with (Z.pos mw * 2 ^ (a + 51 - b)).
  - rewrite binary_round_aux_exact by lia. f_equal. lia.
  - rewrite Hmx, Hmw.
    change 6755399441055744 with (3 * 2 ^ 51).
    replace (x * 3 * 2 ^ b * 2 ^ (a + 51 - b)) with (x * 3 * (2 ^ b * 2 ^ (a + 51 - b)))
      by lia.
    rewrite <- Z.pow_add_r by lia.
    replace (b + (a + 51 - b)) with (a + 51) by lia.
    rewrite Z.pow_add_r by lia. lia.
Qed.

(** A whole number below 2^53 divided by 100. *)
Lemma div_100_spec (w : Z) :
  1 <= w < 2 ^ 53 ->
  ∃ (mw : positive) (b : Z) (m' : positive) (e' m0 n : Z),
    0 <= b <= 52
    ∧ Z.pos mw = w * 2 ^ b
    ∧ (n = 0 ∨ n = 1)
    ∧ Prim2SF (Js.num w / 100) = S754_finite false m' e'
    ∧ 2 ^ 52 <= m0 <= 2 ^ 53
    ∧ - (7036874417766400 * 2 ^ n)
      <= 2 * (Z.pos mw * 2 ^ 53) - 2 * m0 * (7036874417766400 * 2 ^ n)
      <= 7036874417766400 * 2 ^ n
    ∧ Js.scaled_ceil (Z.pos m') e' = Js.scaled_ceil m0 (- b - 7 + n).
Proof.
  intros Hw.
  destruct (num_spec w Hw) as (mw & b & Hb & Hmw & Hbw & Hnum).
  rewrite div_spec, Hnum.
  replace (Prim2SF 100) with (S754_finite false 7036874417766400 (-46))
    by (by vm_compute).
  cbn [SF64div SFdiv xorb].
  unfold SFdiv_core_binary, fexp, emin.
  change prec with 53. change emax with 1024.
  cbn [Zdigits2].
  rewrite (digits2_unique mw 53) by (change (53 - 1) with 52; lia).
  change (Z.pos (digits2_pos 7036874417766400)) with 53.
  rewrite Z.max_l by lia.
  rewrite Z.min_l by lia.
  replace (- b - -46 - (53 + - b - (53 + -46) - 53)) with 53 by lia.
  rewrite Z.shiftl_mul_pow2 by lia.
  pose proof (Z_div_mod (Z.pos mw * 2 ^ 53) 7036874417766400 ltac:(lia)) as Hdm.
  destruct (Z.div_eucl (Z.pos mw * 2 ^ 53) 7036874417766400) as [q r].
  destruct Hdm as [Hdm Hr].
  change (2 ^ 52) with 4503599627370496 in *.
  change (2 ^ 53) with 9007199254740992 in *.
  assert (4503599627370496 <= q < 18014398509481984) as Hq by lia.
  assert (∃ d, (d = 53 ∨ d = 54) ∧ 2 ^ (d - 1) <= q < 2 ^ d) as (d & Hd & Hqd).
  { destruct (decide (q < 9007199254740992)); [exists 53|exists 54].
    all: split; [lia|cbn; lia]. }
  destruct (binary_round_aux_spec q (53 + - b - (53 + -46) - 53)
              (new_location 7036874417766400 r)
              (Z.pos mw * 9007199254740992) 7036874417766400 d)
    as (m' & e' & m0 & Hres & Hm0 & Herr & Hceil & _ & _).
  - done.
  - unfold located, new_location, new_location_even. cbn [Z.even].
    destruct (Z.eqb_spec r 0) as [->|Hr0]; cbn.
    + split; [lia|]. split; [lia|]. exists 0. split_and!; [lia..|done].
    + destruct (Z.compare_spec (2 * r) 7036874417766400); cbn.
      all: split; [lia|]; split; [lia|].
      * exists 0. split_and!; [lia..|done].
      * exists (2 * r). split_and!; [lia..|]. split; [lia|done].
      * exists (2 * r - 7036874417766400). split_and!; [lia..|]. split; [lia|done].
  - done.
  - lia.
  - lia.
  - lia.
  - change prec with 53 in Hres. change emax with 1024 in Hres.
    exists mw, b, m', e', m0, (d - 53). rewrite Hres.
    change (2 ^ 52) with 4503599627370496 in *.
    change (2 ^ 53) with 9007199254740992 in *.
    replace (53 + - b - (53 + -46) - 53 + (d - 53)) with (- b - 7 + (d - 53)) in * by lia.
    split_and!; (done || lia).
Qed.

Lemma ceil_3 (x w b mw m0 n : Z) :
  1 <= w < 2 ^ 53 -> w = x * 3 -> 0 <= b <= 52 -> mw = w * 2 ^ b ->
  n = 0 ∨ n = 1 -> 2 ^ 52 <= m0 <= 2 ^ 53 ->
  - (7036874417766400 * 2 ^ n)
    <= 2 * (mw * 2 ^ 53) - 2 * m0 * (7036874417766400 * 2 ^ n)
    <= 7036874417766400 * 2 ^ n ->
  Js.scaled_ceil m0 (- b - 7 + n) = ceil_div (x * 3) 100.
Proof.
  intros Hw -> Hb Hmw Hn Hm0 Herr.
  pose proof (ceil_div_spec (x * 3) 100 ltac:(lia)) as HK.
  set (K := ceil_div (x * 3) 100) in *. clearbody K.
  assert (0 < 2 ^ b) as HB by (apply Z.pow_pos_nonneg; lia).
  set (B := 2 ^ b) in *.
  assert (100 * (K * B) <= mw + 99 * B) as HK1 by nia.
  assert (mw <= 100 * (K * B)) as HK2 by nia.
  unfold Js.scaled_ceil.
  destruct (Z.leb_spec 0 (- b - 7 + n)); [lia|].
  destruct Hn as [-> | ->]; [scale_to b 7|scale_to b 6].
  all: fold B; apply ceil_unique; [lia|]; powers; cbn in Herr; lia.
Qed.

Lemma Math_ceil_finite (y : float) (m : positive) (e : Z) :
  Prim2SF y = S754_finite false m e ->
  Js.Math_ceil y = Js.num (Js.scaled_ceil (Z.pos m) e).
Proof. intros Hy. unfold Js.Math_ceil. by rewrite Hy. Qed.

Lemma Math_floor_finite (y : float) (m : positive) (e : Z) :
  Prim2SF y = S754_finite false m e ->
  Js.Math_floor y = Js.num (Js.scaled_floor (Z.pos m) e).
Proof. intros Hy. unfold Js.Math_floor. by rewrite Hy. Qed.

(** Below 2^47 units the capture price is the same whole number on doubles
    as in whole-number arithmetic. *)
Lemma captureAmount_exact (baseSats : Z) (piece : ChessPieceType) :
  0 <= baseSats < 2 ^ 47 ->
  Js.to_Z (Double.captureAmount baseSats piece)
  = Some (ceil_div (baseSats * PIECE_CAPTURE_PERCENT piece) 100).
Proof.
  intros Hx.
  destruct (decide (baseSats = 0)) as [->|Hne]; [by destruct piece; vm_compute|].
  assert (1 <= baseSats < 2 ^ 53) as Hx'
    by (change (2 ^ 47) with 140737488355328 in Hx;
        change (2 ^ 53) with 9007199254740992; lia).
  pose proof (ceil_div_spec (baseSats * PIECE_CAPTURE_PERCENT piece) 100 ltac:(lia)) as HK.
  assert (0 <= ceil_div (baseSats * PIECE_CAPTURE_PERCENT piece) 100 < 2 ^ 53) as HKb.
  { change (2 ^ 53) with 9007199254740992 in *.
    destruct piece; cbn [PIECE_CAPTURE_PERCENT] in *; lia. }
  unfold Double.captureAmount.
  destruct piece; cbn [PIECE_CAPTURE_PERCENT] in *.
  all: match goal with
       | |- context [(Js.num _ * ?c)%float] =>
           let sf := eval vm_compute in (Prim2SF c) in
           match sf with
           | S754_finite false ?C ?ec =>
               destruct (mul_const_spec baseSats c C ec Hx')
                 as (mx & a & m' & e' & m0 & n & Ha & Hmx & Hb & Hn & HM & Hres
                     & Hm0 & Herr & Hceil & _);
               [by vm_compute|by vm_compute|lia|]
           end
       end.
  all: rewrite (Math_ceil_finite _ _ _ Hres), Hceil.
  - rewrite (ceil_100 baseSats a (Z.pos mx) m0 n); try done; try lia. by apply to_Z_num.
  - rewrite (ceil_90 baseSats a (Z.pos mx) m0 n); try done; try lia. by apply to_Z_num.
  - rewrite (ceil_80 baseSats a (Z.pos mx) m0 n); try done; try lia. by apply to_Z_num.
  - rewrite (ceil_70 baseSats a (Z.pos mx) m0 n); try done; try lia. by apply to_Z_num.
  - rewrite (ceil_70 baseSats a (Z.pos mx) m0 n); try done; try lia. by apply to_Z_num.
  - rewrite (ceil_20 baseSats a (Z.pos mx) m0 n); try done; try lia. by apply to_Z_num.
Qed.

(** The same for the platform's three percent, rounded up. *)
Lemma platformShare_exact (amountSats : Z) :
  0 <= amountSats < 2 ^ 47 ->
  Js.to_Z (Double.platformShare amountSats)
  = Some (ceil_div (amountSats * PLATFORM_CUT_PERCENT) 100).
Proof.
  intros Hx.
  destruct (decide (amountSats = 0)) as [->|Hne]; [by vm_compute|].
  unfold Double.platformShare, PLATFORM_CUT_PERCENT.
  rewrite mul_3_exact by lia.
  change (2 ^ 47) with 140737488355328 in Hx.
  assert (1 <= amountSats * 3 < 2 ^ 53) as Hw
    by (change (2 ^ 53) with 9007199254740992; lia).
  destruct (div_100_spec (amountSats * 3) Hw)
    as (mw & b & m' & e' & m0 & n & Hb & Hmw & Hn & Hres & Hm0 & Herr & Hceil).
  rewrite (Math_ceil_finite _ _ _ Hres), Hceil.
  rewrite (ceil_3 amountSats (amountSats * 3) b (Z.pos mw) m0 n); try done.
  apply to_Z_num.
  pose proof (ceil_div_spec (amountSats * 3) 100 ltac:(lia)).
  change (2 ^ 53) with 9007199254740992. lia.
Qed.

(** And for the 97 percent of a deposit that a draw returns, rounded
    down. *)
Lemma depositReturn_exact (depositSats : Z) :
  0 <= depositSats < 2 ^ 47 ->
  Js.to_Z (Double.depositReturn depositSats)
  = Some (depositSats * (100 - PLATFORM_CUT_PERCENT) / 100).
Proof.
  intros Hx.
  destruct (decide (depositSats = 0)) as [->|Hne]; [by vm_compute|].
  assert (1 <= depositSats < 2 ^ 53) as Hx'
    by (change (2 ^ 47) with 140737488355328 in Hx;
        change (2 ^ 53) with 9007199254740992; lia).
  unfold Double.depositReturn.
  destruct (mul_const_spec depositSats (1 - Js.num PLATFORM_CUT_PERCENT / 100)
              8736983277098762 (-53) Hx')
    as (mx & a & m' & e' & m0 & n & Ha & Hmx & Hb & Hn & HM & Hres
        & Hm0 & Herr & _ & Hfloor);
    [by vm_compute|by vm_compute|lia|].
  rewrite (Math_floor_finite _ _ _ Hres), Hfloor.
  rewrite (floor_97 depositSats a (Z.pos mx) m0 n); try done; try lia.
  change (100 - PLATFORM_CUT_PERCENT) with 97.
  apply to_Z_num.
  pose proof (Z.div_mod (depositSats * 97) 100 ltac:(lia)).
  pose proof (Z.mod_pos_bound (depositSats * 97) 100 ltac:(lia)).
  change (2 ^ 53) with 9007199254740992 in *. lia.
Qed.

(** So the three formulas agree at every amount below 2^47. *)
Lemma double_agrees_below (sats : Z) : 0 <= sats < 2 ^ 47 -> Double.agrees sats = true.
Proof.
  intros Hx. unfold Double.agrees, Double.holds.
  rewrite !andb_true_iff, forallb_forall. split_and!.
  - intros piece _. apply bool_decide_eq_true. by apply captureAmount_exact.
  - apply bool_decide_eq_true. by apply platformShare_exact.
  - apply bool_decide_eq_true. by apply depositReturn_exact.
Qed.

(** C3, as stated for every base value, fails: above 2^47 the doubles can
    be off by one.  At a price of about one millionth of a dollar the Ten tier is worth 901917481169643 units, a
    number a double holds exactly; seventy percent of it is
    631342236818750.1, and the product with the double nearest to [0.7] is
    rounded to the whole number below before [Math.ceil] sees it. *)
Example double_differs_on_huge_amount :
  (centsToSats (Js.num 1000) 0x1.29a0a4a14cc53p-20 ≫= Js.to_Z) = Some 901917481169643
  ∧ 2 ^ 47 <= 901917481169643 < 2 ^ 53
  ∧ Js.to_Z (Double.captureAmount 901917481169643 Piece.b) = Some 631342236818750
  ∧ ceil_div (901917481169643 * PIECE_CAPTURE_PERCENT Piece.b) 100 = 631342236818751.
Proof. by vm_compute. Qed.

(** C4, as stated for every deposit, fails in the same way.  At a price of
    some six millionths of a dollar the deposit of the Ten tier is 174762666666667 units, 97 percent of which
    is 169519786666666.99: the product with the double nearest to [0.97] is
    rounded up to a whole number, and each seat is paid one unit more than
    the deposit less the platform's share of it, which [applyPlatformCut]
    still computes exactly. *)
Example draw_share_differs_on_doubles :
  (centsToSats (Js.num 1000) 0x1.7fffffffffff3p-18 ≫= Js.to_Z) = Some 174762666666667
  ∧ 2 ^ 47 <= 174762666666667 < 2 ^ 53
  ∧ Js.to_Z (Double.depositReturn 174762666666667) = Some 169519786666667
  ∧ Js.to_Z (Double.platformShare 174762666666667) = Some 5242880000001
  ∧ 174762666666667 - platformSats_of (applyPlatformCut 174762666666667)
    = 169519786666666.
Proof. by vm_compute. Qed.

(** ** Settlement *)

Section Settlement.
Context {Position : Type} `{!ChessEngine Position}.
Implicit Types (g : Game.t Position) (m : Mgr.t Position).


(** C4, for deposits below 2^47 units.  A draw, as [endGameDraw] settles it:
    each seat gets its own deposit less the platform cut on that deposit,
    the share [applyPlatformCut] takes of it; this is the whole number the
    source's [Math.floor (depositSats * (1 - PLATFORM_CUT_PERCENT / 100))]
    evaluates to on doubles; the payout is the same whatever the capture
    ledger holds; and the two shares and the platform cut add up to the two
    deposits. *)
Theorem endGameDraw_payout g (reason : GameEndReason) (now : Z) m :
  0 <= Game.depositSats g < 2 ^ 47 ->
  let r := fst (endGameDraw g reason now m) in
  let deposit := Game.depositSats g in
  GameOver.winner r = None
  ∧ GameOver.loser r = None
  ∧ GameOver.winnerPayout r = deposit - platformSats_of (applyPlatformCut deposit)
  ∧ GameOver.loserPayout r = deposit - platformSats_of (applyPlatformCut deposit)
  ∧ Js.to_Z (Double.depositReturn deposit) = Some (GameOver.winnerPayout r)
  ∧ Js.to_Z (Double.platformShare deposit)
    = Some (platformSats_of (applyPlatformCut deposit))
  ∧ (∀ ledger now' m',
       let r' := fst (endGameDraw (Game.set_capturePayments ledger g) reason now' m') in
       GameOver.winnerPayout r' = GameOver.winnerPayout r
       ∧ GameOver.loserPayout r' = GameOver.loserPayout r
       ∧ GameOver.platformCut r' = GameOver.platformCut r)
  ∧ 2 * GameOver.winnerPayout r + GameOver.platformCut r = 2 * deposit
  ∧ GameOver.winnerPayout r + GameOver.loserPayout r + GameOver.platformCut r
    = 2 * deposit.
Proof.
  intros Hdeposit.
  pose proof (depositReturn_exact _ Hdeposit) as Hfloor.
  pose proof (platformShare_exact _ Hdeposit) as Hceil.
  cbn. rewrite Hfloor, Hceil, floor_keep_is_ceil_cut. repeat split; lia.
Qed.

(** C2, as the code has it.  When the escrow pot of the game holds both raw
    deposits and every capture amount, the winner's payout and the platform
    cut add up to that pot less the capturer shares of the entries the loser
    captured, which go to nobody. *)
Theorem endGame_payout_against_escrow g (winner : PlayerSlot)
    (reason : GameEndReason) (now : Z) m :
  Forall wellSplit (Game.capturePayments g) ->
  Game.pot g
  = 2 * Game.depositSats g + sumZ CapturePayment.amountSats (Game.capturePayments g) ->
  let r := fst (endGame g winner reason now m) in
  GameOver.winnerPayout r + GameOver.platformCut r
  = Game.pot g
    - sumZ CapturePayment.capturerSats
           (capturedBy (opponentSlot winner) (Game.capturePayments g)).
Proof.
  intros Hsplit Hpot. cbn. rewrite !fold_left_sum, Hpot.
  pose proof (sumZ_wellSplit _ Hsplit) as Hsum.
  pose proof (sumZ_capturedBy_split CapturePayment.capturerSats winner
                (Game.capturePayments g)) as Hby.
  unfold capturedBy in *. lia.
Qed.

End Settlement.

(** A draw agreed in the Dollar game at 50 USD per coin, where the deposit
    is 2000000 units. *)
Lemma endGameDraw_payout_witness :
  Game.depositSats (Scenario.gameIn Scenario.started) = 2000000
  ∧ GameOver.winnerPayout
      (fst (endGameDraw (Scenario.gameIn Scenario.started) draw_agreement 9
              Scenario.started))
    = Game.depositSats (Scenario.gameIn Scenario.started)
      - platformSats_of
          (applyPlatformCut (Game.depositSats (Scenario.gameIn Scenario.started))).
Proof.
  assert (Game.depositSats (Scenario.gameIn Scenario.started) = 2000000) as Hdeposit
    by (by vm_compute).
  split; [exact Hdeposit|].
  refine (proj1 (proj2 (proj2 (endGameDraw_payout (Scenario.gameIn Scenario.started)
                                 draw_agreement 9 Scenario.started _)))).
  rewrite Hdeposit. split; [done|by vm_compute].
Defined.

(** ** The payout identity on a played game *)

(** C2, as stated, fails.  Black takes a pawn and then resigns: the winner's
    payout and the platform cut add up to 4412000, the pot field of the
    result is 8800000, and the escrow pot of the game is 4800000. *)
Lemma payout_and_cut_differ_from_pot :
  ∃ r, Scenario.settlement = Some r
       ∧ GameOver.winner r = Some white
       ∧ GameOver.winnerPayout r + GameOver.platformCut r = 4412000
       ∧ GameOver.pot r = 8800000
       ∧ potOf "g1" Scenario.afterCaptures = Some 4800000
       ∧ GameOver.winnerPayout r + GameOver.platformCut r ≠ GameOver.pot r.
Proof.
  eexists. split; [by vm_compute|]. by vm_compute.
Qed.

Lemma endGame_payout_against_escrow_witness :
  let g := Scenario.gameIn Scenario.afterCaptures in
  let r := fst (endGame g white resignation 9 Scenario.afterCaptures) in
  Forall wellSplit (Game.capturePayments g)
  ∧ Game.pot g
    = 2 * Game.depositSats g + sumZ CapturePayment.amountSats (Game.capturePayments g)
  ∧ GameOver.winnerPayout r + GameOver.platformCut r
    = Game.pot g
      - sumZ CapturePayment.capturerSats (capturedBy black (Game.capturePayments g)).
Proof.
  assert (Forall wellSplit
            (Game.capturePayments (Scenario.gameIn Scenario.afterCaptures))) as Hsplit.
  { vm_compute. by repeat constructor. }
  assert (Game.pot (Scenario.gameIn Scenario.afterCaptures)
          = 2 * Game.depositSats (Scenario.gameIn Scenario.afterCaptures)
            + sumZ CapturePayment.amountSats
                (Game.capturePayments (Scenario.gameIn Scenario.afterCaptures)))
    as Hpot by (by vm_compute).
  split; [exact Hsplit|]. split; [exact Hpot|].
  exact (endGame_payout_against_escrow (Scenario.gameIn Scenario.afterCaptures)
           white resignation 9 Scenario.afterCaptures Hsplit Hpot).
Defined.

(** ** What the timer bookkeeping leaves alone *)

Section Frame.
Context {Position : Type} `{!ChessEngine Position}.
Implicit Types (g : Game.t Position) (m : Mgr.t Position).

Lemma heap_clearTurnTimer id m : Mgr.heap (clearTurnTimer id m) = Mgr.heap m.
Proof. unfold clearTurnTimer. by destruct (Mgr.turnTimers m !! id). Qed.

Lemma heap_clearPauseTimer id m : Mgr.heap (clearPauseTimer id m) = Mgr.heap m.
Proof. unfold clearPauseTimer. by destruct (Mgr.pauseTimers m !! id). Qed.

Lemma heap_clearDisconnectTimer id slot m :
  Mgr.heap (clearDisconnectTimer id slot m) = Mgr.heap m.
Proof.
  unfold clearDisconnectTimer.
  by destruct (Mgr.disconnectTimers m !! disconnectKey id slot).
Qed.

Lemma heap_clearGameTimers id m : Mgr.heap (clearGameTimers id m) = Mgr.heap m.
Proof.
  unfold clearGameTimers.
  by rewrite !heap_clearDisconnectTimer, heap_clearPauseTimer, heap_clearTurnTimer.
Qed.

Lemma heap_startTurnTimer g m : Mgr.heap (startTurnTimer g m) = Mgr.heap m.
Proof. unfold startTurnTimer. cbn. apply heap_clearTurnTimer. Qed.

Lemma heap_emit n m : Mgr.heap (emit n m) = Mgr.heap m.
Proof. done. Qed.

Lemma heap_store g m : Mgr.heap (store g m) = <[Game.id g := g]> (Mgr.heap m).
Proof. reflexivity. Qed.

Lemma heap_endGame g winner reason now m :
  Mgr.heap (snd (endGame g winner reason now m))
  = <[Game.id g :=
        Game.set_pendingPayment None
          (Game.set_winner (Some winner)
             (Game.set_endReason (Some reason)
                (Game.set_endedAt (Some now) (Game.set_phase gameover g))))]>
      (Mgr.heap m).
Proof. cbn. by rewrite heap_clearGameTimers. Qed.

Lemma heap_endGameDraw g reason now m :
  Mgr.heap (snd (endGameDraw g reason now m))
  = <[Game.id g :=
        Game.set_pendingPayment None
          (Game.set_winner None
             (Game.set_endReason (Some reason)
                (Game.set_endedAt (Some now) (Game.set_phase gameover g))))]>
      (Mgr.heap m).
Proof. cbn. by rewrite heap_clearGameTimers. Qed.

Lemma id_set_player slot v g : Game.id (set_player slot v g) = Game.id g.
Proof. by destruct slot. Qed.

Lemma pot_set_player slot v g : Game.pot (set_player slot v g) = Game.pot g.
Proof. by destruct slot. Qed.

Lemma baseSats_set_player slot v g : Game.baseSats (set_player slot v g) = Game.baseSats g.
Proof. by destruct slot. Qed.

Lemma capturePayments_set_player slot v g :
  Game.capturePayments (set_player slot v g) = Game.capturePayments g.
Proof. by destruct slot. Qed.

End Frame.

(** ** Capture payments *)

Section Captures.
Context {Position : Type} `{!ChessEngine Position}.
Implicit Types (g : Game.t Position) (m : Mgr.t Position).

Lemma attemptMove_success socketId from to promotion escrowAddress now m :
  MoveResult.success (fst (attemptMove socketId from to promotion escrowAddress now m))
  = true ->
  ∃ g slot move position,
    getGameBySocket socketId m = Some g
    ∧ Game.phase g = playing
    ∧ getSlot g socketId = Some slot
    ∧ slot = currentTurn g
    ∧ chess_move (Game.chess g) from to (promotionArg promotion) = Some (move, position).
Proof.
  unfold attemptMove.
  destruct (getGameBySocket socketId m) as [g|]; [|done].
  destruct (decide (Game.phase g ≠ playing)) as [|Hph]; [done|].
  destruct (getSlot g socketId) as [slot|] eqn:Hslot; [|done].
  destruct (decide (slot ≠ currentTurn g)) as [|Hturn]; [done|].
  destruct (chess_move _ _ _ _) as [[move position]|] eqn:Hmove; [|done].
  intros _. exists g, slot, move, position.
  repeat split; try done; by apply dec_stable.
Qed.

(** C3, for base values below 2^47 units.  A successful move is made by a
    seated player of a game in phase playing and is a move the engine
    applied; when it captures a piece, the ledger gains the entry with total
    [ceil (base * percent / 100)], platform share [ceil (total * 3 / 100)]
    and capturer share their difference, and the pot grows by exactly the
    total.  These are the whole numbers that the source's
    [Math.ceil (baseSats * (percent / 100))] and
    [Math.ceil (amountSats * PLATFORM_CUT_PERCENT / 100)] evaluate to on
    doubles.  The percentages are king 100, queen 90, rook 80, bishop 70,
    knight 70, pawn 20; a pawn taken at base 100000 costs 20000, of which
    600 go to the platform and 19400 to the capturer. *)
Theorem attemptMove_capture_payment socketId from to promotion escrowAddress now m g :
  MoveResult.success (fst (attemptMove socketId from to promotion escrowAddress now m))
  = true ->
  getGameBySocket socketId m = Some g ->
  0 <= Game.baseSats g < 2 ^ 47 ->
  capturePaid socketId from to promotion m
              (snd (attemptMove socketId from to promotion escrowAddress now m))
  ∧ (∀ capturer kind,
       let entry := captureEntry (Game.baseSats g) capturer kind in
       Js.to_Z (Double.captureAmount (Game.baseSats g) kind)
       = Some (CapturePayment.amountSats entry)
       ∧ Js.to_Z (Double.platformShare (CapturePayment.amountSats entry))
         = Some (CapturePayment.platformSats entry))
  ∧ map PIECE_CAPTURE_PERCENT [Piece.k; Piece.q; Piece.r; Piece.b; Piece.n; Piece.p]
    = [100; 90; 80; 70; 70; 20]
  ∧ PLATFORM_CUT_PERCENT = 3
  ∧ (∀ capturer,
       let entry := captureEntry 100000 capturer Piece.p in
       CapturePayment.amountSats entry = 20000
       ∧ CapturePayment.platformSats entry = 600
       ∧ CapturePayment.capturerSats entry = 19400).
Proof.
  intros Hok Hfound Hbase. split; [|split; [|done]]; cycle 1.
  { intros capturer kind. cbn. split; [by apply captureAmount_exact|].
    apply platformShare_exact.
    pose proof (ceil_div_spec (Game.baseSats g * PIECE_CAPTURE_PERCENT kind) 100
                  ltac:(lia)).
    destruct kind; cbn [PIECE_CAPTURE_PERCENT] in *; lia. }
  clear g Hfound Hbase.
  destruct (attemptMove_success _ _ _ _ _ _ _ Hok)
    as (g & slot & move & position & Hg & Hph & Hslot & Hturn & Hmove).
  exists g, slot, move, position. split_and!; try done.
  intros kind Hcap entry.
  unfold attemptMove. rewrite Hg.
  destruct (decide (Game.phase g ≠ playing)) as [|_]; [done|].
  rewrite Hslot.
  destruct (decide (slot ≠ currentTurn g)) as [|_]; [done|].
  rewrite Hmove, Hcap.
  cbn -[endGame endGameDraw startTurnTimer store].
  match goal with
  | |- context [endGame ?x slot checkmate now m] => set (g4 := x)
  end.
  assert (Game.id g4 = Game.id g) as Hid by (subst g4; by destruct slot).
  assert (Game.pot g4 = Game.pot g + CapturePayment.amountSats entry) as Hpot
    by (subst g4 entry; by destruct slot).
  assert (Game.capturePayments g4 = Game.capturePayments g ++ [entry]) as Hledger
    by (subst g4 entry; by destruct slot).
  clearbody g4.
  repeat match goal with
  | |- context [if ?b then _ else _] => destruct b
  end.
  all: repeat match goal with
  | |- context [endGame ?x ?w ?r ?n ?m] =>
      let E := fresh "E" in
      pose proof (heap_endGame x w r n m) as E;
      destruct (endGame x w r n m) as [? ?]; cbn in E |- *; rewrite E
  | |- context [endGameDraw ?x ?r ?n ?m] =>
      let E := fresh "E" in
      pose proof (heap_endGameDraw x r n m) as E;
      destruct (endGameDraw x r n m) as [? ?]; cbn in E |- *; rewrite E
  end.
  all: cbn [fst snd]; try rewrite heap_startTurnTimer, heap_store;
    cbn [Game.id Game.set_turnStartedAt].
  all: rewrite <- Hid, lookup_insert_eq; eexists; split; [reflexivity|]; by cbn.
Qed.

End Captures.

(** The spec's scenario, played: at base 100000 white takes a pawn. *)
Lemma attemptMove_capture_payment_witness :
  MoveResult.success
    (fst (attemptMove "s1" "e4" "d5" None None 5 Scenario.pennyBeforeCapture)) = true
  ∧ getGameBySocket "s1" Scenario.pennyBeforeCapture
    = Some (Scenario.gameIn Scenario.pennyBeforeCapture)
  ∧ Game.baseSats (Scenario.gameIn Scenario.pennyBeforeCapture) = 100000
  ∧ capturePaid "s1" "e4" "d5" None Scenario.pennyBeforeCapture
      (snd (attemptMove "s1" "e4" "d5" None None 5 Scenario.pennyBeforeCapture)).
Proof.
  assert (MoveResult.success
            (fst (attemptMove "s1" "e4" "d5" None None 5 Scenario.pennyBeforeCapture))
          = true) as Hok by (by vm_compute).
  assert (getGameBySocket "s1" Scenario.pennyBeforeCapture
          = Some (Scenario.gameIn Scenario.pennyBeforeCapture)) as Hg
    by (by vm_compute).
  assert (Game.baseSats (Scenario.gameIn Scenario.pennyBeforeCapture) = 100000) as Hbase
    by (by vm_compute).
  split; [exact Hok|]. split; [exact Hg|]. split; [exact Hbase|].
  refine (proj1 (attemptMove_capture_payment "s1" "e4" "d5" None None 5
                   Scenario.pennyBeforeCapture _ Hok Hg _)).
  rewrite Hbase. split; [done|by vm_compute].
Defined.

Example pawn_capture_at_base_100000 :
  let m' := snd (attemptMove "s1" "e4" "d5" None None 5 Scenario.pennyBeforeCapture) in
  potOf "g1" Scenario.pennyBeforeCapture = Some 200000
  ∧ potOf "g1" m' = Some 220000
  ∧ (Game.capturePayments <$> Mgr.heap m' !! "g1")
    = Some [captureEntry 100000 white Piece.p].
Proof. by vm_compute. Qed.

(** ** Timer expiry *)

Section Expiry.
Context {Position : Type} `{!ChessEngine Position}.
Implicit Types (g : Game.t Position) (m : Mgr.t Position).

Lemma phaseOf_Some id m ph :
  phaseOf id m = Some ph -> ∃ g, Mgr.heap m !! id = Some g ∧ Game.phase g = ph.
Proof.
  unfold phaseOf. destruct (Mgr.heap m !! id) as [g|]; [|done].
  intros [= <-]. by exists g.
Qed.

Lemma games_get_heap id m g : games_get id m = Some g -> Mgr.heap m !! id = Some g.
Proof. unfold games_get. by case_decide. Qed.

(** The turn-clock callback acts in phase playing only, the pause-clock
    callback in phase paused only, the grace-clock callback on a registered
    game that is not over and whose seat is still disconnected. *)
Lemma onTurnExpiry_guard id now m :
  phaseOf id m ≠ Some playing -> onTurnExpiry id now m = (None, m).
Proof.
  unfold onTurnExpiry, phaseOf. destruct (Mgr.heap m !! id) as [g|]; [|done].
  cbn. intros Hph. case_decide; [done|]. destruct Hph. by f_equal.
Qed.

Lemma onPauseExpiry_guard id forSlot now m :
  phaseOf id m ≠ Some paused -> onPauseExpiry id forSlot now m = (None, m).
Proof.
  unfold onPauseExpiry, phaseOf. destruct (Mgr.heap m !! id) as [g|]; [|done].
  cbn. intros Hph. case_decide; [done|]. destruct Hph. by f_equal.
Qed.

Lemma onDisconnectExpiry_guard id slot opponent now m :
  phaseOf id m = Some gameover -> onDisconnectExpiry id slot opponent now m = (None, m).
Proof.
  intros (g & Hg & Hph)%phaseOf_Some. unfold onDisconnectExpiry.
  destruct (games_get id m) as [g'|] eqn:Hget; [|done].
  apply games_get_heap in Hget. assert (g' = g) as -> by congruence.
  by case_decide.
Qed.

(** C7.  A timer that fires on a game that is already over does nothing:
    whichever of the three callbacks runs, the manager is left as it was,
    no settlement is computed and no callback of the socket layer is
    called; the host only drops the fired timeout from its pending set. *)
Theorem expiry_after_gameover (task : TimerTask) (now : Z) m :
  phaseOf (taskGame task) m = Some gameover ->
  onExpiry task now m = (None, m)
  ∧ ∀ t, Mgr.pending m !! t = Some task ->
         fireTimeout t now m = (None, clearTimeout t m).
Proof.
  assert (∀ m', phaseOf (taskGame task) m' = Some gameover ->
                onExpiry task now m' = (None, m')) as Hidle.
  { intros m' Hover. destruct task as [id|id forSlot|id slot opponent]; cbn in *.
    - apply onTurnExpiry_guard. by rewrite Hover.
    - apply onPauseExpiry_guard. by rewrite Hover.
    - by apply onDisconnectExpiry_guard. }
  intros Hover. split; [by apply Hidle|].
  intros t Ht. unfold fireTimeout. rewrite Ht. by apply Hidle.
Qed.

End Expiry.

(** After black's resignation the turn clock of the game, had it still been
    pending, would find the game over. *)
Lemma expiry_after_gameover_witness :
  phaseOf "g1" (snd Scenario.blackResigns) = Some gameover
  ∧ onExpiry (TurnExpiry "g1") 10 (snd Scenario.blackResigns)
    = (None, snd Scenario.blackResigns).
Proof.
  assert (phaseOf "g1" (snd Scenario.blackResigns) = Some gameover) as Hover
    by (by vm_compute).
  split; [exact Hover|].
  exact (proj1 (expiry_after_gameover (TurnExpiry "g1") 10
                  (snd Scenario.blackResigns) Hover)).
Defined.

(** ** Draws by agreement *)

Section Draws.
Context {Position : Type} `{!ChessEngine Position}.
Implicit Types (g : Game.t Position) (m : Mgr.t Position).

(** C10.  [acceptDraw] succeeds exactly when the caller's connection is bound
    to a game in phase playing, and then ends that game as a draw by
    agreement; [offerDraw] leaves the manager as it found it, so no offer is
    on record and accepting needs none. *)
Theorem acceptDraw_needs_no_offer (socketId : string) (now : Z) m :
  (DrawAccept.success (fst (acceptDraw socketId now m)) = true
   ↔ ∃ g, getGameBySocket socketId m = Some g ∧ Game.phase g = playing)
  ∧ (∀ g, getGameBySocket socketId m = Some g -> Game.phase g = playing ->
       ∃ r, DrawAccept.result (fst (acceptDraw socketId now m)) = Some r
            ∧ r = fst (endGameDraw g draw_agreement now m)
            ∧ GameOver.reason r = draw_agreement
            ∧ GameOver.winner r = None
            ∧ phaseOf (Game.id g) (snd (acceptDraw socketId now m)) = Some gameover
            ∧ (Game.endReason <$> Mgr.heap (snd (acceptDraw socketId now m)) !! Game.id g)
              = Some (Some draw_agreement))
  ∧ (∀ offerer, snd (offerDraw offerer m) = m)
  ∧ (∀ offerer,
       acceptDraw socketId now (snd (offerDraw offerer m)) = acceptDraw socketId now m).
Proof.
  assert (∀ offerer, snd (offerDraw offerer m) = m) as Hoffer.
  { intros offerer. unfold offerDraw.
    destruct (getGameBySocket offerer m) as [g|]; [|done].
    case_decide; [done|]. by destruct (getSlot g offerer). }
  split_and!.
  - unfold acceptDraw. destruct (getGameBySocket socketId m) as [g|].
    + case_decide as Hph; cbn.
      * split; [done|]. by intros (g' & [= <-] & ?).
      * split; [|done]. intros _. by exists g.
    + cbn. split; [done|]. by intros (g' & ? & _).
  - intros g Hg Hph. unfold acceptDraw, phaseOf. rewrite Hg.
    case_decide; [done|]. cbn. rewrite heap_clearGameTimers. cbn.
    rewrite lookup_insert_eq. by eexists.
  - done.
  - intros offerer. by rewrite Hoffer.
Qed.

End Draws.

(** The started game ends in a draw on [acceptDraw] although nobody offered
    one. *)
Example acceptDraw_without_offer :
  DrawAccept.success (fst (acceptDraw "s2" 3 Scenario.started)) = true
  ∧ (GameOver.reason <$> DrawAccept.result (fst (acceptDraw "s2" 3 Scenario.started)))
    = Some draw_agreement
  ∧ phaseOf "g1" (snd (acceptDraw "s2" 3 Scenario.started)) = Some gameover.
Proof. by vm_compute. Qed.

(** ** Deposit confirmation *)

Section Deposits.
Context {Position : Type} `{!ChessEngine Position}.
Implicit Types (g : Game.t Position) (m : Mgr.t Position).

(** [confirmWagerPayment] has one failure only, an unknown game: on a
    registered game it reports success and adds the deposit to the pot,
    whatever the phase and whether or not the seat had confirmed before. *)
Lemma confirmWagerPayment_registered gameId slot txid now m g :
  games_get gameId m = Some g ->
  ConfirmResult.success (fst (confirmWagerPayment gameId slot txid now m)) = true
  ∧ potOf (Game.id g) (snd (confirmWagerPayment gameId slot txid now m))
    = Some (Game.pot g + Game.depositSats g).
Proof.
  intros Hg. unfold confirmWagerPayment, potOf. rewrite Hg.
  destruct (_ && _); cbn [fst snd ConfirmResult.success]; (split; [done|]).
  - rewrite heap_startTurnTimer, heap_store. cbn.
    rewrite id_set_player, lookup_insert_eq. cbn.
    by rewrite pot_set_player; destruct slot.
  - rewrite heap_store. cbn. rewrite id_set_player, lookup_insert_eq. cbn.
    by rewrite pot_set_player; destruct slot.
Qed.

End Deposits.

(** C6 at its failing inputs.  A seat that has already confirmed is
    confirmed again: the call succeeds and the pot takes the deposit a second
    time.  A game that is over takes a confirmation: the call succeeds, the
    pot grows, and since both seats now count as paid the game goes back to
    phase playing with a turn clock running. *)
Theorem confirmWagerPayment_is_not_guarded :
  (potOf "g1" (step (OpConfirmWager "g1" white "tx1") 1 Scenario.created) = Some 2000000
   ∧ ConfirmResult.success
       (fst (confirmWagerPayment "g1" white "tx1" 2
               (step (OpConfirmWager "g1" white "tx1") 1 Scenario.created))) = true
   ∧ potOf "g1" Scenario.whitePaidTwice = Some 4000000
   ∧ phaseOf "g1" Scenario.whitePaidTwice = Some awaiting_wagers
   ∧ (Player.wagerPaid ∘ Game.black <$> Mgr.heap Scenario.whitePaidTwice !! "g1")
     = Some false)
  ∧ (phaseOf "g1" Scenario.abandoned = Some gameover
     ∧ fst Scenario.lateConfirm
       = {| ConfirmResult.success := true; ConfirmResult.bothPaid := true;
            ConfirmResult.error := None |}
     ∧ phaseOf "g1" (snd Scenario.lateConfirm) = Some playing
     ∧ Mgr.pending (snd Scenario.lateConfirm) !! 0%nat = Some (TurnExpiry "g1")).
Proof. by vm_compute. Qed.

(** C5 at its failing input.  The game is over with one deposit in the pot;
    the late confirmation of the other deposit then raises the pot. *)
Theorem pot_changes_after_gameover :
  phaseOf "g1" Scenario.abandoned = Some gameover
  ∧ potOf "g1" Scenario.abandoned = Some 2000000
  ∧ potOf "g1" (step (OpConfirmWager "g1" white "tx1") 3 Scenario.abandoned)
    = Some 4000000.
Proof. by vm_compute. Qed.

(** ** The pot under every operation *)

Section Pot.
Context {Position : Type} `{!ChessEngine Position}.
Implicit Types (g : Game.t Position) (m : Mgr.t Position).

Lemma games_get_sound id m g :
  heapSound m -> games_get id m = Some g -> Mgr.heap m !! Game.id g = Some g.
Proof.
  intros Hs Hg%games_get_heap. by destruct (Hs _ _ Hg) as (-> & _).
Qed.

Lemma getGameBySocket_sound sid m g :
  heapSound m -> getGameBySocket sid m = Some g -> Mgr.heap m !! Game.id g = Some g.
Proof.
  unfold getGameBySocket. intros Hs.
  destruct (Mgr.playerToGame m !! sid) as [id|]; [|done].
  case_decide; [done|]. by apply games_get_sound.
Qed.

Lemma heap_lookup_sound id m g :
  heapSound m -> Mgr.heap m !! id = Some g -> Mgr.heap m !! Game.id g = Some g.
Proof. intros Hs Hg. by destruct (Hs _ _ Hg) as (-> & _). Qed.

Ltac heap_simpl :=
  repeat first
    [ rewrite heap_startTurnTimer | rewrite heap_clearGameTimers
    | rewrite heap_clearTurnTimer | rewrite heap_clearPauseTimer
    | rewrite heap_clearDisconnectTimer | rewrite heap_emit | rewrite heap_store
    | rewrite insert_insert_eq ].

(** Closes the side goals of [gameMove] and [gameKeeps]. *)
Ltac game_move :=
  repeat split; cbn; try done; try lia; try (by apply prefix_app_r);
  try (repeat match goal with s : PlayerSlot |- _ => destruct s end;
       cbn; (done || lia)).

(** In a touched manager the game is found with its new value. *)
Lemma touches_pot change m m' id g :
  heapSound m -> touches change m m' -> Mgr.heap m !! id = Some g ->
  ∃ g', Mgr.heap m' !! id = Some g' ∧ (g' = g ∨ change g g').
Proof.
  intros Hs [Heq|(g0 & g0' & Hg0 & Heq & Hch)] Hg; rewrite Heq.
  - exists g. by split; [|left].
  - destruct (decide (id = Game.id g0)) as [->|Hne].
    + exists g0'. rewrite lookup_insert_eq. split; [done|]. right. congruence.
    + exists g. rewrite lookup_insert_ne by done. by split; [|left].
Qed.

Lemma touches_endGame op g winner reason now m :
  heapSound m -> Mgr.heap m !! Game.id g = Some g ->
  touches (gameMove op) m (snd (endGame g winner reason now m)).
Proof.
  intros Hs Hg. right. eexists g, _. split; [done|].
  split; [by rewrite heap_endGame|]. game_move.
Qed.

Lemma touches_endGameDraw op g reason now m :
  heapSound m -> Mgr.heap m !! Game.id g = Some g ->
  touches (gameMove op) m (snd (endGameDraw g reason now m)).
Proof.
  intros Hs Hg. right. eexists g, _. split; [done|].
  split; [by rewrite heap_endGameDraw|]. game_move.
Qed.

Lemma touches_confirmWagerPayment gameId slot txid now m :
  heapSound m ->
  touches (gameMove (OpConfirmWager gameId slot txid)) m
          (snd (confirmWagerPayment gameId slot txid now m)).
Proof.
  intros Hs. unfold confirmWagerPayment.
  destruct (games_get gameId m) as [g|] eqn:Hg; [|by left].
  pose proof (games_get_sound _ _ _ Hs Hg) as Hheap.
  destruct (Hs _ _ Hheap) as (_ & Hdep & _).
  right. exists g.
  destruct (_ && _); cbn [snd]; eexists; (split; [done|]); heap_simpl;
    (split; [by destruct slot|]); destruct slot; game_move.
Qed.

Lemma touches_attemptMove socketId from to promotion escrowAddress now m :
  heapSound m ->
  touches (gameMove (OpAttemptMove socketId from to promotion)) m
          (snd (attemptMove socketId from to promotion escrowAddress now m)).
Proof.
  intros Hs. unfold attemptMove.
  destruct (getGameBySocket socketId m) as [g|] eqn:Hg; [|by left].
  pose proof (getGameBySocket_sound _ _ _ Hs Hg) as Hheap.
  destruct (Hs _ _ Hheap) as (_ & _ & Hbase).
  case_decide as Hph; [by left|]. destruct (getSlot g socketId) as [slot|]; [|by left].
  case_decide; [by left|].
  destruct (chess_move _ _ _ _) as [[move position]|]; [|by left].
  assert (Game.phase g ≠ gameover) as Hlive by (by rewrite Hph).
  assert (∀ kind, 0 <= ceil_div (Game.baseSats g * PIECE_CAPTURE_PERCENT kind) 100)
    as Hamount.
  { intros kind. apply ceil_div_nonneg; [lia|]. destruct kind; cbn; lia. }
  right. exists g.
  destruct (ChessMove.captured move) as [kind|];
    cbn -[endGame endGameDraw startTurnTimer store];
    match goal with
    | |- context [endGame ?x slot checkmate now m] => set (g4 := x)
    end;
    (assert (sameStakes g g4) as (Hid & Hdep' & Hbase') by (subst g4; by destruct slot));
    (assert (Game.pot g <= Game.pot g4) as Hpot
       by (subst g4; destruct slot; cbn; first [lia | specialize (Hamount kind); lia]));
    (assert (Game.phase g4 = Game.phase g) as Hphase by (subst g4; by destruct slot));
    (assert (Forall wellSplit (Game.capturePayments g) ->
             Forall wellSplit (Game.capturePayments g4)) as Hledger
       by (subst g4; destruct slot; cbn; try done; intros Hold;
           (apply Forall_app; split; [done|]); repeat constructor;
           unfold wellSplit; cbn; lia));
    (assert (gameKeeps g g4) as (Htier & Hentries & Hhistory & Hseats)
       by (subst g4; destruct slot; game_move));
    clearbody g4;
    repeat match goal with
    | |- context [if ?b then _ else _] => destruct b
    end;
    repeat match goal with
    | |- context [endGame ?x ?w ?r ?n ?m0] =>
        let E := fresh "E" in
        pose proof (heap_endGame x w r n m0) as E;
        destruct (endGame x w r n m0) as [? ?]; cbn [fst snd] in E |- *
    | |- context [endGameDraw ?x ?r ?n ?m0] =>
        let E := fresh "E" in
        pose proof (heap_endGameDraw x r n m0) as E;
        destruct (endGameDraw x r n m0) as [? ?]; cbn [fst snd] in E |- *
    end;
    cbn [fst snd]; try (rewrite heap_startTurnTimer, heap_store);
    cbn [Game.id Game.set_turnStartedAt] in *; rewrite Hid in *;
    eexists; (split; [done|]); (split; [first [eassumption | reflexivity]|]);
    repeat split; cbn; rewrite ?Hphase; try done; try congruence;
    match goal with
    | seat : PlayerSlot |- _ =>
        by (destruct (Hseats seat) as (? & ? & ? & ? & ?); auto)
    end.
Qed.

Lemma touches_pauseForFunds gameId g forSlot amountNeeded reason now m :
  heapSound m -> Mgr.heap m !! Game.id g = Some g ->
  touches (gameMove (OpPauseForFunds gameId forSlot amountNeeded reason)) m
          (pauseForFunds g forSlot amountNeeded reason now m).
Proof.
  intros Hs Hg. right. eexists g, _. split; [done|]. unfold pauseForFunds. cbn.
  rewrite heap_clearTurnTimer. split; [done|]. game_move.
Qed.

Lemma touches_handleDisconnect socketId now m :
  heapSound m ->
  touches (gameMove (OpDisconnect socketId)) m (snd (handleDisconnect socketId now m)).
Proof.
  intros Hs. unfold handleDisconnect.
  destruct (getGameBySocket socketId m) as [g|] eqn:Hg; [|by left].
  pose proof (getGameBySocket_sound _ _ _ Hs Hg) as Hheap.
  case_decide; [by left|]. destruct (getSlot g socketId) as [slot|]; [|by left].
  right. exists g.
  case_decide; cbn [snd]; eexists; (split; [done|]); cbn; heap_simpl;
    rewrite ?id_set_player; heap_simpl; (split; [done|]); destruct slot; game_move.
Qed.

Lemma touches_handleReconnect socketId gameId address now m :
  heapSound m ->
  touches (gameMove (OpReconnect socketId gameId address)) m
          (snd (handleReconnect socketId gameId address now m)).
Proof.
  intros Hs. unfold handleReconnect.
  destruct (games_get gameId m) as [g|] eqn:Hg; [|by left].
  pose proof (games_get_sound _ _ _ Hs Hg) as Hheap.
  case_decide; [by left|].
  destruct (if decide (Player.address (Game.white g) = address) then Some white
            else if decide (Player.address (Game.black g) = address) then Some black
            else None) as [slot|]; [|by left].
  right. exists g.
  case_decide; cbn [snd]; eexists; (split; [done|]); cbn; heap_simpl;
    rewrite ?id_set_player; cbn; heap_simpl; rewrite ?id_set_player; heap_simpl;
    (split; [done|]); destruct slot; game_move.
Qed.

Lemma touches_onExpiry t task now m :
  heapSound m -> touches (gameMove (OpFire t)) m (snd (onExpiry task now m)).
Proof.
  intros Hs. destruct task as [id|id forSlot|id slot opponent]; cbn [onExpiry].
  - unfold onTurnExpiry. destruct (Mgr.heap m !! id) as [g|] eqn:Hg; [|by left].
    case_decide; [by left|].
    pose proof (touches_endGame (OpFire t) g (opponentSlot (currentTurn g)) timeout now m
                  Hs (heap_lookup_sound _ _ _ Hs Hg)).
    by destruct (endGame _ _ _ _ _).
  - unfold onPauseExpiry. destruct (Mgr.heap m !! id) as [g|] eqn:Hg; [|by left].
    case_decide; [by left|].
    pose proof (touches_endGame (OpFire t) g (opponentSlot forSlot) insufficient_funds
                  now m Hs (heap_lookup_sound _ _ _ Hs Hg)).
    by destruct (endGame _ _ _ _ _).
  - unfold onDisconnectExpiry. destruct (games_get id m) as [g|] eqn:Hg; [|by left].
    case_decide; [by left|]. destruct (negb _); [|by left].
    pose proof (touches_endGame (OpFire t) g opponent disconnect now m
                  Hs (games_get_sound _ _ _ Hs Hg)).
    by destruct (endGame _ _ _ _ _).
Qed.

Lemma heap_removeGame id m : Mgr.heap (removeGame id m) = Mgr.heap m.
Proof.
  unfold removeGame. destruct (games_get id m); [|done]. cbn.
  rewrite heap_clearGameTimers. unfold unbindSocket. by repeat case_decide.
Qed.

(** Every operation on existing games changes at most one game, keeps its
    identity and stakes, never lowers its pot, and, unless it is
    [confirmWagerPayment], leaves the pot of a game that is over as it is. *)
Lemma step_touches op now m :
  heapSound m -> notCreate op -> touches (gameMove op) m (step op now m).
Proof.
  intros Hs Hop. destruct op; cbn [step]; try done.
  - unfold requestWagerPayment. destruct (games_get _ _) as [g|] eqn:Hg; [|by left].
    case_decide; [by left|]. destruct (Player.wagerPaid _); [by left|].
    right. eexists g, _. split; [by eapply games_get_sound|]. split; [done|]. game_move.
  - by apply touches_confirmWagerPayment.
  - by apply touches_attemptMove.
  - left. unfold offerDraw. destruct (getGameBySocket _ _) as [g|]; [|done].
    case_decide; [done|]. by destruct (getSlot _ _).
  - unfold acceptDraw. destruct (getGameBySocket _ _) as [g|] eqn:Hg; [|by left].
    case_decide; [by left|].
    pose proof (touches_endGameDraw (OpAcceptDraw socketId) g draw_agreement now m Hs
                  (getGameBySocket_sound _ _ _ Hs Hg)).
    by destruct (endGameDraw _ _ _ _).
  - unfold resign. destruct (getGameBySocket _ _) as [g|] eqn:Hg; [|by left].
    case_decide; [by left|]. destruct (getSlot _ _) as [slot|]; [|by left].
    pose proof (touches_endGame (OpResign socketId) g (opponentSlot slot) resignation
                  now m Hs (getGameBySocket_sound _ _ _ Hs Hg)).
    by destruct (endGame _ _ _ _ _).
  - unfold withGame. destruct (Mgr.heap m !! gameId) as [g|] eqn:Hg; [|by left].
    apply touches_endGame; [done|]. by eapply heap_lookup_sound.
  - unfold withGame. destruct (Mgr.heap m !! gameId) as [g|] eqn:Hg; [|by left].
    apply touches_endGameDraw; [done|]. by eapply heap_lookup_sound.
  - unfold withGame. destruct (Mgr.heap m !! gameId) as [g|] eqn:Hg; [|by left].
    apply touches_pauseForFunds; [done|]. by eapply heap_lookup_sound.
  - by apply touches_handleDisconnect.
  - by apply touches_handleReconnect.
  - unfold fireTimeout. destruct (Mgr.pending m !! t) as [task|]; [|by left].
    by apply (touches_onExpiry t task now (clearTimeout t m)).
  - left. apply heap_removeGame.
Qed.

Lemma step_heapSound op now m :
  heapSound m -> notCreate op -> heapSound (step op now m).
Proof.
  intros Hs Hop id g' Hg'.
  destruct (step_touches op now m Hs Hop) as [Heq|(g0 & g0' & Hg0 & Heq & Hch)];
    rewrite Heq in Hg'; [by apply Hs|].
  apply lookup_insert_Some in Hg' as [[<- <-]|[_ Hg']]; [|by apply Hs].
  destruct Hch as ((Hid & Hdep & Hbase) & _). destruct (Hs _ _ Hg0) as (_ & ? & ?).
  rewrite Hid, Hdep, Hbase. done.
Qed.

(** What does hold of the pot: an operation never lowers the pot of a game,
    and the pot of a game that is over is changed by no operation other
    than [confirmWagerPayment]. *)
Lemma step_pot op now m id g :
  heapSound m -> notCreate op -> Mgr.heap m !! id = Some g ->
  ∃ g', Mgr.heap (step op now m) !! id = Some g'
        ∧ Game.pot g <= Game.pot g'
        ∧ (notConfirm op -> Game.phase g = gameover -> Game.pot g' = Game.pot g).
Proof.
  intros Hs Hop Hg.
  destruct (touches_pot _ _ _ _ _ Hs (step_touches op now m Hs Hop) Hg)
    as (g' & Hg' & Hcases).
  exists g'. split; [done|]. by destruct Hcases as [->|(_ & Hle & Hfrozen & _)].
Qed.

(** Ledger entries split their amount: the entries [attemptMove] adds do,
    and no operation rewrites an entry. *)
Lemma step_ledger op now m id g :
  heapSound m -> notCreate op -> Mgr.heap m !! id = Some g ->
  Forall wellSplit (Game.capturePayments g) ->
  ∃ g', Mgr.heap (step op now m) !! id = Some g'
        ∧ Forall wellSplit (Game.capturePayments g').
Proof.
  intros Hs Hop Hg Hsplit.
  destruct (touches_pot _ _ _ _ _ Hs (step_touches op now m Hs Hop) Hg)
    as (g' & Hg' & Hcases).
  exists g'. split; [done|].
  destruct Hcases as [->|(_ & _ & _ & _ & Hledger & _)]; [done|]. by apply Hledger.
Qed.

(** X2.  Through any sequence of operations on existing games a game stays
    in the heap and its pot never goes down. *)
Lemma run_pot ops m id g :
  heapSound m -> Forall (fun '(op, _) => notCreate op) ops ->
  Mgr.heap m !! id = Some g ->
  ∃ g', Mgr.heap (run ops m) !! id = Some g' ∧ Game.pot g <= Game.pot g'.
Proof.
  intros Hs Hops. revert m g Hs.
  induction Hops as [|[op now] ops Hop _ IH]; intros m g Hs Hg; cbn.
  - by exists g.
  - destruct (step_pot op now m id g Hs Hop Hg) as (g1 & Hg1 & Hle & _).
    destruct (IH _ g1 (step_heapSound op now m Hs Hop) Hg1) as (g' & Hg' & Hle').
    exists g'. split; [done|]. lia.
Qed.

(** What does hold of the deposit phase.  A confirmation received in it
    starts play exactly when both seats have confirmed by then; and no
    operation takes a game back to the deposit phase, so play starts from
    it once at most. *)
Lemma confirm_starts_play_iff gameId slot txid now m g :
  games_get gameId m = Some g -> Game.phase g = awaiting_wagers ->
  ∃ g', Mgr.heap (snd (confirmWagerPayment gameId slot txid now m)) !! Game.id g
        = Some g'
        ∧ (Game.phase g' = playing
           ↔ Player.wagerPaid (Game.white g') = true
             ∧ Player.wagerPaid (Game.black g') = true).
Proof.
  intros Hg Hph. unfold confirmWagerPayment. rewrite Hg.
  destruct slot; (destruct (_ && _) eqn:Hboth); cbn [snd]; heap_simpl; cbn;
    rewrite lookup_insert_eq; (eexists; split; [done|]); cbn in *;
    rewrite ?andb_true_r in Hboth; rewrite ?Hph, ?Hboth; intuition congruence.
Qed.

Lemma step_never_reopens_deposits op now m id g :
  heapSound m -> notCreate op -> Mgr.heap m !! id = Some g ->
  Game.phase g ≠ awaiting_wagers ->
  ∃ g', Mgr.heap (step op now m) !! id = Some g' ∧ Game.phase g' ≠ awaiting_wagers.
Proof.
  intros Hs Hop Hg Hph.
  destruct (touches_pot _ _ _ _ _ Hs (step_touches op now m Hs Hop) Hg)
    as (g' & Hg' & Hcases).
  exists g'. split; [done|]. destruct Hcases as [->|(_ & _ & _ & Hback & _)]; [done|].
  intros Hawait. by apply Hph, Hback.
Qed.

End Pot.

(** ** One timer per key *)

Section Clocks.
Context {Position : Type} `{!ChessEngine Position}.
Implicit Types (g : Game.t Position) (m : Mgr.t Position).

Lemma tracked_empty : clocksTracked (empty_manager (Position := Position)).
Proof.
  split_and!; intros t; intros; cbn in *;
    try match goal with H : is_Some _ |- _ => destruct H end; by simplify_map_eq.
Qed.

Lemma tracked_store g m : clocksTracked m -> clocksTracked (store g m).
Proof. done. Qed.

Lemma tracked_emit n m : clocksTracked m -> clocksTracked (emit n m).
Proof. done. Qed.

Lemma tracked_clearTimeout t m : clocksTracked m -> clocksTracked (clearTimeout t m).
Proof.
  intros (Hturn & Hgrace & Hfresh). split_and!.
  - intros t' id Ht'. cbn in *. apply lookup_delete_Some in Ht' as [_ Ht']. by eauto.
  - intros t' id slot opp Ht'. cbn in *. apply lookup_delete_Some in Ht' as [_ Ht']. by eauto.
  - intros t' [task Ht']. cbn in *. apply lookup_delete_Some in Ht' as [_ Ht']. by eauto.
Qed.

Lemma tracked_clearTurnTimer id m : clocksTracked m -> clocksTracked (clearTurnTimer id m).
Proof.
  intros (Hturn & Hgrace & Hfresh). unfold clearTurnTimer.
  destruct (Mgr.turnTimers m !! id) as [t|] eqn:Hrec; [|done]. split_and!.
  - intros t' id' Ht'. cbn in *. apply lookup_delete_Some in Ht' as [Hne Ht'].
    apply Hturn in Ht'. rewrite lookup_delete_ne; [done|]. congruence.
  - intros t' id' slot opp Ht'. cbn in *. apply lookup_delete_Some in Ht' as [_ Ht']. by eauto.
  - intros t' [task Ht']. cbn in *. apply lookup_delete_Some in Ht' as [_ Ht']. by eauto.
Qed.

Lemma tracked_clearPauseTimer id m : clocksTracked m -> clocksTracked (clearPauseTimer id m).
Proof.
  intros (Hturn & Hgrace & Hfresh). unfold clearPauseTimer.
  destruct (Mgr.pauseTimers m !! id) as [t|] eqn:Hrec; [|done]. split_and!.
  - intros t' id' Ht'. cbn in *. apply lookup_delete_Some in Ht' as [_ Ht']. by eauto.
  - intros t' id' slot opp Ht'. cbn in *. apply lookup_delete_Some in Ht' as [_ Ht']. by eauto.
  - intros t' [task Ht']. cbn in *. apply lookup_delete_Some in Ht' as [_ Ht']. by eauto.
Qed.

Lemma tracked_clearDisconnectTimer id slot m :
  clocksTracked m -> clocksTracked (clearDisconnectTimer id slot m).
Proof.
  intros (Hturn & Hgrace & Hfresh). unfold clearDisconnectTimer.
  destruct (Mgr.disconnectTimers m !! disconnectKey id slot) as [t|] eqn:Hrec; [|done].
  split_and!.
  - intros t' id' Ht'. cbn in *. apply lookup_delete_Some in Ht' as [_ Ht']. by eauto.
  - intros t' id' slot' opp Ht'. cbn in *. apply lookup_delete_Some in Ht' as [Hne Ht'].
    apply Hgrace in Ht'. rewrite lookup_delete_ne; [done|]. congruence.
  - intros t' [task Ht']. cbn in *. apply lookup_delete_Some in Ht' as [_ Ht']. by eauto.
Qed.

Lemma tracked_clearGameTimers id m : clocksTracked m -> clocksTracked (clearGameTimers id m).
Proof.
  intros Hm. unfold clearGameTimers.
  by repeat first [apply tracked_clearDisconnectTimer | apply tracked_clearPauseTimer
                  | apply tracked_clearTurnTimer].
Qed.

Lemma turnTimers_clearTurnTimer id m : Mgr.turnTimers (clearTurnTimer id m) !! id = None.
Proof.
  unfold clearTurnTimer. destruct (Mgr.turnTimers m !! id) eqn:Hrec; [|done].
  cbn. by rewrite lookup_delete_eq.
Qed.

Lemma disconnectTimers_clearDisconnectTimer id slot m :
  Mgr.disconnectTimers (clearDisconnectTimer id slot m) !! disconnectKey id slot = None.
Proof.
  unfold clearDisconnectTimer.
  destruct (Mgr.disconnectTimers m !! disconnectKey id slot) eqn:Hrec; [|done].
  cbn. by rewrite lookup_delete_eq.
Qed.

(** The turn clock: [startTurnTimer] cancels the timer on record
    before it starts the new one, and so keeps every pending turn-clock
    timeout on record. *)
Lemma tracked_startTurnTimer g m : clocksTracked m -> clocksTracked (startTurnTimer g m).
Proof.
  intros Hm. pose proof (turnTimers_clearTurnTimer (Game.id g) m) as Hnone.
  apply (tracked_clearTurnTimer (Game.id g)) in Hm as (Hturn & Hgrace & Hfresh).
  unfold startTurnTimer. cbn. set (m1 := clearTurnTimer (Game.id g) m) in *.
  clearbody m1.
  split_and!.
  - intros t id Ht. cbn in *. apply lookup_insert_Some in Ht as [[<- [= <-]]|[Hne Ht]].
    + by rewrite lookup_insert_eq.
    + apply Hturn in Ht. rewrite lookup_insert_ne; [done|]. congruence.
  - intros t id slot opp Ht. cbn in *.
    apply lookup_insert_Some in Ht as [[_ [=]]|[_ Ht]]. by eapply Hgrace.
  - intros t [task Ht]. cbn in *. apply lookup_insert_Some in Ht as [[<- _]|[_ Ht]]; [lia|].
    assert (t < Mgr.nextTimeout m1)%nat by (apply Hfresh; eauto). lia.
Qed.

(** The funds-pause clock is started without such a cancellation; the turn
    and grace clocks are not affected by it. *)
Lemma tracked_pauseForFunds g forSlot amountNeeded reason now m :
  clocksTracked m -> clocksTracked (pauseForFunds g forSlot amountNeeded reason now m).
Proof.
  intros Hm. unfold pauseForFunds. cbn.
  set (g4 := Game.set_pauseReason _ _).
  assert (clocksTracked (clearTurnTimer (Game.id g) (store g4 m)))
    as (Hturn & Hgrace & Hfresh) by by apply tracked_clearTurnTimer, tracked_store.
  set (m1 := clearTurnTimer (Game.id g) (store g4 m)) in *. clearbody m1.
  split_and!.
  - intros t id Ht. cbn in *. apply lookup_insert_Some in Ht as [[_ [=]]|[_ Ht]].
    by apply Hturn.
  - intros t id slot opp Ht. cbn in *.
    apply lookup_insert_Some in Ht as [[_ [=]]|[_ Ht]]. by eapply Hgrace.
  - intros t [task Ht]. cbn in *. apply lookup_insert_Some in Ht as [[<- _]|[_ Ht]]; [lia|].
    assert (t < Mgr.nextTimeout m1)%nat by (apply Hfresh; eauto). lia.
Qed.

Lemma tracked_endGame g winner reason now m :
  clocksTracked m -> clocksTracked (snd (endGame g winner reason now m)).
Proof. intros Hm. cbn. by apply tracked_clearGameTimers, tracked_store. Qed.

Lemma tracked_endGameDraw g reason now m :
  clocksTracked m -> clocksTracked (snd (endGameDraw g reason now m)).
Proof. intros Hm. cbn. by apply tracked_clearGameTimers, tracked_store. Qed.


(** Bookkeeping that touches neither the timeouts nor the turn and grace
    records keeps the invariant. *)
Lemma tracked_same m m' :
  Mgr.pending m' = Mgr.pending m ->
  Mgr.turnTimers m' = Mgr.turnTimers m ->
  Mgr.disconnectTimers m' = Mgr.disconnectTimers m ->
  Mgr.nextTimeout m' = Mgr.nextTimeout m ->
  clocksTracked m -> clocksTracked m'.
Proof.
  unfold clocksTracked, turnTracked, graceTracked, handlesFresh.
  by intros -> -> -> ->.
Qed.

(** The grace clock: [handleDisconnect] cancels the seat's timer on
    record before it starts the new one. *)
Lemma tracked_handleDisconnect socketId now m :
  clocksTracked m -> clocksTracked (snd (handleDisconnect socketId now m)).
Proof.
  intros Hm. unfold handleDisconnect.
  destruct (getGameBySocket socketId m) as [g|]; [|done].
  case_decide; [done|]. destruct (getSlot g socketId) as [slot|]; [|done].
  case_decide; cbn [snd].
  - by repeat first [apply tracked_clearDisconnectTimer | apply tracked_clearTurnTimer
                    | apply tracked_store].
  - match goal with
    | |- context [clearDisconnectTimer ?id slot ?m0] =>
        pose proof (disconnectTimers_clearDisconnectTimer id slot m0) as Hnone;
        assert (clocksTracked (clearDisconnectTimer id slot m0))
          as (Hturn & Hgrace & Hfresh)
          by (by apply tracked_clearDisconnectTimer, tracked_clearTurnTimer, tracked_store);
        set (m2 := clearDisconnectTimer id slot m0) in *; clearbody m2
    end.
    cbn. split_and!.
    + intros t id Ht. cbn in *. apply lookup_insert_Some in Ht as [[_ [=]]|[_ Ht]].
      by apply Hturn.
    + intros t id slot' opp Ht. cbn in *.
      apply lookup_insert_Some in Ht as [[<- [= <- <- <-]]|[Hne Ht]].
      * by rewrite lookup_insert_eq.
      * apply Hgrace in Ht. rewrite lookup_insert_ne; [done|]. congruence.
    + intros t [task Ht]. cbn in *.
      apply lookup_insert_Some in Ht as [[<- _]|[_ Ht]]; [lia|].
      assert (t < Mgr.nextTimeout m2)%nat by (apply Hfresh; eauto). lia.
Qed.

Lemma tracked_confirmWagerPayment gameId slot txid now m :
  clocksTracked m -> clocksTracked (snd (confirmWagerPayment gameId slot txid now m)).
Proof.
  intros Hm. unfold confirmWagerPayment.
  destruct (games_get gameId m) as [g|]; [|done].
  destruct (_ && _); cbn [snd]; [by apply tracked_startTurnTimer, tracked_store|done].
Qed.

Lemma tracked_attemptMove socketId from to promotion escrowAddress now m :
  clocksTracked m ->
  clocksTracked (snd (attemptMove socketId from to promotion escrowAddress now m)).
Proof.
  intros Hm. unfold attemptMove.
  destruct (getGameBySocket socketId m) as [g|]; [|done].
  case_decide; [done|]. destruct (getSlot g socketId) as [slot|]; [|done].
  case_decide; [done|].
  destruct (chess_move _ _ _ _) as [[move position]|]; [|done].
  destruct (ChessMove.captured move);
    cbn -[endGame endGameDraw startTurnTimer store];
    repeat match goal with
    | |- context [if ?b then _ else _] => destruct b
    end;
    lazymatch goal with
    | |- context [endGame ?x ?w ?r ?n ?m0] =>
        pose proof (tracked_endGame x w r n m0 Hm); by destruct (endGame x w r n m0)
    | |- context [endGameDraw ?x ?r ?n ?m0] =>
        pose proof (tracked_endGameDraw x r n m0 Hm); by destruct (endGameDraw x r n m0)
    | |- _ => cbn [snd]; by apply tracked_startTurnTimer, tracked_store
    end.
Qed.

Lemma tracked_onExpiry task now m :
  clocksTracked m -> clocksTracked (snd (onExpiry task now m)).
Proof.
  intros Hm. destruct task as [id|id forSlot|id slot opponent]; cbn [onExpiry].
  - unfold onTurnExpiry. destruct (Mgr.heap m !! id) as [g|]; [|done].
    case_decide; [done|].
    pose proof (tracked_endGame g (opponentSlot (currentTurn g)) timeout now m Hm).
    destruct (endGame _ _ _ _ _). by apply tracked_emit.
  - unfold onPauseExpiry. destruct (Mgr.heap m !! id) as [g|]; [|done].
    case_decide; [done|].
    pose proof (tracked_endGame g (opponentSlot forSlot) insufficient_funds now m Hm).
    destruct (endGame _ _ _ _ _). by apply tracked_emit.
  - unfold onDisconnectExpiry. destruct (games_get id m) as [g|]; [|done].
    case_decide; [done|]. destruct (negb _); [|done].
    pose proof (tracked_endGame g opponent disconnect now m Hm).
    destruct (endGame _ _ _ _ _). by apply tracked_emit.
Qed.

Lemma tracked_handleReconnect socketId gameId address now m :
  clocksTracked m ->
  clocksTracked (snd (handleReconnect socketId gameId address now m)).
Proof.
  intros Hm. unfold handleReconnect.
  destruct (games_get gameId m) as [g|]; [|done]. case_decide; [done|].
  destruct (if decide (Player.address (Game.white g) = address) then Some white
            else if decide (Player.address (Game.black g) = address) then Some black
            else None) as [slot|]; [|done].
  pose proof (tracked_clearDisconnectTimer gameId slot m Hm) as Hm1.
  set (m1 := clearDisconnectTimer gameId slot m) in *. clearbody m1.
  case_decide; cbn [snd]; [apply tracked_startTurnTimer|];
    by (eapply tracked_same; [..|exact Hm1]).
Qed.

Lemma tracked_removeGame id m : clocksTracked m -> clocksTracked (removeGame id m).
Proof.
  intros Hm. unfold removeGame. destruct (games_get id m) as [g|]; [|done].
  eapply tracked_same; [..|apply (tracked_clearGameTimers id)]; [done..|].
  unfold unbindSocket. repeat case_decide; by (eapply tracked_same; [..|exact Hm]).
Qed.

Lemma tracked_createGame p1Sid p1Addr p1Name p2Sid p2Addr p2Name tierValue bsvPrice
    gameId p1IsWhite now m g m1 :
  createGame p1Sid p1Addr p1Name p2Sid p2Addr p2Name tierValue bsvPrice gameId
             p1IsWhite now m = CreateOk g m1 ->
  clocksTracked m -> clocksTracked m1.
Proof.
  unfold createGame. destruct (getTierByValue tierValue) as [tier|]; [|done].
  destruct (centsToSats _ _) as [d|]; [|done].
  destruct (centsToSats _ _) as [b|]; [|done].
  destruct (Js.to_Z d) as [depositSats|]; [|done].
  destruct (Js.to_Z b) as [baseSats|]; [|done].
  intros [= _ <-] Hm. by (eapply tracked_same; [..|exact Hm]).
Qed.

(** Every operation keeps the pending turn-clock and grace-clock timeouts
    on record. *)
Lemma tracked_step op now m : clocksTracked m -> clocksTracked (step op now m).
Proof.
  intros Hm. destruct op; cbn [step].
  - destruct (createGame _ _ _ _ _ _ _ _ _ _ _ _) eqn:Hcreate; try done.
    by eapply tracked_createGame.
  - unfold requestWagerPayment. destruct (games_get _ _) as [g|]; [|done].
    case_decide; [done|]. by destruct (Player.wagerPaid _).
  - by apply tracked_confirmWagerPayment.
  - by apply tracked_attemptMove.
  - unfold offerDraw. destruct (getGameBySocket _ _) as [g|]; [|done].
    case_decide; [done|]. by destruct (getSlot _ _).
  - unfold acceptDraw. destruct (getGameBySocket _ _) as [g|]; [|done].
    case_decide; [done|].
    pose proof (tracked_endGameDraw g draw_agreement now m Hm).
    by destruct (endGameDraw _ _ _ _).
  - unfold resign. destruct (getGameBySocket _ _) as [g|]; [|done].
    case_decide; [done|]. destruct (getSlot _ _) as [slot|]; [|done].
    pose proof (tracked_endGame g (opponentSlot slot) resignation now m Hm).
    by destruct (endGame _ _ _ _ _).
  - unfold withGame. case_match; [|done]. by apply tracked_endGame.
  - unfold withGame. case_match; [|done]. by apply tracked_endGameDraw.
  - unfold withGame. case_match; [|done]. by apply tracked_pauseForFunds.
  - by apply tracked_handleDisconnect.
  - by apply tracked_handleReconnect.
  - unfold fireTimeout. case_match; [|done].
    by apply tracked_onExpiry, tracked_clearTimeout.
  - by apply tracked_removeGame.
Qed.

Lemma tracked_run ops m : clocksTracked m -> clocksTracked (run ops m).
Proof.
  revert m. induction ops as [|[op now] ops IH]; intros m Hm; [done|].
  cbn. by apply IH, tracked_step.
Qed.

(** X1.  Whatever the socket layer and the host do, from the empty manager on:
    at most one turn-clock timeout is pending per game and at most one
    grace-clock timeout per game and seat. *)
Lemma one_turn_and_grace_timer_per_key ops t1 t2 id :
  let m := run ops (empty_manager (Position := Position)) in
  (Mgr.pending m !! t1 = Some (TurnExpiry id) ->
   Mgr.pending m !! t2 = Some (TurnExpiry id) -> t1 = t2)
  ∧ (∀ slot opponent1 opponent2,
       Mgr.pending m !! t1 = Some (DisconnectExpiry id slot opponent1) ->
       Mgr.pending m !! t2 = Some (DisconnectExpiry id slot opponent2) -> t1 = t2).
Proof.
  destruct (tracked_run ops _ tracked_empty) as (Hturn & Hgrace & _). split.
  - intros H1%Hturn H2%Hturn. congruence.
  - intros slot o1 o2 H1%Hgrace H2%Hgrace. congruence.
Qed.

End Clocks.

(** ** The funds-pause clock *)

(** C8 at its failing input.  [pauseForFunds] is called twice on the started
    game.  The first call's timeout (handle 1) is still pending after the
    second (handle 2), which alone is on record; when the game then ends,
    only the recorded one is cleared.  So a pending funds-pause timeout need
    not be the one on record, as it is for the other two clocks. *)
Theorem pauseForFunds_keeps_old_timer :
  Mgr.pending Scenario.pausedOnce !! 1%nat = Some (PauseExpiry "g1" white)
  ∧ Mgr.pauseTimers Scenario.pausedOnce !! "g1" = Some 1%nat
  ∧ Mgr.pending Scenario.pausedTwice !! 1%nat = Some (PauseExpiry "g1" white)
  ∧ Mgr.pending Scenario.pausedTwice !! 2%nat = Some (PauseExpiry "g1" white)
  ∧ Mgr.pauseTimers Scenario.pausedTwice !! "g1" = Some 2%nat
  ∧ Mgr.pending (snd (resign "s1" 5 Scenario.pausedTwice)) !! 1%nat
    = Some (PauseExpiry "g1" white)
  ∧ Mgr.pending (snd (resign "s1" 5 Scenario.pausedTwice)) !! 2%nat = None
  ∧ ¬ pauseTracked Scenario.pausedTwice.
Proof.
  do 7 (split; [by vm_compute|]).
  intros Htracked.
  assert (Mgr.pauseTimers Scenario.pausedTwice !! "g1" = Some 1%nat) as Hrecord
    by (apply (Htracked 1%nat "g1" white); by vm_compute).
  by vm_compute in Hrecord.
Qed.

(** ** The balance requirement *)

(** C9 at its failing input.  The percentages of a full initial army add up
    to 790, the figure the comment on [WORST_CASE_CAPTURE_PERCENT] gives, but
    the constant evaluates to 690, the sum without the king.  For the Dollar
    tier the specification requires 979 cents and [getMinBalanceCents]
    returns 870; it is short of the requirement on every tier. *)
Theorem getMinBalanceCents_leaves_out_king :
  sumZ PIECE_CAPTURE_PERCENT initialArmy = 790
  ∧ WORST_CASE_CAPTURE_PERCENT = 690
  ∧ WORST_CASE_CAPTURE_PERCENT = sumZ PIECE_CAPTURE_PERCENT capturableArmy
  ∧ map requiredMilliCents STAKE_TIERS
    = [9790; 244750; 489500; 979000; 4895000; 9790000]
  ∧ map (fun t => Js.to_Z (getMinBalanceCents t)) STAKE_TIERS
    = [Some 9; Some 218; Some 435; Some 870; Some 4345; Some 8690]
  ∧ (getMinBalanceCents <$> getTierByValue 100) = Some 870%float
  ∧ (requiredMilliCents <$> getTierByValue 100) = Some 979000.
Proof.
  do 6 (split; [by vm_compute|]). by vm_compute.
Qed.


(** ** What a game keeps through a sequence of operations *)

Section Runs.
Context {Position : Type} `{!ChessEngine Position}.
Implicit Types (g : Game.t Position) (m : Mgr.t Position).

Lemma sameStakes_trans g1 g2 g3 : sameStakes g1 g2 -> sameStakes g2 g3 -> sameStakes g1 g3.
Proof. intros (? & ? & ?) (? & ? & ?). repeat split; congruence. Qed.

Lemma gameKeeps_refl g : gameKeeps g g.
Proof. repeat split; done. Qed.

Lemma gameKeeps_trans g1 g2 g3 : gameKeeps g1 g2 -> gameKeeps g2 g3 -> gameKeeps g1 g3.
Proof.
  intros (Ht & Hl & Hh & Hs) (Ht' & Hl' & Hh' & Hs').
  split; [congruence|]. split; [by etrans|]. split; [by etrans|].
  intros slot. destruct (Hs slot) as (? & ? & ? & ? & ?).
  destruct (Hs' slot) as (? & ? & ? & ? & ?).
  repeat split; try congruence; [auto | lia].
Qed.

(** The game objects stay where they are: an operation on existing games
    removes none from the heap. *)
Lemma run_sound ops m :
  heapSound m -> Forall (fun '(op, _) => notCreate op) ops -> heapSound (run ops m).
Proof.
  intros Hs Hops. revert m Hs.
  induction Hops as [|[op now] ops Hop _ IH]; intros m Hs; cbn; [done|].
  by apply IH, step_heapSound.
Qed.

Lemma run_moves ops m id g :
  heapSound m -> Forall (fun '(op, _) => notCreate op) ops ->
  Mgr.heap m !! id = Some g ->
  ∃ g', Mgr.heap (run ops m) !! id = Some g'
        ∧ sameStakes g g'
        ∧ Game.pot g <= Game.pot g'
        ∧ gameKeeps g g'
        ∧ (Forall wellSplit (Game.capturePayments g) ->
           Forall wellSplit (Game.capturePayments g'))
        ∧ (Game.phase g ≠ awaiting_wagers -> Game.phase g' ≠ awaiting_wagers).
Proof.
  intros Hs Hops. revert m g Hs.
  induction Hops as [|[op now] ops Hop _ IH]; intros m g Hs Hg; cbn.
  - exists g. split; [done|]. split; [done|]. split; [lia|].
    split; [apply gameKeeps_refl|]. done.
  - destruct (touches_pot _ _ _ _ _ Hs (step_touches op now m Hs Hop) Hg)
      as (g1 & Hg1 & Hcases).
    destruct (IH _ g1 (step_heapSound op now m Hs Hop) Hg1)
      as (g' & Hg' & Hst & Hpot & Hkeep & Hsplit & Hopen).
    exists g'. split; [done|].
    destruct Hcases as [->|(Hst1 & Hpot1 & _ & Hback & Hsplit1 & Hkeep1 & _)]; [done|].
    split; [by eapply sameStakes_trans|]. split; [lia|].
    split; [by eapply gameKeeps_trans|]. split; [auto|]. auto.
Qed.

(** X3.  The ledger and the move history of a game only grow: whatever is done to
    existing games, the entries a game had are still there, in place and
    unchanged, and new ones are added at the end; the entries of the ledger
    keep splitting their amount into the capturer's and the platform's
    share. *)
Theorem records_are_append_only ops m id g :
  heapSound m -> Forall (fun '(op, _) => notCreate op) ops ->
  Mgr.heap m !! id = Some g ->
  ∃ g', Mgr.heap (run ops m) !! id = Some g'
        ∧ Game.capturePayments g `prefix_of` Game.capturePayments g'
        ∧ Game.moveHistory g `prefix_of` Game.moveHistory g'
        ∧ (Forall wellSplit (Game.capturePayments g) ->
           Forall wellSplit (Game.capturePayments g')).
Proof.
  intros Hs Hops Hg.
  destruct (run_moves ops m id g Hs Hops Hg)
    as (g' & Hg' & _ & _ & (_ & Hledger & Hhistory & _) & Hsplit & _).
  by exists g'.
Qed.

(** X4.  The terms of a game are fixed when it is created: no sequence of
    operations on existing games changes its id, tier, deposit or base
    value, or the address, name or colour of a seat; a confirmed deposit
    stays confirmed and a move count never goes down. *)
Theorem terms_of_a_game_are_fixed ops m id g :
  heapSound m -> Forall (fun '(op, _) => notCreate op) ops ->
  Mgr.heap m !! id = Some g ->
  ∃ g', Mgr.heap (run ops m) !! id = Some g'
        ∧ Game.id g' = Game.id g
        ∧ Game.tier g' = Game.tier g
        ∧ Game.depositSats g' = Game.depositSats g
        ∧ Game.baseSats g' = Game.baseSats g
        ∧ ∀ slot,
            Player.address (player g' slot) = Player.address (player g slot)
            ∧ Player.username (player g' slot) = Player.username (player g slot)
            ∧ Player.color (player g' slot) = Player.color (player g slot)
            ∧ (Player.wagerPaid (player g slot) = true ->
               Player.wagerPaid (player g' slot) = true)
            ∧ Player.moveCount (player g slot) <= Player.moveCount (player g' slot).
Proof.
  intros Hs Hops Hg.
  destruct (run_moves ops m id g Hs Hops Hg)
    as (g' & Hg' & (Hid & Hdep & Hbase) & _ & (Htier & _ & _ & Hseats) & _).
  by exists g'.
Qed.

(** A game leaves the deposit phase for good: once it is past
    awaiting_wagers, no sequence of operations on existing games takes it
    back. *)
Theorem deposit_phase_is_never_reentered ops m id g :
  heapSound m -> Forall (fun '(op, _) => notCreate op) ops ->
  Mgr.heap m !! id = Some g -> Game.phase g ≠ awaiting_wagers ->
  ∃ g', Mgr.heap (run ops m) !! id = Some g' ∧ Game.phase g' ≠ awaiting_wagers.
Proof.
  intros Hs Hops Hg Hph.
  destruct (run_moves ops m id g Hs Hops Hg) as (g' & Hg' & _ & _ & _ & _ & Hopen).
  exists g'. auto.
Qed.

(** X5.  Only [confirmWagerPayment] puts a game into play, and outside play only
    it changes the pot: through any sequence of other operations on existing
    games, a game that is not in phase playing stays out of it with its pot
    as it was. *)
Theorem only_confirmation_starts_play ops m id g :
  heapSound m ->
  Forall (fun '(op, _) => notCreate op ∧ notConfirm op) ops ->
  Mgr.heap m !! id = Some g -> Game.phase g ≠ playing ->
  ∃ g', Mgr.heap (run ops m) !! id = Some g'
        ∧ Game.phase g' ≠ playing
        ∧ Game.pot g' = Game.pot g.
Proof.
  intros Hs Hops. revert m g Hs.
  induction Hops as [|[op now] ops [Hop Hnc] _ IH]; intros m g Hs Hg Hph; cbn.
  - by exists g.
  - destruct (touches_pot _ _ _ _ _ Hs (step_touches op now m Hs Hop) Hg)
      as (g1 & Hg1 & Hcases).
    assert (Game.phase g1 ≠ playing ∧ Game.pot g1 = Game.pot g) as [Hph1 Hpot1].
    { destruct Hcases as [->|(_ & _ & _ & _ & _ & _ & Hout & _)]; [done|].
      destruct (Hout Hnc Hph). done. }
    destruct (IH _ g1 (step_heapSound op now m Hs Hop) Hg1 Hph1) as (g' & Hg' & ? & ?).
    exists g'. split; [done|]. split; [done|]. congruence.
Qed.

(** X6.  A game that is over stays over: through any sequence of operations on
    existing games other than [confirmWagerPayment] and [pauseForFunds], its
    phase remains gameover. *)
Theorem gameover_is_final ops m id g :
  heapSound m ->
  Forall (fun '(op, _) => notCreate op ∧ notConfirm op ∧ notPause op) ops ->
  Mgr.heap m !! id = Some g -> Game.phase g = gameover ->
  ∃ g', Mgr.heap (run ops m) !! id = Some g' ∧ Game.phase g' = gameover.
Proof.
  intros Hs Hops. revert m g Hs.
  induction Hops as [|[op now] ops (Hop & Hnc & Hnp) _ IH]; intros m g Hs Hg Hph; cbn.
  - by exists g.
  - destruct (touches_pot _ _ _ _ _ Hs (step_touches op now m Hs Hop) Hg)
      as (g1 & Hg1 & Hcases).
    assert (Game.phase g1 = gameover) as Hph1.
    { destruct Hcases as [->|(_ & _ & _ & _ & _ & _ & _ & Hfinal)]; auto. }
    exact (IH _ g1 (step_heapSound op now m Hs Hop) Hg1 Hph1).
Qed.

End Runs.

(** ** The tier catalogue and the shares *)

Lemma tier_table t :
  t ∈ STAKE_TIERS ->
  depositCents t = tier t ∧ baseCents t = tier t ∧ getTierByValue (tier t) = Some t.
Proof.
  intros Ht. unfold STAKE_TIERS in Ht. rewrite !elem_of_cons in Ht.
  destruct Ht as [->|[->|[->|[->|[->|[->|Ht]]]]]]; [done..|].
  by apply elem_of_nil in Ht.
Qed.

Lemma getTierByValue_Some v t :
  getTierByValue v = Some t -> t ∈ STAKE_TIERS ∧ tier t = v.
Proof.
  intros Hfind. apply List.find_some in Hfind as [Hin Hv].
  split; [by apply list_elem_of_In|]. by apply Z.eqb_eq.
Qed.

(** X22.  [getTierByValue] finds a tier exactly by its value, the values being
    distinct; in every tier the deposit and the base value, in cents, are
    the tier's value. *)
Theorem getTierByValue_finds_the_tier (v : Z) :
  (∀ t, getTierByValue v = Some t ↔ t ∈ STAKE_TIERS ∧ tier t = v)
  ∧ (∀ t, t ∈ STAKE_TIERS ->
          depositCents t = tier t ∧ baseCents t = tier t
          ∧ getTierByValue (tier t) = Some t).
Proof.
  split; [|apply tier_table]. intros t. split; [apply getTierByValue_Some|].
  intros [Ht <-]. by apply tier_table.
Qed.

(** X23.  Below 2^47 units [applyPlatformCut] splits an amount without loss:
    the platform's share is the whole number the source's
    [Math.ceil (totalSats * PLATFORM_CUT_PERCENT / 100)] evaluates to on
    doubles, the two shares add up to the amount, neither is negative, the
    platform's share is 3 percent rounded up (so at least one unit of any
    positive amount), and neither share shrinks when the amount grows. *)
Theorem applyPlatformCut_splits_the_total (totalSats : Z) :
  0 <= totalSats < 2 ^ 47 ->
  let s := applyPlatformCut totalSats in
  Js.to_Z (Double.platformShare totalSats) = Some (platformSats_of s)
  ∧ recipientSats s + platformSats_of s = totalSats
  ∧ 0 <= platformSats_of s <= totalSats
  ∧ 0 <= recipientSats s
  ∧ (0 < totalSats -> 1 <= platformSats_of s)
  ∧ 3 * totalSats <= 100 * platformSats_of s < 3 * totalSats + 100
  ∧ ∀ more, totalSats <= more < 2 ^ 47 ->
            platformSats_of s <= platformSats_of (applyPlatformCut more)
            ∧ recipientSats s <= recipientSats (applyPlatformCut more).
Proof.
  intros Hpos. cbn. split; [by apply platformShare_exact|].
  unfold PLATFORM_CUT_PERCENT.
  pose proof (ceil_div_spec (totalSats * 3) 100 ltac:(lia)) as Hc.
  split; [lia|]. split; [lia|]. split; [lia|]. split; [lia|]. split; [lia|].
  intros more Hmore.
  pose proof (ceil_div_spec (more * 3) 100 ltac:(lia)). lia.
Qed.

Lemma applyPlatformCut_splits_the_total_witness :
  recipientSats (applyPlatformCut 20000) = 19400
  ∧ platformSats_of (applyPlatformCut 20000) = 600
  ∧ Js.to_Z (Double.platformShare 20000) = Some (platformSats_of (applyPlatformCut 20000)).
Proof.
  split; [by vm_compute|]. split; [by vm_compute|].
  refine (proj1 (applyPlatformCut_splits_the_total 20000 _)).
  split; [done|by vm_compute].
Defined.

Section CaptureCosts.
Context {Position : Type} `{!ChessEngine Position}.
Implicit Types (g : Game.t Position).

(** X24.  The price of a capture lies between nothing and the base value, which
    is the price of the king; a pawn costs no more than a knight or a
    bishop, these no more than a rook, a rook no more than a queen and a
    queen no more than the king.  The entry written for it charges the
    opponent of the capturer, is unpaid, and splits the price without loss
    into the shares [applyPlatformCut] gives. *)
Theorem capture_price_is_within_the_base g slot kind :
  0 <= Game.baseSats g ->
  let price piece := CapturePayment.amountSats (capturePaymentFor g slot piece) in
  let cp := capturePaymentFor g slot kind in
  0 <= price kind <= Game.baseSats g
  ∧ price Piece.k = Game.baseSats g
  ∧ (price Piece.p <= price Piece.n ∧ price Piece.n = price Piece.b
     ∧ price Piece.b <= price Piece.r ∧ price Piece.r <= price Piece.q
     ∧ price Piece.q <= price Piece.k)
  ∧ wellSplit cp
  ∧ CapturePayment.capturerSats cp = recipientSats (applyPlatformCut (price kind))
  ∧ CapturePayment.platformSats cp = platformSats_of (applyPlatformCut (price kind))
  ∧ 0 <= CapturePayment.platformSats cp <= price kind
  ∧ CapturePayment.fromSlot cp = opponentSlot slot
  ∧ CapturePayment.toSlot cp = slot
  ∧ CapturePayment.piece cp = kind
  ∧ CapturePayment.paid cp = false.
Proof.
  intros Hbase price cp. subst price cp. cbn.
  pose proof (λ p, ceil_div_spec (Game.baseSats g * p) 100 ltac:(lia)) as Hc.
  pose proof (Hc 100). pose proof (Hc 90). pose proof (Hc 80). pose proof (Hc 70).
  pose proof (Hc 20).
  assert (0 <= ceil_div (Game.baseSats g * PIECE_CAPTURE_PERCENT kind) 100
          <= Game.baseSats g) as Hkind by (destruct kind; cbn; lia).
  pose proof (ceil_div_spec
                (ceil_div (Game.baseSats g * PIECE_CAPTURE_PERCENT kind) 100
                 * PLATFORM_CUT_PERCENT) 100 ltac:(lia)) as Hcut.
  unfold PLATFORM_CUT_PERCENT in *.
  split; [done|]. split; [lia|]. split; [lia|]. unfold wellSplit. cbn.
  split; [lia|]. split; [done|]. split; [done|]. split; [lia|]. done.
Qed.

End CaptureCosts.

Lemma capture_price_is_within_the_base_witness :
  CapturePayment.amountSats
    (capturePaymentFor (Scenario.gameIn Scenario.started) white Piece.q) = 1800000
  ∧ wellSplit (capturePaymentFor (Scenario.gameIn Scenario.started) white Piece.q).
Proof.
  assert (0 <= Game.baseSats (Scenario.gameIn Scenario.started)) as Hbase
    by (by vm_compute).
  split; [by vm_compute|].
  exact (proj1 (proj2 (proj2 (proj2
           (capture_price_is_within_the_base (Scenario.gameIn Scenario.started)
              white Piece.q Hbase))))).
Defined.

(** ** Calls that are turned down *)

Section Rejections.
Context {Position : Type} `{!ChessEngine Position}.
Implicit Types (g : Game.t Position) (m : Mgr.t Position).

(** X7.  A call the manager turns down leaves it as it was: a move, a deposit
    request, a confirmation, a draw acceptance, a resignation, a disconnect
    or a reconnect that fails changes no game, binding or timer. *)
Theorem rejected_calls_change_nothing m now :
  (∀ socketId from to promotion escrowAddress,
     MoveResult.success
       (fst (attemptMove socketId from to promotion escrowAddress now m)) = false ->
     snd (attemptMove socketId from to promotion escrowAddress now m) = m)
  ∧ (∀ gameId slot escrowAddress,
       fst (requestWagerPayment gameId slot escrowAddress m) = None ->
       snd (requestWagerPayment gameId slot escrowAddress m) = m)
  ∧ (∀ gameId slot txid,
       ConfirmResult.success (fst (confirmWagerPayment gameId slot txid now m)) = false ->
       snd (confirmWagerPayment gameId slot txid now m) = m)
  ∧ (∀ socketId,
       DrawAccept.success (fst (acceptDraw socketId now m)) = false ->
       snd (acceptDraw socketId now m) = m)
  ∧ (∀ socketId,
       fst (resign socketId now m) = None -> snd (resign socketId now m) = m)
  ∧ (∀ socketId,
       fst (handleDisconnect socketId now m) = None ->
       snd (handleDisconnect socketId now m) = m)
  ∧ (∀ socketId gameId address,
       Reconnection.success (fst (handleReconnect socketId gameId address now m)) = false ->
       snd (handleReconnect socketId gameId address now m) = m).
Proof.
  split_and!.
  - intros socketId from to promotion escrowAddress. unfold attemptMove.
    destruct (getGameBySocket socketId m) as [g|]; [|done].
    case_decide; [done|]. destruct (getSlot g socketId) as [slot|]; [|done].
    case_decide; [done|].
    destruct (chess_move _ _ _ _) as [[move position]|]; [|done].
    destruct (ChessMove.captured move);
      cbn -[endGame endGameDraw startTurnTimer store];
      repeat match goal with
      | |- context [if ?b then _ else _] => destruct b
      end;
      repeat match goal with
      | |- context [endGame ?x ?w ?r ?n ?m0] => destruct (endGame x w r n m0)
      | |- context [endGameDraw ?x ?r ?n ?m0] => destruct (endGameDraw x r n m0)
      end; by cbn.
  - intros gameId slot escrowAddress. unfold requestWagerPayment.
    destruct (games_get gameId m) as [g|]; [|done].
    case_decide; [done|]. by destruct (Player.wagerPaid _).
  - intros gameId slot txid. unfold confirmWagerPayment.
    destruct (games_get gameId m) as [g|]; [|done]. by destruct (_ && _).
  - intros socketId. unfold acceptDraw.
    destruct (getGameBySocket socketId m) as [g|]; [|done].
    case_decide; [done|]. by destruct (endGameDraw _ _ _ _).
  - intros socketId. unfold resign.
    destruct (getGameBySocket socketId m) as [g|]; [|done].
    case_decide; [done|]. destruct (getSlot g socketId) as [slot|]; [|done].
    by destruct (endGame _ _ _ _ _).
  - intros socketId. unfold handleDisconnect.
    destruct (getGameBySocket socketId m) as [g|]; [|done].
    case_decide; [done|]. destruct (getSlot g socketId) as [slot|]; [|done].
    by case_decide.
  - intros socketId gameId address. unfold handleReconnect.
    destruct (games_get gameId m) as [g|]; [|done].
    case_decide; [done|]. repeat case_decide; done.
Qed.

End Rejections.

(** ** Stopping the clocks of a game *)

Section Stopping.
Context {Position : Type} `{!ChessEngine Position}.
Implicit Types (g : Game.t Position) (m : Mgr.t Position).

Lemma clearGameTimers_records id m :
  Mgr.turnTimers (clearGameTimers id m) !! id = None
  ∧ Mgr.pauseTimers (clearGameTimers id m) !! id = None
  ∧ ∀ slot, Mgr.disconnectTimers (clearGameTimers id m) !! disconnectKey id slot = None.
Proof.
  unfold clearGameTimers.
  set (m1 := clearTurnTimer id m). set (m2 := clearPauseTimer id m1).
  set (m3 := clearDisconnectTimer id white m2).
  assert (Mgr.turnTimers m1 !! id = None) as H1 by apply turnTimers_clearTurnTimer.
  assert (Mgr.turnTimers m2 = Mgr.turnTimers m1
          ∧ Mgr.pauseTimers m2 !! id = None) as [E2 H2].
  { subst m2. unfold clearPauseTimer.
    destruct (Mgr.pauseTimers m1 !! id) eqn:E; cbn; [|done].
    by rewrite lookup_delete_eq. }
  assert (Mgr.turnTimers m3 = Mgr.turnTimers m2
          ∧ Mgr.pauseTimers m3 = Mgr.pauseTimers m2) as [E3 E3'].
  { subst m3. unfold clearDisconnectTimer. cbn zeta.
    by destruct (Mgr.disconnectTimers m2 !! disconnectKey id white). }
  assert (Mgr.disconnectTimers m3 !! disconnectKey id white = None) as H3
    by apply disconnectTimers_clearDisconnectTimer.
  assert (Mgr.turnTimers (clearDisconnectTimer id black m3) = Mgr.turnTimers m3
          ∧ Mgr.pauseTimers (clearDisconnectTimer id black m3) = Mgr.pauseTimers m3)
    as [E4 E4'].
  { unfold clearDisconnectTimer. cbn zeta.
    by destruct (Mgr.disconnectTimers m3 !! disconnectKey id black). }
  split; [by rewrite E4, E3, E2|]. split; [by rewrite E4', E3'|].
  intros [|]; [|apply disconnectTimers_clearDisconnectTimer].
  unfold clearDisconnectTimer at 1.
  destruct (Mgr.disconnectTimers m3 !! disconnectKey id black) eqn:E; cbn; [|done].
  destruct (decide (disconnectKey id black = disconnectKey id white)) as [Heq|Hne].
  - by rewrite Heq, lookup_delete_eq.
  - by rewrite lookup_delete_ne.
Qed.

Lemma clearGameTimers_stops id m :
  clocksTracked m -> clocksStopped id (clearGameTimers id m).
Proof.
  intros Hm. destruct (tracked_clearGameTimers id m Hm) as (Hturn & Hgrace & _).
  destruct (clearGameTimers_records id m) as (H1 & H2 & H3).
  split; [done|]. split; [done|]. split; [done|]. split.
  - intros t Ht. apply Hturn in Ht. congruence.
  - intros t slot opponent Ht. apply Hgrace in Ht. specialize (H3 slot). congruence.
Qed.

(** X8.  When a game ends, decisively or in a draw, its clocks stop: no turn
    clock, funds-pause clock or grace clock of it stays on record, and no
    turn-clock or grace-clock timeout of it stays pending. *)
Theorem ending_a_game_stops_its_clocks g winner reason now m :
  clocksTracked m ->
  clocksStopped (Game.id g) (snd (endGame g winner reason now m))
  ∧ clocksStopped (Game.id g) (snd (endGameDraw g reason now m)).
Proof.
  intros Hm. split; cbn; apply clearGameTimers_stops; by apply tracked_store.
Qed.

End Stopping.

(** The started game has a turn clock running; after a resignation none of
    its clocks is left. *)
Lemma started_tracked : clocksTracked Scenario.started.
Proof. exact (tracked_run _ _ (tracked_step _ _ _ tracked_empty)). Qed.

Lemma ending_a_game_stops_its_clocks_witness :
  Mgr.pending Scenario.started !! 0%nat = Some (TurnExpiry "g1")
  ∧ clocksStopped "g1"
      (snd (endGame (Scenario.gameIn Scenario.started) white resignation 9
              Scenario.started)).
Proof.
  split; [by vm_compute|].
  exact (proj1 (ending_a_game_stops_its_clocks (Scenario.gameIn Scenario.started)
                  white resignation 9 Scenario.started started_tracked)).
Defined.

(** ** Disconnecting and reconnecting *)

Section Connections.
Context {Position : Type} `{!ChessEngine Position}.
Implicit Types (g : Game.t Position) (m : Mgr.t Position).

Lemma nextTimeout_clearTurnTimer id m :
  Mgr.nextTimeout (clearTurnTimer id m) = Mgr.nextTimeout m.
Proof. unfold clearTurnTimer. by destruct (Mgr.turnTimers m !! id). Qed.

Lemma nextTimeout_clearDisconnectTimer id slot m :
  Mgr.nextTimeout (clearDisconnectTimer id slot m) = Mgr.nextTimeout m.
Proof.
  unfold clearDisconnectTimer. cbn zeta.
  by destruct (Mgr.disconnectTimers m !! disconnectKey id slot).
Qed.

Lemma turnTimers_clearDisconnectTimer id slot m :
  Mgr.turnTimers (clearDisconnectTimer id slot m) = Mgr.turnTimers m.
Proof.
  unfold clearDisconnectTimer. cbn zeta.
  by destruct (Mgr.disconnectTimers m !! disconnectKey id slot).
Qed.

Lemma playerToGame_clearDisconnectTimer id slot m :
  Mgr.playerToGame (clearDisconnectTimer id slot m) = Mgr.playerToGame m.
Proof.
  unfold clearDisconnectTimer. cbn zeta.
  by destruct (Mgr.disconnectTimers m !! disconnectKey id slot).
Qed.

Lemma games_clearDisconnectTimer id slot m :
  Mgr.games (clearDisconnectTimer id slot m) = Mgr.games m.
Proof.
  unfold clearDisconnectTimer. cbn zeta.
  by destruct (Mgr.disconnectTimers m !! disconnectKey id slot).
Qed.

Lemma playerToGame_clearTurnTimer id m :
  Mgr.playerToGame (clearTurnTimer id m) = Mgr.playerToGame m.
Proof. unfold clearTurnTimer. by destruct (Mgr.turnTimers m !! id). Qed.

Lemma games_clearTurnTimer id m : Mgr.games (clearTurnTimer id m) = Mgr.games m.
Proof. unfold clearTurnTimer. by destruct (Mgr.turnTimers m !! id). Qed.

Lemma games_startTurnTimer g m : Mgr.games (startTurnTimer g m) = Mgr.games m.
Proof. unfold startTurnTimer. cbn. apply games_clearTurnTimer. Qed.

Lemma playerToGame_startTurnTimer g m :
  Mgr.playerToGame (startTurnTimer g m) = Mgr.playerToGame m.
Proof. unfold startTurnTimer. cbn. apply playerToGame_clearTurnTimer. Qed.

(** After [startTurnTimer] the turn clock on record is a pending timeout of
    the game. *)
Lemma startTurnTimer_running g m :
  ∃ t, Mgr.turnTimers (startTurnTimer g m) !! Game.id g = Some t
       ∧ Mgr.pending (startTurnTimer g m) !! t = Some (TurnExpiry (Game.id g)).
Proof.
  exists (Mgr.nextTimeout (clearTurnTimer (Game.id g) m)). unfold startTurnTimer. cbn.
  by rewrite !lookup_insert_eq.
Qed.

(** X9.  A disconnect in the deposit phase ends the game at once, with nobody
    winning: the result carries no amounts, so nothing is settled; a refund
    of one deposit is noted for the opponent exactly when the opponent had
    paid, never for the seat that left; the pot is left as it was. *)
Theorem handleDisconnect_during_deposits socketId now m g slot :
  getGameBySocket socketId m = Some g -> Game.phase g = awaiting_wagers ->
  getSlot g socketId = Some slot ->
  ∃ d r g',
    fst (handleDisconnect socketId now m) = Some d
    ∧ Disconnection.gameId d = Game.id g
    ∧ Disconnection.slot d = slot
    ∧ Disconnection.graceStarted d = false
    ∧ Disconnection.immediateResult d = Some r
    ∧ GameOver.winner r = None
    ∧ GameOver.reason r = disconnect
    ∧ (GameOver.pot r = 0 ∧ GameOver.winnerPayout r = 0
       ∧ GameOver.loserPayout r = 0 ∧ GameOver.platformCut r = 0)
    ∧ Socket.settlement (Game.id g) r = None
    ∧ Disconnection.wagerRefund d
      = (if Player.wagerPaid (player g (opponentSlot slot))
         then Some {| WagerRefund.address := Player.address (player g (opponentSlot slot));
                      WagerRefund.amount := Game.depositSats g |}
         else None)
    ∧ Mgr.heap (snd (handleDisconnect socketId now m)) !! Game.id g = Some g'
    ∧ Game.phase g' = gameover
    ∧ Game.endReason g' = Some disconnect
    ∧ Game.pot g' = Game.pot g
    ∧ Player.connected (player g' slot) = false.
Proof.
  intros Hg Hph Hslot. unfold handleDisconnect. rewrite Hg.
  case_decide as Hover; [congruence|]. rewrite Hslot. clear Hslot.
  destruct slot; cbn; rewrite Hph; (case_decide; [|done]); cbn;
    rewrite !heap_clearDisconnectTimer; cbn; rewrite heap_clearTurnTimer; cbn;
    rewrite lookup_insert_eq; do 3 eexists; repeat split.
Qed.

(** X10.  A disconnect during play or a funds pause marks the seat as
    disconnected, stops the turn clock and starts the grace clock of that
    seat under a fresh handle; the phase and the other seat are left as
    they were. *)
Theorem handleDisconnect_starts_grace socketId now m g slot :
  getGameBySocket socketId m = Some g ->
  Game.phase g = playing ∨ Game.phase g = paused ->
  getSlot g socketId = Some slot ->
  let m' := snd (handleDisconnect socketId now m) in
  let t := Mgr.nextTimeout m in
  (∃ d, fst (handleDisconnect socketId now m) = Some d
        ∧ Disconnection.gameId d = Game.id g
        ∧ Disconnection.slot d = slot
        ∧ Disconnection.graceStarted d = true
        ∧ Disconnection.immediateResult d = None
        ∧ Disconnection.wagerRefund d = None)
  ∧ (∃ g', Mgr.heap m' !! Game.id g = Some g'
           ∧ Game.phase g' = Game.phase g
           ∧ Player.connected (player g' slot) = false
           ∧ Player.disconnectedAt (player g' slot) = Some now
           ∧ player g' (opponentSlot slot) = player g (opponentSlot slot))
  ∧ Mgr.turnTimers m' !! Game.id g = None
  ∧ Mgr.disconnectTimers m' !! disconnectKey (Game.id g) slot = Some t
  ∧ Mgr.pending m' !! t
    = Some (DisconnectExpiry (Game.id g) slot (opponentSlot slot)).
Proof.
  intros Hg Hph Hslot m' t. subst m' t. unfold handleDisconnect. rewrite Hg.
  case_decide as Hover; [destruct Hph; congruence|]. rewrite Hslot. clear Hslot.
  set (g2 := set_player slot _ _).
  assert (Game.id g2 = Game.id g) as Hid by (subst g2; by destruct slot).
  assert (Game.phase g2 = Game.phase g) as Hphase by (subst g2; by destruct slot).
  assert (Player.connected (player g2 slot) = false
          ∧ Player.disconnectedAt (player g2 slot) = Some now
          ∧ player g2 (opponentSlot slot) = player g (opponentSlot slot))
    as (Hconn & Hat & Hother) by (subst g2; by destruct slot).
  clearbody g2. case_decide as Hawait; [destruct Hph; congruence|].
  cbn. rewrite Hid.
  rewrite heap_clearDisconnectTimer, heap_clearTurnTimer, heap_store, Hid, lookup_insert_eq.
  rewrite turnTimers_clearDisconnectTimer, turnTimers_clearTurnTimer.
  rewrite nextTimeout_clearDisconnectTimer, nextTimeout_clearTurnTimer. cbn.
  rewrite !lookup_insert_eq.
  split; [by eexists|]. split; [by exists g2|]. done.
Qed.

End Connections.

Section Reconnecting.
Context {Position : Type} `{!ChessEngine Position}.
Implicit Types (g : Game.t Position) (m : Mgr.t Position).

Lemma disconnectTimers_startTurnTimer g m :
  Mgr.disconnectTimers (startTurnTimer g m) = Mgr.disconnectTimers m.
Proof.
  unfold startTurnTimer. cbn. unfold clearTurnTimer.
  by destruct (Mgr.turnTimers m !! Game.id g).
Qed.

Lemma games_get_registered id m g : games_get id m = Some g -> id ∈ Mgr.games m.
Proof. unfold games_get. by case_decide. Qed.

(** X11.  A reconnect under a seat's address gives the seat back: it is marked
    connected and bound to the new connection, the binding of any other
    connection (the old one included) is left as it was, and the grace
    clock of the seat is cancelled, so that no grace timeout of the seat is
    pending and its callback, were it to run, would do nothing.  In phase
    playing the turn clock is restarted from the full time. *)
Theorem handleReconnect_restores_seat socketId gameId address now m g slot :
  clocksTracked m ->
  games_get gameId m = Some g -> Game.id g = gameId ->
  Game.phase g ≠ gameover -> seatByAddress g address = Some slot ->
  let m' := snd (handleReconnect socketId gameId address now m) in
  fst (handleReconnect socketId gameId address now m)
  = {| Reconnection.success := true; Reconnection.game := Some gameId;
       Reconnection.slot := Some slot; Reconnection.error := None |}
  ∧ (∃ g', Mgr.heap m' !! gameId = Some g'
           ∧ Game.phase g' = Game.phase g
           ∧ Player.connected (player g' slot) = true
           ∧ Player.disconnectedAt (player g' slot) = None
           ∧ Player.socketId (player g' slot) = socketId
           ∧ player g' (opponentSlot slot) = player g (opponentSlot slot)
           ∧ (Game.phase g = playing -> Game.turnStartedAt g' = now))
  ∧ Mgr.playerToGame m' !! socketId = Some gameId
  ∧ (∀ sid, sid ≠ socketId -> Mgr.playerToGame m' !! sid = Mgr.playerToGame m !! sid)
  ∧ (∀ t opponent, Mgr.pending m' !! t ≠ Some (DisconnectExpiry gameId slot opponent))
  ∧ (∀ opponent now', onDisconnectExpiry gameId slot opponent now' m' = (None, m'))
  ∧ (Game.phase g = playing ->
     ∃ t, Mgr.turnTimers m' !! gameId = Some t
          ∧ Mgr.pending m' !! t = Some (TurnExpiry gameId)).
Proof.
  intros Hm Hg Hid Hlive Hseat m'.
  pose proof (tracked_handleReconnect socketId gameId address now m Hm)
    as (_ & Hgrace & _).
  fold m' in Hgrace. pose proof (games_get_registered _ _ _ Hg) as Hreg.
  subst m'. revert Hgrace. unfold handleReconnect. rewrite Hg.
  case_decide; [done|]. unfold seatByAddress in Hseat. rewrite Hseat. clear Hseat.
  set (g3 := set_player slot _ _).
  assert (Game.id g3 = gameId) as Hid3 by (subst g3; by destruct slot).
  assert (Game.phase g3 = Game.phase g) as Hph3 by (subst g3; by destruct slot).
  assert (Player.connected (player g3 slot) = true
          ∧ Player.disconnectedAt (player g3 slot) = None
          ∧ Player.socketId (player g3 slot) = socketId
          ∧ player g3 (opponentSlot slot) = player g (opponentSlot slot))
    as (Hconn & Hat & Hsid & Hother) by (subst g3; by destruct slot).
  clearbody g3.
  assert (∀ m0 g', Mgr.games m0 = Mgr.games m -> Mgr.heap m0 !! gameId = Some g' ->
            Game.phase g' = Game.phase g -> Player.connected (player g' slot) = true ->
            ∀ opponent now', onDisconnectExpiry gameId slot opponent now' m0 = (None, m0))
    as Hidle.
  { intros m0 g' Hgames Hheap Hph Hc opponent now'. unfold onDisconnectExpiry, games_get.
    rewrite Hgames, decide_True, Hheap by done.
    case_decide; [done|]. by rewrite Hc. }
  set (m2 := Mgr.set_playerToGame
                (<[socketId := gameId]>
                   (Mgr.playerToGame (clearDisconnectTimer gameId slot m)))
                (store g3 (clearDisconnectTimer gameId slot m))).
  assert (Mgr.playerToGame m2 = <[socketId := gameId]> (Mgr.playerToGame m)) as Hbind
    by (subst m2; cbn; by rewrite playerToGame_clearDisconnectTimer).
  assert (Mgr.games m2 = Mgr.games m) as Hgames
    by (subst m2; cbn; apply games_clearDisconnectTimer).
  assert (Mgr.disconnectTimers m2 !! disconnectKey gameId slot = None) as Hrecord
    by (subst m2; cbn; apply disconnectTimers_clearDisconnectTimer).
  assert (Mgr.heap m2 !! gameId = Some g3) as Hheap2
    by (subst m2; cbn; rewrite Hid3; apply lookup_insert_eq).
  clearbody m2.
  case_decide as Hplay; cbn [fst snd]; intros Hgrace.
  - set (g4 := Game.set_turnStartedAt now g3) in *.
    assert (Game.id g4 = gameId) as Hid4 by done.
    destruct (startTurnTimer_running g4 (store g4 m2)) as (t & Hrec & Hpend).
    rewrite Hid4 in Hrec, Hpend.
    split; [by rewrite Hid3|]. split.
    { exists g4. rewrite heap_startTurnTimer, heap_store, Hid4, lookup_insert_eq. done. }
    rewrite playerToGame_startTurnTimer. cbn [store Mgr.playerToGame Mgr.set_heap].
    rewrite Hbind.
    split; [apply lookup_insert_eq|]. split; [by intros; rewrite lookup_insert_ne|].
    split.
    { intros t' opponent Ht'. apply Hgrace in Ht'.
      rewrite disconnectTimers_startTurnTimer in Ht'. cbn in Ht'. congruence. }
    split; [|by eauto].
    apply (Hidle _ g4); try done.
    + by rewrite games_startTurnTimer.
    + by rewrite heap_startTurnTimer, heap_store, Hid4, lookup_insert_eq.
  - split; [by rewrite Hid3|]. split.
    { exists g3. repeat split; try done. intros Hp. rewrite <- Hph3 in Hp. done. }
    rewrite Hbind.
    split; [apply lookup_insert_eq|]. split; [by intros; rewrite lookup_insert_ne|].
    split.
    { intros t' opponent Ht'. apply Hgrace in Ht'. congruence. }
    split; [|by intros Hp; rewrite <- Hph3 in Hp].
    by apply (Hidle _ g3).
Qed.

End Reconnecting.

(** ** The timeout callbacks of the socket layer *)

Section SocketTimeouts.
Context {Position : Type} `{!ChessEngine Position}.
Implicit Types (g : Game.t Position) (m : Mgr.t Position).

Lemma games_clearPauseTimer id m : Mgr.games (clearPauseTimer id m) = Mgr.games m.
Proof. unfold clearPauseTimer. by destruct (Mgr.pauseTimers m !! id). Qed.

Lemma games_clearGameTimers id m : Mgr.games (clearGameTimers id m) = Mgr.games m.
Proof.
  unfold clearGameTimers.
  by rewrite !games_clearDisconnectTimer, games_clearPauseTimer, games_clearTurnTimer.
Qed.

Lemma games_endGame g winner reason now m :
  Mgr.games (snd (endGame g winner reason now m)) = Mgr.games m.
Proof. cbn. by rewrite games_clearGameTimers. Qed.

(** The result of [endGame] depends on the deposit, the ledger, the pot and
    the two addresses of the game only. *)
Lemma endGame_result_of g g' winner reason now now' m m' :
  Game.depositSats g' = Game.depositSats g ->
  Game.capturePayments g' = Game.capturePayments g ->
  Game.pot g' = Game.pot g ->
  Player.address (Game.white g') = Player.address (Game.white g) ->
  Player.address (Game.black g') = Player.address (Game.black g) ->
  fst (endGame g' winner reason now' m') = fst (endGame g winner reason now m).
Proof. intros Hd Hl Hp Hw Hb. cbn. by rewrite Hd, Hl, Hp, Hw, Hb. Qed.

(** Ending a registered game and looking it up again. *)
Lemma endGame_then_getGame g winner reason now m :
  Game.id g ∈ Mgr.games m ->
  ∃ g', getGame (Game.id g) (snd (endGame g winner reason now m)) = Some g'
        ∧ Game.phase g' = gameover
        ∧ ∀ now' m', fst (endGame g' winner reason now' m')
                     = fst (endGame g winner reason now m).
Proof.
  intros Hreg. unfold getGame, games_get.
  rewrite games_endGame, decide_True, heap_endGame, lookup_insert_eq by done.
  eexists. split; [done|]. split; [done|]. intros now' m'.
  by apply endGame_result_of.
Qed.

Lemma games_get_emit id n m : games_get id (emit n m) = games_get id m.
Proof. done. Qed.

Lemma endGame_emit g winner reason now n m :
  fst (endGame g winner reason now (emit n m)) = fst (endGame g winner reason now m).
Proof. done. Qed.

(** X12.  When the turn clock or the funds-pause clock of a registered game runs
    out, the manager ends the game, against the side to move (reason
    timeout) or against the seat the pause was for (reason
    insufficient_funds), and calls the socket layer; the handler there ends
    the game a second time and hands on the same result, amounts included,
    to the settlement. *)
Theorem timeout_handlers_repeat_the_result task now m r :
  heapSound m -> fst (onExpiry task now m) = Some r ->
  taskGame task ∈ Mgr.games m ->
  (∀ id slot opponent, task ≠ DisconnectExpiry id slot opponent) ->
  let m1 := snd (onExpiry task now m) in
  phaseOf (taskGame task) m1 = Some gameover
  ∧ (∃ g, Mgr.heap m !! taskGame task = Some g
          ∧ match task with
            | TurnExpiry _ =>
                GameOver.winner r = Some (opponentSlot (currentTurn g))
                ∧ GameOver.reason r = timeout
            | PauseExpiry _ forSlot =>
                GameOver.winner r = Some (opponentSlot forSlot)
                ∧ GameOver.reason r = insufficient_funds
            | DisconnectExpiry _ _ _ => True
            end)
  ∧ ∃ n, last (Mgr.emitted m1) = Some n
         ∧ ∀ now', fst (Socket.deliver n now' m1) = Some r.
Proof.
  intros Hs Hr Hreg Htask m1. subst m1.
  destruct task as [id|id forSlot|id slot opponent]; cbn [onExpiry taskGame] in *;
    [| |by destruct (Htask id slot opponent)].
  - unfold onTurnExpiry in *. destruct (Mgr.heap m !! id) as [g|] eqn:Hg; [|done].
    destruct (Hs _ _ Hg) as (Hid & _). revert Hr. case_decide; [done|].
    rewrite <- Hid in Hreg.
    destruct (endGame_then_getGame g (opponentSlot (currentTurn g)) timeout now m Hreg)
      as (g' & Hget & Hover & Hsame).
    pose proof (heap_endGame g (opponentSlot (currentTurn g)) timeout now m) as Hheap.
    destruct (endGame g (opponentSlot (currentTurn g)) timeout now m) as [r0 m0] eqn:E.
    cbn [fst snd] in *. intros [= <-].
    split. { unfold phaseOf. rewrite heap_emit, Hheap, Hid, lookup_insert_eq. done. }
    assert (r0 = fst (endGame g (opponentSlot (currentTurn g)) timeout now m)) as Hr0
      by (by rewrite E).
    split. { exists g. split; [done|]. by rewrite Hr0. }
    eexists. split; [unfold emit; cbn; apply last_snoc|].
    intros now'. cbn. unfold Socket.onTurnTimeout, getGame.
    rewrite games_get_emit. unfold getGame in Hget. rewrite Hget.
    specialize (Hsame now' (emit (OnTurnTimeout (Game.id g)
                                    (opponentSlot (currentTurn g)) (currentTurn g)) m0)).
    destruct (endGame g' _ _ _ _). cbn [fst snd] in *. congruence.
  - unfold onPauseExpiry in *. destruct (Mgr.heap m !! id) as [g|] eqn:Hg; [|done].
    destruct (Hs _ _ Hg) as (Hid & _). revert Hr. case_decide; [done|].
    rewrite <- Hid in Hreg.
    destruct (endGame_then_getGame g (opponentSlot forSlot) insufficient_funds now m Hreg)
      as (g' & Hget & Hover & Hsame).
    pose proof (heap_endGame g (opponentSlot forSlot) insufficient_funds now m) as Hheap.
    destruct (endGame g (opponentSlot forSlot) insufficient_funds now m)
      as [r0 m0] eqn:E.
    cbn [fst snd] in *. intros [= <-].
    split. { unfold phaseOf. rewrite heap_emit, Hheap, Hid, lookup_insert_eq. done. }
    assert (r0 = fst (endGame g (opponentSlot forSlot) insufficient_funds now m)) as Hr0
      by (by rewrite E).
    split. { exists g. split; [done|]. by rewrite Hr0. }
    eexists. split; [unfold emit; cbn; apply last_snoc|].
    intros now'. cbn. unfold Socket.onPauseTimeout, getGame.
    rewrite games_get_emit. unfold getGame in Hget. rewrite Hget.
    specialize (Hsame now' (emit (OnPauseTimeout (Game.id g)
                                    (opponentSlot forSlot) forSlot) m0)).
    destruct (endGame g' _ _ _ _). cbn [fst snd] in *. congruence.
Qed.

(** X13.  When the grace clock of a disconnected seat runs out, the manager ends
    the game in favour of the opponent and calls the socket layer; the
    handler there finds the game already over and returns at once, so this
    ending never reaches the settlement. *)
Theorem disconnect_timeout_is_never_settled id slot opponent now m r :
  heapSound m -> fst (onDisconnectExpiry id slot opponent now m) = Some r ->
  let m1 := snd (onDisconnectExpiry id slot opponent now m) in
  GameOver.winner r = Some opponent
  ∧ GameOver.reason r = disconnect
  ∧ phaseOf id m1 = Some gameover
  ∧ last (Mgr.emitted m1) = Some (OnDisconnectTimeout id opponent slot)
  ∧ ∀ now', Socket.deliver (OnDisconnectTimeout id opponent slot) now' m1 = (None, m1).
Proof.
  intros Hs Hr m1. subst m1. unfold onDisconnectExpiry in *.
  destruct (games_get id m) as [g|] eqn:Hg; [|done].
  pose proof (games_get_registered _ _ _ Hg) as Hreg.
  destruct (Hs _ _ (games_get_heap _ _ _ Hg)) as (Hid & _). rewrite <- Hid in Hreg.
  revert Hr. case_decide; [done|]. destruct (negb _); [|done].
  destruct (endGame_then_getGame g opponent disconnect now m Hreg)
    as (g' & Hget & Hover & _).
  pose proof (heap_endGame g opponent disconnect now m) as Hheap.
  destruct (endGame g opponent disconnect now m) as [r0 m0] eqn:E.
  cbn [fst snd] in *. intros [= <-].
  assert (r0 = fst (endGame g opponent disconnect now m)) as Hr0 by (by rewrite E).
  split; [by rewrite Hr0|]. split; [by rewrite Hr0|].
  split. { unfold phaseOf. rewrite heap_emit, Hheap, Hid, lookup_insert_eq. done. }
  split; [unfold emit; cbn; apply last_snoc|].
  intros now'. cbn. unfold Socket.onDisconnectTimeout, getGame.
  rewrite games_get_emit, <- Hid. unfold getGame in Hget. rewrite Hget.
  by rewrite decide_True.
Qed.

End SocketTimeouts.

(** ** Settlement, resumption and deposits in the socket layer *)

Section SocketSettlement.
Context {Position : Type} `{!ChessEngine Position}.
Implicit Types (g : Game.t Position) (m : Mgr.t Position).

(** X14.  A draw is settled with one call, to white's address: white's share is
    paid out and black's share is booked with the platform's cut, the two
    amounts of the call adding up to the two deposits; both seats are told
    the same payout.  The call is made exactly when the pot of the result
    is positive and a share exceeds 546 units. *)
Theorem draw_settlement_pays_white_only g reason now m :
  let r := fst (endGameDraw g reason now m) in
  (is_Some (Socket.settlement (Game.id g) r)
   ↔ 0 < Game.pot g + Game.depositSats g * 2
     ∧ 546 < Game.depositSats g * (100 - PLATFORM_CUT_PERCENT) / 100)
  ∧ Socket.payoutShown r white = Socket.payoutShown r black
  ∧ ∀ c, Socket.settlement (Game.id g) r = Some c ->
         SettleCall.gameId c = Game.id g
         ∧ SettleCall.toAddress c = Player.address (Game.white g)
         ∧ SettleCall.amount c = Socket.payoutShown r white
         ∧ SettleCall.platformAmount c
           = GameOver.platformCut r + Socket.payoutShown r black
         ∧ SettleCall.amount c + SettleCall.platformAmount c
           = 2 * Game.depositSats g.
Proof.
  cbn. unfold Socket.settlement. cbn. split.
  - case_decide as Hc; split.
    + by intros _.
    + intros _. by eexists.
    + by intros [? [=]].
    + done.
  - split; [done|]. intros c. case_decide; [|done]. intros [= <-]. cbn.
    repeat split. lia.
Qed.

Lemma getGameBySocket_games_get sid m g :
  heapSound m -> getGameBySocket sid m = Some g -> games_get (Game.id g) m = Some g.
Proof.
  unfold getGameBySocket. intros Hs.
  destruct (Mgr.playerToGame m !! sid) as [id|]; [|done].
  case_decide; [done|]. intros Hg.
  destruct (Hs _ _ (games_get_heap _ _ _ Hg)) as (-> & _). done.
Qed.

(** What a confirmation writes. *)
Lemma confirmWagerPayment_effect gameId slot txid now m g :
  games_get gameId m = Some g -> Game.id g = gameId ->
  let g3 :=
    Game.set_pendingPayment None
      (Game.set_pot (Game.pot g + Game.depositSats g)
         (set_player slot (Player.set_wagerPaid true (player g slot)) g)) in
  let both := Player.wagerPaid (Game.white g3) && Player.wagerPaid (Game.black g3) in
  let g' :=
    if both
    then Game.set_turnStartedAt now
           (Game.set_startedAt (Some now) (Game.set_phase playing g3))
    else g3 in
  fst (confirmWagerPayment gameId slot txid now m)
  = {| ConfirmResult.success := true; ConfirmResult.bothPaid := both;
       ConfirmResult.error := None |}
  ∧ Mgr.heap (snd (confirmWagerPayment gameId slot txid now m))
    = <[gameId := g']> (Mgr.heap m)
  ∧ Mgr.playerToGame (snd (confirmWagerPayment gameId slot txid now m))
    = Mgr.playerToGame m
  ∧ Mgr.games (snd (confirmWagerPayment gameId slot txid now m)) = Mgr.games m.
Proof.
  intros Hg Hid. unfold confirmWagerPayment. rewrite Hg. cbn zeta.
  rewrite !pot_set_player.
  assert (Game.depositSats
            (set_player slot (Player.set_wagerPaid true (player g slot)) g)
          = Game.depositSats g) as -> by (by destruct slot).
  destruct (_ && _); cbn [fst snd].
  - rewrite heap_startTurnTimer, heap_store, playerToGame_startTurnTimer,
      games_startTurnTimer.
    cbn. by rewrite id_set_player, Hid.
  - rewrite heap_store. cbn. by rewrite id_set_player, Hid.
Qed.

(** X15.  [submit_wager], run without interruption, counts a deposit once: it
    confirms only a seat of a game in the deposit phase that has not paid;
    if the pot held one deposit per paid seat before, it does so after;
    play starts exactly when the second seat has paid, with a pot of two
    deposits; and the same connection submitting again is turned down
    with the manager left as it is. *)
Theorem submit_wager_counts_a_deposit_once socketId txid now m g c :
  heapSound m -> getGameBySocket socketId m = Some g ->
  Game.pot g = Game.depositSats g * paidSeats g ->
  fst (Socket.submit_wager socketId (Some txid) now m) = Socket.WagerConfirmed c ->
  let m' := snd (Socket.submit_wager socketId (Some txid) now m) in
  ∃ slot g',
    getSlot g socketId = Some slot
    ∧ Game.phase g = awaiting_wagers
    ∧ Player.wagerPaid (player g slot) = false
    ∧ Mgr.heap m' !! Game.id g = Some g'
    ∧ Player.wagerPaid (player g' slot) = true
    ∧ paidSeats g' = paidSeats g + 1
    ∧ Game.pot g' = Game.depositSats g' * paidSeats g'
    ∧ ConfirmResult.success c = true
    ∧ (ConfirmResult.bothPaid c = true ↔ paidSeats g' = 2)
    ∧ Game.phase g' = (if ConfirmResult.bothPaid c then playing else awaiting_wagers)
    ∧ ∀ verified now',
        ∃ error, Socket.submit_wager socketId verified now' m'
                 = (Socket.WagerRejected error, m').
Proof.
  intros Hs Hg Hpot Hc m'. subst m'.
  pose proof (getGameBySocket_games_get _ _ _ Hs Hg) as Hget.
  assert (∀ m0 g0, Mgr.playerToGame m0 = Mgr.playerToGame m ->
            Mgr.games m0 = Mgr.games m ->
            Mgr.heap m0 = <[Game.id g := g0]> (Mgr.heap m) ->
            getGameBySocket socketId m0 = Some g0) as Hagain.
  { intros m0 g0 Hbind Hgames Hheap. revert Hg. unfold getGameBySocket.
    rewrite Hbind. destruct (Mgr.playerToGame m !! socketId) as [id|]; [|done].
    case_decide; [done|]. intros Hg.
    destruct (Hs _ _ (games_get_heap _ _ _ Hg)) as (Hid & _).
    unfold games_get in *. rewrite Hgames. case_decide; [|done].
    by rewrite Hheap, Hid, lookup_insert_eq. }
  revert Hc. unfold Socket.submit_wager. rewrite Hg.
  case_decide as Hph; [done|].
  destruct (getSlot g socketId) as [slot|] eqn:Hslot; [|done].
  destruct (Player.wagerPaid (player g slot)) eqn:Hpaid; [done|].
  destruct (confirmWagerPayment_effect (Game.id g) slot txid now m g Hget eq_refl)
    as (Hres & Hheap & Hbind & Hgames).
  destruct (confirmWagerPayment (Game.id g) slot txid now m) as [c0 m0].
  cbn [fst snd] in *. intros [= <-].
  match type of Hheap with _ = <[_ := ?x]> _ => set (g' := x) in * end.
  assert (getGameBySocket socketId m0 = Some g') as Hg' by by apply Hagain.
  assert (getSlot g' socketId = Some slot) as Hslot'.
  { subst g'. revert Hslot. unfold getSlot. by (destruct slot, (_ && _); cbn). }
  exists slot, g'. split; [done|]. split; [done|]. split; [done|].
  split; [by rewrite Hheap, lookup_insert_eq|].
  rewrite Hres. cbn [ConfirmResult.success ConfirmResult.bothPaid].
  assert (Player.wagerPaid (player g' slot) = true) as Hnow
    by (subst g'; by (destruct slot, (_ && _); cbn)).
  split; [done|].
  assert (paidSeats g' = paidSeats g + 1
          ∧ Game.pot g' = Game.depositSats g' * paidSeats g'
          ∧ (Player.wagerPaid
               (Game.white
                  (Game.set_pendingPayment None
                     (Game.set_pot (Game.pot g + Game.depositSats g)
                        (set_player slot (Player.set_wagerPaid true (player g slot)) g))))
             && Player.wagerPaid
                  (Game.black
                     (Game.set_pendingPayment None
                        (Game.set_pot (Game.pot g + Game.depositSats g)
                           (set_player slot (Player.set_wagerPaid true (player g slot))
                              g)))) = true
             ↔ paidSeats g' = 2)
          ∧ Game.phase g'
            = (if Player.wagerPaid
                    (Game.white
                       (Game.set_pendingPayment None
                          (Game.set_pot (Game.pot g + Game.depositSats g)
                             (set_player slot (Player.set_wagerPaid true (player g slot))
                                g))))
                  && Player.wagerPaid
                       (Game.black
                          (Game.set_pendingPayment None
                             (Game.set_pot (Game.pot g + Game.depositSats g)
                                (set_player slot
                                   (Player.set_wagerPaid true (player g slot)) g))))
               then playing else awaiting_wagers)) as (? & ? & ? & ?).
  { subst g'. clear Hnow Hslot' Hg' Hheap Hres Hagain. unfold paidSeats in *.
    destruct (Player.wagerPaid (Game.white g)) eqn:Hw,
             (Player.wagerPaid (Game.black g)) eqn:Hb;
      destruct slot; cbn in Hpaid; rewrite ?Hw, ?Hb in Hpaid; try done;
      cbn in Hpot |- *; rewrite ?Hw, ?Hb; cbn; rewrite ?Hph, ?Hw, ?Hb;
      repeat split; (done || lia || congruence). }
  split; [done|]. split; [done|]. split; [done|]. split; [done|]. split; [done|].
  intros verified now'. unfold Socket.submit_wager. rewrite Hg'.
  case_decide; [by eexists|]. rewrite Hslot', Hnow. by eexists.
Qed.

End SocketSettlement.

Section Resuming.
Context {Position : Type} `{!ChessEngine Position}.
Implicit Types (g : Game.t Position) (m : Mgr.t Position).



End Resuming.

(** ** The pending deposit and the client's view *)

Section Views.
Context {Position : Type} `{!ChessEngine Position}.
Implicit Types (g : Game.t Position) (m : Mgr.t Position).

(** X17.  A deposit request made in the deposit phase for a seat that has not
    paid asks for the deposit, and the state sent to clients shows it to
    that seat only.  The game holds one pending payment: a request for the
    other seat replaces it, after which the first seat is shown none, and
    any confirmation clears it for both. *)
Theorem pending_deposit_is_shown_to_its_payer gameId slot escrowAddress m g :
  games_get gameId m = Some g -> Game.id g = gameId ->
  Game.phase g = awaiting_wagers -> Player.wagerPaid (player g slot) = false ->
  let request :=
    {| WagerRequest.amount := Game.depositSats g;
       WagerRequest.toAddress := escrowAddress |} in
  let m1 := snd (requestWagerPayment gameId slot escrowAddress m) in
  fst (requestWagerPayment gameId slot escrowAddress m) = Some request
  ∧ (∃ g1, games_get gameId m1 = Some g1
           ∧ ClientState.pendingPayment (getClientState g1 slot) = Some request
           ∧ ClientState.pendingPayment (getClientState g1 (opponentSlot slot)) = None
           ∧ ClientState.pot (getClientState g1 slot) = Game.pot g)
  ∧ (Player.wagerPaid (player g (opponentSlot slot)) = false ->
     ∀ escrowAddress',
       ∃ g2, games_get gameId
               (snd (requestWagerPayment gameId (opponentSlot slot) escrowAddress' m1))
             = Some g2
             ∧ ClientState.pendingPayment (getClientState g2 slot) = None)
  ∧ (∀ payer txid now,
       ∃ g2, games_get gameId (snd (confirmWagerPayment gameId payer txid now m1))
             = Some g2
             ∧ ∀ viewer, ClientState.pendingPayment (getClientState g2 viewer) = None).
Proof.
  intros Hg Hid Hph Hpaid request m1. subst request m1.
  pose proof (games_get_registered _ _ _ Hg) as Hreg.
  set (g1 := Game.set_pendingPayment
               (Some {| PendingPayment.fromSlot := slot;
                        PendingPayment.amount := Game.depositSats g;
                        PendingPayment.toAddress := escrowAddress |}) g).
  assert (requestWagerPayment gameId slot escrowAddress m
          = (Some {| WagerRequest.amount := Game.depositSats g;
                     WagerRequest.toAddress := escrowAddress |}, store g1 m)) as ->.
  { unfold requestWagerPayment. rewrite Hg.
    rewrite decide_False by (by intros []). by rewrite Hpaid. }
  cbn [fst snd].
  assert (games_get gameId (store g1 m) = Some g1) as Hg1.
  { unfold games_get. cbn. rewrite decide_True by done.
    by rewrite Hid, lookup_insert_eq. }
  split; [done|]. split.
  { exists g1. split; [done|]. subst g1. by destruct slot. }
  split.
  - intros Hother escrowAddress'. unfold requestWagerPayment. rewrite Hg1.
    assert (Game.phase g1 = awaiting_wagers) as -> by done.
    rewrite decide_False by (by intros []).
    assert (Player.wagerPaid (player g1 (opponentSlot slot)) = false) as ->
      by (subst g1; by destruct slot).
    cbn [snd]. eexists. split.
    + unfold games_get. cbn. rewrite decide_True by done.
      by rewrite Hid, lookup_insert_eq.
    + by destruct slot.
  - intros payer txid now.
    destruct (confirmWagerPayment_effect gameId payer txid now (store g1 m) g1 Hg1 Hid)
      as (_ & Hheap & _ & Hgames).
    eexists. split.
    + unfold games_get. rewrite Hgames, Hheap. cbn. rewrite decide_True by done.
      by rewrite lookup_insert_eq.
    + intros viewer. by destruct (_ && _).
Qed.

End Views.

(** ** Resigning and removing a game *)

Section Leaving.
Context {Position : Type} `{!ChessEngine Position}.
Implicit Types (g : Game.t Position) (m : Mgr.t Position).

Lemma playerToGame_clearPauseTimer id m :
  Mgr.playerToGame (clearPauseTimer id m) = Mgr.playerToGame m.
Proof. unfold clearPauseTimer. by destruct (Mgr.pauseTimers m !! id). Qed.

Lemma playerToGame_clearGameTimers id m :
  Mgr.playerToGame (clearGameTimers id m) = Mgr.playerToGame m.
Proof.
  unfold clearGameTimers.
  by rewrite !playerToGame_clearDisconnectTimer, playerToGame_clearPauseTimer,
    playerToGame_clearTurnTimer.
Qed.

(** X18.  A resignation is taken in every phase but gameover, the deposit phase
    included: the game ends with the opponent of the resigning seat as
    winner, and the same connection resigning again is turned down. *)
Theorem resign_awards_the_opponent socketId now m g slot :
  heapSound m -> getGameBySocket socketId m = Some g ->
  Game.phase g ≠ gameover -> getSlot g socketId = Some slot ->
  let m' := snd (resign socketId now m) in
  ∃ r, fst (resign socketId now m)
       = Some {| Resignation.gameId := Game.id g; Resignation.result := r |}
       ∧ r = fst (endGame g (opponentSlot slot) resignation now m)
       ∧ GameOver.winner r = Some (opponentSlot slot)
       ∧ GameOver.loser r = Some slot
       ∧ GameOver.reason r = resignation
       ∧ phaseOf (Game.id g) m' = Some gameover
       ∧ ∀ now', resign socketId now' m' = (None, m').
Proof.
  intros Hs Hg Hlive Hslot m'. subst m'.
  pose proof (getGameBySocket_games_get _ _ _ Hs Hg) as Hget.
  pose proof (games_get_registered _ _ _ Hget) as Hreg.
  assert (getGameBySocket socketId (snd (endGame g (opponentSlot slot) resignation now m))
          = Some (Game.set_pendingPayment None
                    (Game.set_winner (Some (opponentSlot slot))
                       (Game.set_endReason (Some resignation)
                          (Game.set_endedAt (Some now) (Game.set_phase gameover g))))))
    as Hagain.
  { revert Hg. unfold getGameBySocket. cbn [endGame snd].
    rewrite playerToGame_clearGameTimers. cbn.
    destruct (Mgr.playerToGame m !! socketId) as [id|]; [|done].
    case_decide; [done|]. intros Hg.
    destruct (Hs _ _ (games_get_heap _ _ _ Hg)) as (Hid & _).
    unfold games_get in *. rewrite games_clearGameTimers, heap_clearGameTimers. cbn.
    case_decide; [|done]. by rewrite Hid, lookup_insert_eq. }
  pose proof (heap_endGame g (opponentSlot slot) resignation now m) as Hheap.
  assert (resign socketId now m
          = (Some {| Resignation.gameId := Game.id g;
                     Resignation.result :=
                       fst (endGame g (opponentSlot slot) resignation now m) |},
             snd (endGame g (opponentSlot slot) resignation now m))) as ->.
  { unfold resign. rewrite Hg. rewrite decide_False by done. rewrite Hslot.
    by destruct (endGame g (opponentSlot slot) resignation now m). }
  cbn [fst snd]. eexists. split; [done|]. split; [done|].
  split; [done|]. split; [by destruct slot|]. split; [done|].
  split; [by unfold phaseOf; rewrite Hheap, lookup_insert_eq|].
  intros now'. unfold resign. rewrite Hagain. by rewrite decide_True.
Qed.

Lemma games_get_other id id' m m' :
  Mgr.games m' = Mgr.games m ∖ {[id]} -> Mgr.heap m' = Mgr.heap m -> id' ≠ id ->
  games_get id' m' = games_get id' m.
Proof.
  intros Hgames Hheap Hne. unfold games_get. rewrite Hgames, Hheap.
  destruct (decide (id' ∈ Mgr.games m)) as [Hin|Hout].
  - rewrite decide_True; [done|]. apply elem_of_difference. split; [done|].
    by rewrite elem_of_singleton.
  - rewrite decide_False; [done|]. intros [? _]%elem_of_difference. done.
Qed.

Lemma unbindSocket_unbinds sid id m :
  Mgr.playerToGame (unbindSocket sid id m) !! sid ≠ Some id.
Proof.
  unfold unbindSocket. case_decide; [|done]. cbn. by rewrite lookup_delete_eq.
Qed.

Lemma unbindSocket_keeps_unbound sid id m sid' :
  Mgr.playerToGame m !! sid' ≠ Some id ->
  Mgr.playerToGame (unbindSocket sid id m) !! sid' ≠ Some id.
Proof.
  intros Hfree. unfold unbindSocket. case_decide; [|done]. cbn.
  destruct (decide (sid = sid')) as [->|];
    [by rewrite lookup_delete_eq|by rewrite lookup_delete_ne].
Qed.

(** X19.  [removeGame] takes a game out of the registry: it is no longer found
    by its id nor through any connection, the connections of its two seats
    are unbound from it, other games are found as before, its clocks are
    stopped, and removing it again changes nothing.  The game object itself
    is left as it is. *)
Theorem removeGame_unregisters id m :
  let m' := removeGame id m in
  getGame id m' = None
  ∧ (∀ sid g', getGameBySocket sid m' = Some g' -> Mgr.playerToGame m' !! sid ≠ Some id)
  ∧ (∀ g, getGame id m = Some g ->
          Mgr.playerToGame m' !! Player.socketId (Game.white g) ≠ Some id
          ∧ Mgr.playerToGame m' !! Player.socketId (Game.black g) ≠ Some id)
  ∧ (∀ id', id' ≠ id -> getGame id' m' = getGame id' m)
  ∧ Mgr.heap m' = Mgr.heap m
  ∧ removeGame id m' = m'
  ∧ (clocksTracked m -> is_Some (getGame id m) -> clocksStopped id m').
Proof.
  intros m'.
  assert (getGame id m' = None) as Hgone.
  { subst m'. unfold removeGame, getGame.
    destruct (games_get id m) as [g|] eqn:Hg; [|done].
    unfold games_get. cbn. rewrite decide_False; [done|].
    intros [_ Hout]%elem_of_difference. by apply Hout, elem_of_singleton. }
  split; [done|]. split.
  { intros sid g'. unfold getGameBySocket.
    destruct (Mgr.playerToGame m' !! sid) as [id'|]; [|done].
    case_decide; [done|]. intros Hg' [= ->]. unfold getGame in Hgone. congruence. }
  split.
  { intros g Hg. subst m'. unfold removeGame. unfold getGame in Hg. rewrite Hg. cbn.
    rewrite playerToGame_clearGameTimers. split.
    - apply unbindSocket_keeps_unbound, unbindSocket_unbinds.
    - apply unbindSocket_unbinds. }
  split.
  { intros id' Hne. subst m'. unfold removeGame, getGame.
    destruct (games_get id m) as [g|] eqn:Hg; [|done].
    apply (games_get_other id); [| |done]; cbn.
    - rewrite games_clearGameTimers. unfold unbindSocket. by repeat case_decide.
    - rewrite heap_clearGameTimers. unfold unbindSocket. by repeat case_decide. }
  split; [apply heap_removeGame|]. split.
  { unfold removeGame at 1. unfold getGame in Hgone. by rewrite Hgone. }
  intros Hm [g Hg]. subst m'. unfold removeGame. unfold getGame in Hg. rewrite Hg.
  set (m2 := unbindSocket _ _ (unbindSocket _ _ m)).
  assert (clocksTracked m2) as Hm2.
  { subst m2. unfold unbindSocket. repeat case_decide; done. }
  destruct (clearGameTimers_stops id m2 Hm2) as (? & ? & ? & ? & ?). done.
Qed.

End Leaving.

(** ** What a move leaves behind *)

Section Moves.
Context {Position : Type} `{!ChessEngine Position}.
Implicit Types (g : Game.t Position) (m : Mgr.t Position).

Lemma chess_set_player slot v g : Game.chess (set_player slot v g) = Game.chess g.
Proof. by destruct slot. Qed.

(** The game after the bookkeeping of an accepted move, before the engine
    is asked whether the game is over. *)
Lemma attemptMove_shape socketId from to promotion escrowAddress now m g slot move position :
  getGameBySocket socketId m = Some g -> Game.phase g = playing ->
  getSlot g socketId = Some slot -> slot = currentTurn g ->
  chess_move (Game.chess g) from to (promotionArg promotion) = Some (move, position) ->
  ∃ g4 info,
    Game.id g4 = Game.id g
    ∧ Game.phase g4 = playing
    ∧ Game.chess g4 = position
    ∧ Game.moveHistory g4 = Game.moveHistory g ++ [moveRecordOf move]
    ∧ Player.moveCount (player g4 slot) = Player.moveCount (player g slot) + 1
    ∧ player g4 (opponentSlot slot) = player g (opponentSlot slot)
    ∧ (ChessMove.captured move = None ->
       Game.pot g4 = Game.pot g
       ∧ Game.capturePayments g4 = Game.capturePayments g
       ∧ info = None)
    ∧ attemptMove socketId from to promotion escrowAddress now m
      = match verdict position with
        | Some checkmate =>
            (moveOver (moveRecordOf move) (chess_fen position) info
                      (fst (endGame g4 slot checkmate now m)) (Some true) None None None,
             snd (endGame g4 slot checkmate now m))
        | Some reason =>
            (moveOver (moveRecordOf move) (chess_fen position) info
                      (fst (endGameDraw g4 reason now m))
                      None
                      (if decide (reason = stalemate) then Some true else None)
                      (Some true)
                      (match reason with
                       | threefold_repetition => Some "threefold_repetition"
                       | insufficient_material => Some "insufficient_material"
                       | fifty_move_rule => Some "fifty_move_rule"
                       | _ => None
                       end),
             snd (endGameDraw g4 reason now m))
        | None =>
            ({| MoveResult.success := true; MoveResult.error := None;
                MoveResult.san := Some (ChessMove.san move);
                MoveResult.fen := Some (chess_fen position);
                MoveResult.move := Some (moveRecordOf move);
                MoveResult.capturePayment := info;
                MoveResult.isCheck := Some (chess_isCheck position);
                MoveResult.isCheckmate := None;
                MoveResult.isStalemate := None;
                MoveResult.isDraw := None;
                MoveResult.drawReason := None;
                MoveResult.gameOver := Some false;
                MoveResult.gameOverResult := None |},
             startTurnTimer (Game.set_turnStartedAt now g4)
               (store (Game.set_turnStartedAt now g4) m))
        end.
Proof.
  intros Hg Hph Hslot Hturn Hmove. unfold attemptMove. rewrite Hg.
  rewrite decide_False by (by intros []). rewrite Hslot.
  rewrite decide_False by (by intros []). rewrite Hmove.
  destruct (ChessMove.captured move) as [kind|];
    cbn -[endGame endGameDraw startTurnTimer store];
    match goal with
    | |- context [endGame ?x slot checkmate now m] => set (g4 := x)
    end;
    match goal with
    | |- context [moveOver _ _ ?i _ _ _ _ _] => set (info := i)
    end;
    exists g4, info;
    (split; [subst g4; by destruct slot|]);
    (split; [subst g4; by destruct slot|]);
    (assert (Game.chess g4 = position) as Hchess by (subst g4; by destruct slot));
    (split; [done|]);
    (split; [subst g4; by destruct slot|]);
    (split; [subst g4; by destruct slot|]);
    (split; [subst g4; by destruct slot|]);
    (split; [subst g4 info; by destruct slot|]);
    clearbody g4 info; rewrite ?Hchess, ?chess_set_player;
    cbn [Game.chess Game.set_chess]; unfold verdict, moveRecordOf.
  all: destruct (chess_isCheckmate position);
    [by destruct (endGame g4 slot checkmate now m)|].
  all: destruct (chess_isStalemate position);
    [by destruct (endGameDraw g4 stalemate now m)|].
  all: destruct (chess_isThreefoldRepetition position);
    [by destruct (endGameDraw g4 threefold_repetition now m)|].
  all: destruct (chess_isInsufficientMaterial position);
    [by destruct (endGameDraw g4 insufficient_material now m)|].
  all: destruct (chess_isDraw position);
    [by destruct (endGameDraw g4 fifty_move_rule now m)|].
  all: by rewrite ?Hchess.
Qed.

(** X20.  An accepted move is written down: the position becomes the engine's,
    the move is added at the end of the history and returned, the mover's
    count goes up by one and the other seat is untouched; a move that takes
    nothing leaves the pot and the ledger alone and reports no payment. *)
Theorem attemptMove_records_the_move socketId from to promotion escrowAddress now m :
  MoveResult.success (fst (attemptMove socketId from to promotion escrowAddress now m))
  = true ->
  ∃ g slot move position g',
    getGameBySocket socketId m = Some g
    ∧ getSlot g socketId = Some slot
    ∧ chess_move (Game.chess g) from to (promotionArg promotion) = Some (move, position)
    ∧ Mgr.heap (snd (attemptMove socketId from to promotion escrowAddress now m))
      !! Game.id g = Some g'
    ∧ Game.chess g' = position
    ∧ Game.moveHistory g' = Game.moveHistory g ++ [moveRecordOf move]
    ∧ MoveResult.move (fst (attemptMove socketId from to promotion escrowAddress now m))
      = Some (moveRecordOf move)
    ∧ Player.moveCount (player g' slot) = Player.moveCount (player g slot) + 1
    ∧ player g' (opponentSlot slot) = player g (opponentSlot slot)
    ∧ (ChessMove.captured move = None ->
       Game.pot g' = Game.pot g
       ∧ Game.capturePayments g' = Game.capturePayments g
       ∧ MoveResult.capturePayment
           (fst (attemptMove socketId from to promotion escrowAddress now m)) = None).
Proof.
  intros Hok.
  destruct (attemptMove_success _ _ _ _ _ _ _ Hok)
    as (g & slot & move & position & Hg & Hph & Hslot & Hturn & Hmove).
  destruct (attemptMove_shape socketId from to promotion escrowAddress now m g slot move
              position Hg Hph Hslot Hturn Hmove)
    as (g4 & info & Hid & _ & Hchess & Hhist & Hcount & Hother & Hquiet & ->).
  exists g, slot, move, position.
  destruct (verdict position) as [reason|]; [destruct reason|]; cbn [fst snd];
    rewrite ?heap_endGame, ?heap_endGameDraw, ?heap_startTurnTimer, ?heap_store;
    cbn [Game.id Game.set_turnStartedAt];
    rewrite Hid, lookup_insert_eq; eexists; (split; [done|]); (split; [done|]);
    (split; [done|]); (split; [done|]); cbn;
    (split; [done|]); (split; [done|]); (split; [done|]);
    (split; [by destruct slot|]); (split; [by destruct slot|]);
    intros Hnone; destruct (Hquiet Hnone) as (? & ? & ?); done.
Qed.

(** X21.  After an accepted move the engine decides how the game goes on, asked
    in this order: checkmate ends the game with the mover as winner;
    stalemate, threefold repetition, insufficient material and the engine's
    remaining draws end it without a winner, the last under the reason
    fifty_move_rule; otherwise play continues, the turn starting now with a
    fresh turn clock. *)
Theorem attemptMove_follows_the_engine socketId from to promotion escrowAddress now m :
  MoveResult.success (fst (attemptMove socketId from to promotion escrowAddress now m))
  = true ->
  let out := fst (attemptMove socketId from to promotion escrowAddress now m) in
  let m' := snd (attemptMove socketId from to promotion escrowAddress now m) in
  ∃ g slot move position g',
    getGameBySocket socketId m = Some g
    ∧ getSlot g socketId = Some slot
    ∧ chess_move (Game.chess g) from to (promotionArg promotion) = Some (move, position)
    ∧ Mgr.heap m' !! Game.id g = Some g'
    ∧ MoveResult.gameOver out = Some (bool_decide (is_Some (verdict position)))
    ∧ match verdict position with
      | Some reason =>
          Game.phase g' = gameover
          ∧ Game.endReason g' = Some reason
          ∧ Game.winner g' = (if decide (reason = checkmate) then Some slot else None)
          ∧ ∃ r, MoveResult.gameOverResult out = Some r
                 ∧ GameOver.reason r = reason
                 ∧ GameOver.winner r = Game.winner g'
      | None =>
          Game.phase g' = playing
          ∧ Game.turnStartedAt g' = now
          ∧ MoveResult.gameOverResult out = None
          ∧ ∃ t, Mgr.turnTimers m' !! Game.id g = Some t
                 ∧ Mgr.pending m' !! t = Some (TurnExpiry (Game.id g))
      end.
Proof.
  intros Hok out m'. subst out m'.
  destruct (attemptMove_success _ _ _ _ _ _ _ Hok)
    as (g & slot & move & position & Hg & Hph & Hslot & Hturn & Hmove).
  destruct (attemptMove_shape socketId from to promotion escrowAddress now m g slot move
              position Hg Hph Hslot Hturn Hmove)
    as (g4 & info & Hid & Hph4 & _ & _ & _ & _ & _ & ->).
  exists g, slot, move, position.
  destruct (verdict position) as [reason|]; [destruct reason|]; cbn [fst snd];
    try (rewrite ?heap_endGame, ?heap_endGameDraw, Hid, lookup_insert_eq;
         eexists; (split; [done|]); (split; [done|]); (split; [done|]);
         (split; [done|]); cbn; (split; [done|]); (split; [done|]);
         (split; [done|]); (split; [done|]); by eexists).
  destruct (startTurnTimer_running (Game.set_turnStartedAt now g4)
              (store (Game.set_turnStartedAt now g4) m)) as (t & Hrec & Hpend).
  cbn [Game.id Game.set_turnStartedAt] in Hrec, Hpend. rewrite Hid in Hrec, Hpend.
  rewrite heap_startTurnTimer, heap_store. cbn [Game.id Game.set_turnStartedAt].
  rewrite Hid, lookup_insert_eq. eexists. split; [done|]. split; [done|].
  split; [done|]. split; [done|]. cbn. split; [done|]. split; [done|].
  split; [done|]. split; [done|]. by exists t.
Qed.

End Moves.

(** ** Creating a game *)

Section Creating.
Context {Position : Type} `{!ChessEngine Position}.
Implicit Types (g : Game.t Position) (m : Mgr.t Position).

(** X25.  When the requested tier exists and [centsToSats] turns its deposit
    into a finite whole number of units at the given price (so the price is
    above zero, is not NaN, and the amount does not overflow), [createGame]
    returns a game; the game is registered under its id and, when the id is
    not empty, found through both connections; it awaits the deposits with
    an empty pot, ledger and history and both seats unpaid; its tier is the
    requested one, and its deposit and its base value are that whole number;
    the first player sits where the coin put them; other games are found as
    before and no clock is started. *)
Theorem createGame_registers_the_game p1Sid p1Addr p1Name p2Sid p2Addr p2Name tierValue
    bsvPrice gameId p1IsWhite now m t d sats :
  getTierByValue tierValue = Some t ->
  centsToSats (Js.num (depositCents t)) bsvPrice = Some d ->
  Js.to_Z d = Some sats ->
  ∃ g m',
  createGame p1Sid p1Addr p1Name p2Sid p2Addr p2Name tierValue bsvPrice gameId
             p1IsWhite now m = CreateOk g m'
  ∧ (bsvPrice <=? 0)%float = false
  ∧ Game.tier g = t
  ∧ Game.depositSats g = sats
  ∧ Game.baseSats g = sats
  ∧ let seat1 := if p1IsWhite then white else black in
  getGame gameId m' = Some g
  ∧ (gameId ≠ "" ->
     getGameBySocket p1Sid m' = Some g ∧ getGameBySocket p2Sid m' = Some g)
  ∧ Game.id g = gameId
  ∧ Game.phase g = awaiting_wagers
  ∧ (Game.pot g = 0 ∧ Game.capturePayments g = [] ∧ Game.moveHistory g = []
     ∧ paidSeats g = 0 ∧ Game.pendingPayment g = None)
  ∧ getTierByValue tierValue = Some (Game.tier g)
  ∧ Game.baseSats g = Game.depositSats g
  ∧ player g seat1 = mkPlayer p1Sid p1Addr p1Name seat1
  ∧ player g (opponentSlot seat1) = mkPlayer p2Sid p2Addr p2Name (opponentSlot seat1)
  ∧ (∀ id, id ≠ gameId -> getGame id m' = getGame id m)
  ∧ Mgr.pending m' = Mgr.pending m.
Proof.
  intros Htier Hd Hsats.
  unfold createGame. rewrite Htier.
  destruct (getTierByValue_Some _ _ Htier) as [Hin _].
  destruct (tier_table t Hin) as (Hdep & Hbase & _).
  rewrite Hdep, Hbase. rewrite Hdep in Hd. rewrite Hd, Hsats.
  eexists _, _. split; [reflexivity|].
  split. { unfold centsToSats in Hd. by destruct (bsvPrice <=? 0)%float. }
  split; [done|]. split; [done|]. split; [done|]. cbn zeta.
  assert (gameId ∈ ({[gameId]} ∪ Mgr.games m : gset string)) as Hreg
    by (by apply elem_of_union_l, elem_of_singleton).
  split. { unfold getGame, games_get. cbn. rewrite decide_True by done.
           apply lookup_insert_eq. }
  split.
  { intros Hid. unfold getGameBySocket, games_get. cbn.
    rewrite lookup_insert_eq.
    destruct (decide (p1Sid = p2Sid)) as [->|Hne];
      [rewrite lookup_insert_eq|rewrite lookup_insert_ne, lookup_insert_eq by done];
      rewrite !decide_False, !decide_True by done;
      by rewrite lookup_insert_eq. }
  cbn. split; [done|]. split; [done|]. split; [done|]. split; [done|].
  split; [done|]. split; [by destruct p1IsWhite|]. split; [by destruct p1IsWhite|].
  split; [|done]. intros id Hne. unfold getGame, games_get. cbn.
  rewrite lookup_insert_ne by done.
  destruct (decide (id ∈ Mgr.games m)) as [Hold|Hout].
  - rewrite decide_True; [done|]. by apply elem_of_union_r.
  - rewrite decide_False; [done|].
    intros [Heq%elem_of_singleton|?]%elem_of_union; done.
Qed.

End Creating.

Lemma createGame_registers_the_game_witness :
  getTierByValue 100 = Some (Game.tier Scenario.fresh)
  ∧ (centsToSats (Js.num 100) 50 ≫= Js.to_Z) = Some 2000000
  ∧ ∃ g m',
      createGame "s1" "1Alice" "alice" "s2" "1Bob" "bob" 100 50 "g1" true 0 empty_manager
      = CreateOk g m'
      ∧ Game.depositSats g = 2000000.
Proof.
  assert (getTierByValue 100 = Some (Game.tier Scenario.fresh)) as Htier
    by (by vm_compute).
  assert (centsToSats (Js.num (depositCents (Game.tier Scenario.fresh))) 50
          = Some (Js.num 2000000)) as Hd by (by vm_compute).
  assert (Js.to_Z (Js.num 2000000) = Some 2000000) as Hsats by (by vm_compute).
  split; [exact Htier|]. split; [by vm_compute|].
  destruct (createGame_registers_the_game "s1" "1Alice" "alice" "s2" "1Bob" "bob" 100 50
              "g1" true 0 (@empty_manager Scripted.Position) _ _ _ Htier Hd Hsats)
    as (g & m' & Hc & _ & _ & Hdeposit & _).
  exists g, m'. split; [exact Hc|exact Hdeposit].
Defined.

(** ** The lobby *)

Module LobbyFacts.
Import Lobby.

Implicit Types (l : Lobby.t).

(** *** Cancelling challenges *)

Lemma players_cancelChallenge id l : players (cancelChallenge id l) = players l.
Proof. unfold cancelChallenge. cbn. by destruct (challengeTimers l !! id). Qed.

Lemma addressToSocket_cancelChallenge id l :
  addressToSocket (cancelChallenge id l) = addressToSocket l.
Proof. unfold cancelChallenge. cbn. by destruct (challengeTimers l !! id). Qed.

Lemma challenges_cancelChallenge id l :
  challenges (cancelChallenge id l) = delete id (challenges l).
Proof. unfold cancelChallenge. cbn. by destruct (challengeTimers l !! id). Qed.

Lemma challengeTimers_cancelChallenge id l :
  challengeTimers (cancelChallenge id l) = delete id (challengeTimers l).
Proof.
  unfold cancelChallenge. cbn. destruct (challengeTimers l !! id) eqn:E; cbn; [done|].
  by rewrite delete_id.
Qed.

Lemma pending_cancelChallenge id l :
  pending (cancelChallenge id l)
  = match challengeTimers l !! id with
    | Some timer => delete timer (pending l)
    | None => pending l
    end.
Proof. unfold cancelChallenge. cbn. by destruct (challengeTimers l !! id). Qed.

Lemma nextTimeout_cancelChallenge id l :
  nextTimeout (cancelChallenge id l) = nextTimeout l.
Proof. unfold cancelChallenge. cbn. by destruct (challengeTimers l !! id). Qed.

Lemma tracked_cancelChallenge id l :
  expiryTracked l -> expiryTracked (cancelChallenge id l).
Proof.
  intros (Hpend & Hrec & Hfresh). unfold expiryTracked.
  rewrite challenges_cancelChallenge, challengeTimers_cancelChallenge,
    pending_cancelChallenge, nextTimeout_cancelChallenge.
  destruct (challengeTimers l !! id) as [timer|] eqn:Htimer.
  - destruct (Hrec _ _ Htimer) as [Hp _]. split_and!.
    + intros t cid [Hne Ht]%lookup_delete_Some. apply Hpend in Ht as Hc.
      apply lookup_delete_Some. split; [|done]. intros <-. congruence.
    + intros t cid [Hne Hc]%lookup_delete_Some. destruct (Hrec _ _ Hc) as [Ht Hch].
      split; [|by rewrite lookup_delete_ne].
      apply lookup_delete_Some. split; [|done]. intros <-. congruence.
    + intros t [cid [_ Ht]%lookup_delete_Some]. apply Hfresh. by eexists.
  - split_and!; [| |done].
    + intros t cid Ht. apply Hpend in Ht as Hc.
      apply lookup_delete_Some. split; [|done]. intros <-. congruence.
    + intros t cid [Hne Hc]%lookup_delete_Some. destruct (Hrec _ _ Hc) as [Ht Hch].
      split; [done|]. by rewrite lookup_delete_ne.
Qed.

Lemma endsOnline_cancelChallenge id l :
  endsOnline l -> endsOnline (cancelChallenge id l).
Proof.
  intros Hl cid ch. rewrite challenges_cancelChallenge, players_cancelChallenge.
  intros [_ Hch]%lookup_delete_Some. by apply Hl.
Qed.

Lemma cancelEach_spec cond entries l :
  players (cancelEach cond entries l) = players l
  ∧ addressToSocket (cancelEach cond entries l) = addressToSocket l
  ∧ expired (cancelEach cond entries l) = expired l
  ∧ (expiryTracked l -> expiryTracked (cancelEach cond entries l))
  ∧ (endsOnline l -> endsOnline (cancelEach cond entries l))
  ∧ ∀ id ch, challenges (cancelEach cond entries l) !! id = Some ch ->
             challenges l !! id = Some ch
             ∧ ((id, ch) ∈ entries -> cond ch = false).
Proof.
  induction entries as [|[cid c] entries IH]; cbn.
  - split_and!; try done. intros id ch Hch. split; [done|]. by intros ?%elem_of_nil.
  - destruct IH as (Hp & Ha & He & Ht & Ho & Hc).
    destruct (cond c) eqn:Hcond.
    + rewrite players_cancelChallenge, addressToSocket_cancelChallenge,
        challenges_cancelChallenge.
      split; [done|]. split; [done|].
      split; [by unfold cancelChallenge; cbn; destruct (_ !! _)|].
      split; [by intros; apply tracked_cancelChallenge, Ht|].
      split; [by intros; apply endsOnline_cancelChallenge, Ho|].
      intros id ch [Hne Hch]%lookup_delete_Some. destruct (Hc _ _ Hch) as [Hl Hin].
      split; [done|]. intros [[= -> ->]|Hrest]%elem_of_cons; [done|by apply Hin].
    + split; [done|]. split; [done|]. split; [done|]. split; [done|]. split; [done|].
      intros id ch Hch. destruct (Hc _ _ Hch) as [Hl Hin].
      split; [done|]. intros [[= -> ->]|Hrest]%elem_of_cons; [done|by apply Hin].
Qed.

(** The loop leaves alone a challenge that does not meet the condition. *)
Lemma cancelEach_keeps cond entries l id ch :
  challenges l !! id = Some ch ->
  (∀ c, (id, c) ∈ entries -> cond c = false) ->
  challenges (cancelEach cond entries l) !! id = Some ch.
Proof.
  intros Hch. induction entries as [|[cid c] entries IH]; cbn; intros Hcond; [done|].
  assert (challenges (cancelEach cond entries l) !! id = Some ch) as Hrest
    by (apply IH; intros c' Hin; apply Hcond, elem_of_cons; by right).
  destruct (cond c) eqn:Hc; [|done].
  rewrite challenges_cancelChallenge, lookup_delete_ne; [done|].
  intros ->. assert (cond c = false) by (apply Hcond, elem_of_cons; by left). congruence.
Qed.

Lemma cancelWhere_keeps cond l id ch :
  challenges l !! id = Some ch -> cond ch = false ->
  challenges (cancelWhere cond l) !! id = Some ch.
Proof.
  intros Hch Hcond. apply cancelEach_keeps; [done|].
  intros c Hin%elem_of_map_to_list. congruence.
Qed.

Lemma cancelWhere_spec cond l :
  players (cancelWhere cond l) = players l
  ∧ addressToSocket (cancelWhere cond l) = addressToSocket l
  ∧ (expiryTracked l -> expiryTracked (cancelWhere cond l))
  ∧ (endsOnline l -> endsOnline (cancelWhere cond l))
  ∧ ∀ id ch, challenges (cancelWhere cond l) !! id = Some ch ->
             challenges l !! id = Some ch ∧ cond ch = false.
Proof.
  destruct (cancelEach_spec cond (map_to_list (challenges l)) l)
    as (Hp & Ha & _ & Ht & Ho & Hc).
  split; [done|]. split; [done|]. split; [done|]. split; [done|].
  intros id ch Hch. destruct (Hc _ _ Hch) as [Hl Hin]. split; [done|].
  by apply Hin, elem_of_map_to_list.
Qed.

(** *** Leaving and joining *)

Lemma leave_spec socketId l :
  players (leave socketId l) = delete socketId (players l)
  ∧ addressToSocket (leave socketId l)
    = match players l !! socketId with
      | Some player => delete (LobbyPlayer.address player) (addressToSocket l)
      | None => addressToSocket l
      end
  ∧ (expiryTracked l -> expiryTracked (leave socketId l))
  ∧ ∀ id ch, challenges (leave socketId l) !! id = Some ch ->
             challenges l !! id = Some ch
             ∧ Challenge.fromSocketId ch ≠ socketId
             ∧ Challenge.toSocketId ch ≠ socketId.
Proof.
  unfold leave.
  set (l2 := set_players _ _).
  destruct (cancelWhere_spec (involves socketId) l2) as (Hp & Ha & Ht & _ & Hc).
  rewrite Hp, Ha. split; [by subst l2; destruct (players l !! socketId)|].
  split; [by subst l2; destruct (players l !! socketId)|].
  split.
  { intros Hl. apply Ht. subst l2. by destruct (players l !! socketId). }
  intros id ch Hch. destruct (Hc _ _ Hch) as [Hl Hcond].
  split; [by subst l2; destruct (players l !! socketId)|].
  unfold involves in Hcond. apply bool_decide_eq_false in Hcond.
  split; intros ?; apply Hcond; auto.
Qed.

(** A challenge between other connections outlives the leave. *)
Lemma leave_keeps socketId l id ch :
  challenges l !! id = Some ch ->
  Challenge.fromSocketId ch ≠ socketId ->
  Challenge.toSocketId ch ≠ socketId ->
  challenges (leave socketId l) !! id = Some ch.
Proof.
  intros Hch Hfrom Hto. unfold leave. apply cancelWhere_keeps.
  - by destruct (players l !! socketId).
  - apply bool_decide_eq_false. by intros [?|?].
Qed.

Lemma registered_leave socketId l : registered l -> registered (leave socketId l).
Proof.
  intros Hl sid p. destruct (leave_spec socketId l) as (-> & -> & _).
  intros [Hne Hp]%lookup_delete_Some. destruct (Hl _ _ Hp) as (Hnamed & Hsid & Haddr).
  split; [done|]. split; [done|].
  destruct (players l !! socketId) as [q|] eqn:Hq; [|done].
  destruct (Hl _ _ Hq) as (_ & _ & Hq').
  apply lookup_delete_Some. split; [|done]. intros Heq. rewrite Heq in Hq'. congruence.
Qed.

Lemma endsOnline_leave socketId l : endsOnline l -> endsOnline (leave socketId l).
Proof.
  intros Hl id ch Hch. destruct (leave_spec socketId l) as (Hp & _ & _ & Hc).
  destruct (Hc _ _ Hch) as (Hold & Hfrom & Hto). destruct (Hl _ _ Hold) as (? & ? & ?).
  rewrite Hp. split; [done|]. by rewrite !lookup_delete_ne.
Qed.

Lemma join_vacated socketId address username stats now l :
  players (join socketId address username stats now l)
  = <[socketId :=
        {| LobbyPlayer.socketId := socketId;
           LobbyPlayer.address := address;
           LobbyPlayer.username := username;
           LobbyPlayer.status := idle;
           LobbyPlayer.joinedAt := now;
           LobbyPlayer.gamesWon := default 0 (stats ≫= fst);
           LobbyPlayer.gamesPlayed := default 0 (stats ≫= snd) |}]>
      (players (vacated socketId address l))
  ∧ addressToSocket (join socketId address username stats now l)
    = <[address := socketId]> (addressToSocket (vacated socketId address l))
  ∧ challenges (join socketId address username stats now l)
    = challenges (vacated socketId address l)
  ∧ challengeTimers (join socketId address username stats now l)
    = challengeTimers (vacated socketId address l)
  ∧ pending (join socketId address username stats now l)
    = pending (vacated socketId address l)
  ∧ nextTimeout (join socketId address username stats now l)
    = nextTimeout (vacated socketId address l).
Proof. done. Qed.

Lemma vacated_free socketId address l :
  registered l -> socketId ≠ "" ->
  registered (vacated socketId address l)
  ∧ ∀ sid p, players (vacated socketId address l) !! sid = Some p ->
             LobbyPlayer.address p = address -> sid = socketId.
Proof.
  intros Hl Hnamed. unfold vacated.
  destruct (addressToSocket l !! address) as [existing|] eqn:Hex.
  - case_decide as Hother.
    + split; [by apply registered_leave|]. intros sid p.
      destruct (leave_spec existing l) as (-> & _).
      intros [Hne Hp]%lookup_delete_Some Haddr.
      destruct (Hl _ _ Hp) as (_ & _ & Hrec). rewrite Haddr in Hrec. congruence.
    + split; [done|]. intros sid p Hp Haddr.
      destruct (Hl _ _ Hp) as (Hsid & _ & Hrec). rewrite Haddr in Hrec.
      assert (existing = sid) as -> by congruence.
      destruct (decide (sid = socketId)) as [|Hne]; [done|].
      destruct Hother. done.
  - split; [done|]. intros sid p Hp Haddr.
    destruct (Hl _ _ Hp) as (_ & _ & Hrec). rewrite Haddr in Hrec. congruence.
Qed.

Lemma registered_join socketId address username stats now l :
  registered l -> socketId ≠ "" ->
  registered (join socketId address username stats now l).
Proof.
  intros Hl Hnamed sid p.
  destruct (join_vacated socketId address username stats now l) as (-> & -> & _).
  destruct (vacated_free socketId address l Hl Hnamed) as (Hv & Hfree).
  intros [[<- <-]|[Hne Hp]]%lookup_insert_Some; cbn.
  - split; [done|]. split; [done|]. apply lookup_insert_eq.
  - destruct (Hv _ _ Hp) as (? & ? & ?). split; [done|]. split; [done|].
    rewrite lookup_insert_ne; [done|]. intros Heq. destruct Hne. symmetry.
    by eapply Hfree.
Qed.

Lemma vacated_keeps socketId address l :
  (endsOnline l -> endsOnline (vacated socketId address l))
  ∧ (expiryTracked l -> expiryTracked (vacated socketId address l)).
Proof.
  unfold vacated. destruct (addressToSocket l !! address) as [existing|]; [|done].
  case_decide; [|done]. split; [apply endsOnline_leave|].
  by destruct (leave_spec existing l) as (_ & _ & ? & _).
Qed.

Lemma endsOnline_join socketId address username stats now l :
  endsOnline l -> endsOnline (join socketId address username stats now l).
Proof.
  intros Hl id ch.
  destruct (join_vacated socketId address username stats now l) as (-> & _ & -> & _).
  intros Hch. destruct (proj1 (vacated_keeps socketId address l) Hl _ _ Hch)
    as (? & Hfrom & Hto).
  split; [done|]. split; apply lookup_insert_is_Some'; by right.
Qed.

Lemma tracked_join socketId address username stats now l :
  expiryTracked l -> expiryTracked (join socketId address username stats now l).
Proof.
  intros Hl. unfold expiryTracked.
  destruct (join_vacated socketId address username stats now l)
    as (_ & _ & -> & -> & -> & ->).
  by apply vacated_keeps.
Qed.

(** *** The other operations *)

Lemma setStatus_spec socketId status l :
  (registered l -> registered (setStatus socketId status l))
  ∧ (endsOnline l -> endsOnline (setStatus socketId status l))
  ∧ (expiryTracked l -> expiryTracked (setStatus socketId status l)).
Proof.
  unfold setStatus. destruct (players l !! socketId) as [p|] eqn:Hp; [|done].
  split_and!; [| |done].
  - intros Hl sid q. cbn. intros [[<- <-]|[Hne Hq]]%lookup_insert_Some; cbn.
    + by apply Hl.
    + by apply Hl.
  - intros Hl id ch Hch. cbn in *. destruct (Hl _ _ Hch) as (? & ? & ?).
    split; [done|]. split; apply lookup_insert_is_Some'; by right.
Qed.

Lemma createChallenge_spec fromSocketId toAddress stakeTier challengeId createdAt now l :
  let l' := snd (createChallenge fromSocketId toAddress stakeTier challengeId createdAt
                   now l) in
  players l' = players l
  ∧ addressToSocket l' = addressToSocket l
  ∧ (endsOnline l -> endsOnline l')
  ∧ (expiryTracked l -> challenges l !! challengeId = None -> expiryTracked l').
Proof.
  unfold createChallenge.
  destruct (players l !! fromSocketId) as [from|] eqn:Hfrom; [|done].
  case_decide; [done|].
  destruct (addressToSocket l !! toAddress) as [toSocketId|]; [|done].
  case_decide; [done|].
  destruct (players l !! toSocketId) as [to|] eqn:Hto; [|done].
  case_decide; [done|]. case_decide; [done|]. case_decide; [done|].
  cbn. split; [done|]. split; [done|]. split.
  - intros Hl id ch. cbn.
    intros [[<- <-]|[Hne Hch]]%lookup_insert_Some; cbn; [|by apply Hl].
    by rewrite Hfrom, Hto.
  - intros (Hpend & Hrec & Hfresh) Hnew. unfold expiryTracked. cbn.
    assert (challengeTimers l !! challengeId = None) as Hnorec.
    { destruct (challengeTimers l !! challengeId) as [t|] eqn:E; [|done].
      destruct (Hrec _ _ E) as [_ [? ?]]. congruence. }
    assert (pending l !! nextTimeout l = None) as Hnopend.
    { destruct (pending l !! nextTimeout l) eqn:E; [|done].
      assert (nextTimeout l < nextTimeout l)%nat by (apply Hfresh; by eexists). lia. }
    split_and!.
    + intros t cid [[<- <-]|[Hne Ht]]%lookup_insert_Some.
      * apply lookup_insert_eq.
      * apply Hpend in Ht as Hc. rewrite lookup_insert_ne; [done|]. congruence.
    + intros t cid [[<- <-]|[Hne Hc]]%lookup_insert_Some.
      * rewrite !lookup_insert_eq. by split.
      * destruct (Hrec _ _ Hc) as [Ht Hch].
        rewrite !lookup_insert_ne; [done|done|]. congruence.
    + intros t [cid [[<- <-]|[Hne Ht]]%lookup_insert_Some]; [lia|].
      assert (t < nextTimeout l)%nat by (apply Hfresh; by eexists). lia.
Qed.

Lemma tracked_fireTimeout timer l : expiryTracked l -> expiryTracked (fireTimeout timer l).
Proof.
  intros (Hpend & Hrec & Hfresh). unfold fireTimeout.
  destruct (pending l !! timer) as [cid|] eqn:Htimer; [|done].
  pose proof (Hpend _ _ Htimer) as Hc. destruct (Hrec _ _ Hc) as [_ [ch Hch]].
  unfold onChallengeTimeout. cbn. rewrite Hch. unfold expiryTracked. cbn. split_and!.
  - intros t c [Hne Ht]%lookup_delete_Some. apply Hpend in Ht as Hc'.
    apply lookup_delete_Some. split; [|done]. intros <-. congruence.
  - intros t c [Hne Hc']%lookup_delete_Some. destruct (Hrec _ _ Hc') as [Ht Hch'].
    split; [|by rewrite lookup_delete_ne].
    apply lookup_delete_Some. split; [|done]. intros <-. congruence.
  - intros t [c [_ Ht]%lookup_delete_Some]. apply Hfresh. by eexists.
Qed.

Lemma fireTimeout_keeps timer l :
  players (fireTimeout timer l) = players l
  ∧ addressToSocket (fireTimeout timer l) = addressToSocket l
  ∧ (endsOnline l -> endsOnline (fireTimeout timer l)).
Proof.
  unfold fireTimeout. destruct (pending l !! timer) as [cid|]; [|done].
  unfold onChallengeTimeout. cbn. destruct (challenges l !! cid) as [ch|]; [|done].
  cbn. split; [done|]. split; [done|].
  intros Hl id c. cbn. intros [_ Hc]%lookup_delete_Some. by apply Hl.
Qed.

Lemma step_registered op now l :
  registered l -> namedJoin op -> registered (step op now l).
Proof.
  intros Hl Hop. destruct op; cbn [step].
  - by apply registered_join.
  - by apply registered_leave.
  - by apply setStatus_spec.
  - unfold setStatusByAddress. destruct (addressToSocket l !! address); [|done].
    case_decide; [done|]. by apply setStatus_spec.
  - intros sid p.
    destruct (createChallenge_spec fromSocketId toAddress stakeTier challengeId
                createdAt now l) as (-> & -> & _).
    apply Hl.
  - unfold acceptChallenge. destruct (challenges l !! challengeId); [|done].
    case_decide; [done|]. destruct (negb _); [done|]. destruct (negb _); [done|].
    intros sid p. cbn. rewrite players_cancelChallenge, addressToSocket_cancelChallenge.
    apply Hl.
  - unfold declineChallenge. destruct (challenges l !! challengeId); [|done].
    case_decide; [done|].
    intros sid p. cbn. rewrite players_cancelChallenge, addressToSocket_cancelChallenge.
    apply Hl.
  - intros sid p. rewrite players_cancelChallenge, addressToSocket_cancelChallenge.
    apply Hl.
  - intros sid p. unfold cancelChallengesFrom.
    destruct (cancelWhere_spec
                (fun ch => bool_decide (Challenge.fromSocketId ch = socketId)) l)
      as (-> & -> & _).
    apply Hl.
  - intros sid p. destruct (fireTimeout_keeps timer l) as (-> & -> & _). apply Hl.
Qed.

Lemma step_endsOnline op now l : endsOnline l -> endsOnline (step op now l).
Proof.
  intros Hl. destruct op; cbn [step].
  - by apply endsOnline_join.
  - by apply endsOnline_leave.
  - by apply setStatus_spec.
  - unfold setStatusByAddress. destruct (addressToSocket l !! address); [|done].
    case_decide; [done|]. by apply setStatus_spec.
  - by apply createChallenge_spec.
  - unfold acceptChallenge. destruct (challenges l !! challengeId); [|done].
    case_decide; [done|]. destruct (negb _); [done|]. destruct (negb _); [done|].
    by apply endsOnline_cancelChallenge.
  - unfold declineChallenge. destruct (challenges l !! challengeId); [|done].
    case_decide; [done|]. by apply endsOnline_cancelChallenge.
  - by apply endsOnline_cancelChallenge.
  - by apply cancelWhere_spec.
  - by apply fireTimeout_keeps.
Qed.

Lemma step_tracked op now l :
  expiryTracked l -> freshId op l -> expiryTracked (step op now l).
Proof.
  intros Hl Hop. destruct op; cbn [step].
  - by apply tracked_join.
  - by apply leave_spec.
  - by apply setStatus_spec.
  - unfold setStatusByAddress. destruct (addressToSocket l !! address); [|done].
    case_decide; [done|]. by apply setStatus_spec.
  - by apply createChallenge_spec.
  - unfold acceptChallenge. destruct (challenges l !! challengeId); [|done].
    case_decide; [done|]. destruct (negb _); [done|]. destruct (negb _); [done|].
    by apply tracked_cancelChallenge.
  - unfold declineChallenge. destruct (challenges l !! challengeId); [|done].
    case_decide; [done|]. by apply tracked_cancelChallenge.
  - by apply tracked_cancelChallenge.
  - by apply cancelWhere_spec.
  - by apply tracked_fireTimeout.
Qed.

Lemma run_registered ops l :
  registered l -> Forall (fun '(op, _) => namedJoin op) ops -> registered (run ops l).
Proof.
  intros Hl Hops. revert l Hl.
  induction Hops as [|[op now] ops Hop _ IH]; intros l Hl; cbn; [done|].
  by apply IH, step_registered.
Qed.

Lemma run_endsOnline ops l : endsOnline l -> endsOnline (run ops l).
Proof.
  revert l. induction ops as [|[op now] ops IH]; intros l Hl; cbn; [done|].
  by apply IH, step_endsOnline.
Qed.

Lemma run_tracked ops l :
  expiryTracked l -> freshIds ops l -> expiryTracked (run ops l).
Proof.
  revert l. induction ops as [|[op now] ops IH]; intros l Hl Hops; cbn; [done|].
  destruct Hops as [Hop Hrest]. by apply IH; [apply step_tracked|].
Qed.

Lemma registered_empty : registered empty.
Proof. intros sid p. cbn. by rewrite lookup_empty. Qed.

Lemma endsOnline_empty : endsOnline empty.
Proof. intros id ch. cbn. by rewrite lookup_empty. Qed.

Lemma tracked_empty_lobby : expiryTracked empty.
Proof.
  split_and!; cbn; intros t; intros; rewrite ?lookup_empty in *;
    try done; by destruct H.
Qed.

(** *** What holds of every lobby *)

(** X26.  Whatever the socket layer does, from the empty lobby on and with socket
    ids that are not empty: two online players never share an address, and
    an online player is the one found by their address. *)
Theorem lobby_one_connection_per_address ops :
  Forall (fun '(op, _) => namedJoin op) ops ->
  let l := run ops empty in
  ∀ s1 s2 p1 p2,
    players l !! s1 = Some p1 -> players l !! s2 = Some p2 ->
    LobbyPlayer.address p1 = LobbyPlayer.address p2 ->
    s1 = s2
    ∧ getPlayerByAddress (LobbyPlayer.address p1) l = Some p1
    ∧ isOnline (LobbyPlayer.address p1) l = true.
Proof.
  intros Hops l s1 s2 p1 p2 H1 H2 Haddr.
  pose proof (run_registered ops empty registered_empty Hops) as Hl. fold l in Hl.
  destruct (Hl _ _ H1) as (Hn1 & _ & Ha1). destruct (Hl _ _ H2) as (_ & _ & Ha2).
  split; [congruence|]. unfold getPlayerByAddress, isOnline. rewrite Ha1.
  rewrite decide_False by done. split; [done|]. apply bool_decide_eq_true. by eexists.
Qed.

(** X27.  Whatever the socket layer does, from the empty lobby on: a stored
    challenge is stored under its id and both its ends are online; and when
    a connection leaves, the challenges left are exactly those that were
    stored and are neither from it nor to it. *)
Theorem lobby_challenges_join_online_players ops :
  let l := run ops empty in
  (∀ id ch, challenges l !! id = Some ch ->
            Challenge.id ch = id
            ∧ is_Some (getPlayer (Challenge.fromSocketId ch) l)
            ∧ is_Some (getPlayer (Challenge.toSocketId ch) l))
  ∧ ∀ socketId id ch,
      challenges (leave socketId l) !! id = Some ch
      ↔ challenges l !! id = Some ch
        ∧ Challenge.fromSocketId ch ≠ socketId
        ∧ Challenge.toSocketId ch ≠ socketId.
Proof.
  intros l. split.
  - apply (run_endsOnline ops empty endsOnline_empty).
  - intros socketId id ch. split; [apply leave_spec|].
    intros (Hch & Hfrom & Hto). by apply leave_keeps.
Qed.

(** X28.  With challenge ids that are new when generated: a challenge has at
    most one expiry pending, and a pending expiry is that of a stored
    challenge; cancelling a challenge leaves no expiry of it pending; an
    expiry that fires removes the challenge, reports it once, and cannot
    fire again. *)
Theorem lobby_expiry_is_tracked ops :
  freshIds ops empty ->
  let l := run ops empty in
  (∀ t1 t2 id, pending l !! t1 = Some id -> pending l !! t2 = Some id -> t1 = t2)
  ∧ (∀ t id, pending l !! t = Some id ->
       ∃ ch, challenges l !! id = Some ch
             ∧ challenges (fireTimeout t l) !! id = None
             ∧ expired (fireTimeout t l) = expired l ++ [ch]
             ∧ fireTimeout t (fireTimeout t l) = fireTimeout t l)
  ∧ (∀ id t, pending (cancelChallenge id l) !! t ≠ Some id).
Proof.
  intros Hops l.
  pose proof (run_tracked ops empty tracked_empty_lobby Hops) as Hl. fold l in Hl.
  clearbody l. split_and!.
  - destruct Hl as (Hpend & _). intros t1 t2 id H1%Hpend H2%Hpend. congruence.
  - destruct Hl as (Hpend & Hrec & _). intros t id Ht.
    destruct (Hrec _ _ (Hpend _ _ Ht)) as [_ [ch Hch]]. exists ch.
    assert (fireTimeout t l
            = set_expired (expired l ++ [ch])
                (set_challengeTimers (delete id (challengeTimers l))
                   (set_challenges (delete id (challenges l))
                      (set_pending (delete t (pending l)) l)))) as ->.
    { unfold fireTimeout. rewrite Ht. unfold onChallengeTimeout. cbn. by rewrite Hch. }
    split; [done|]. cbn. split; [apply lookup_delete_eq|]. split; [done|].
    unfold fireTimeout. cbn. by rewrite lookup_delete_eq.
  - intros id t Ht. destruct (tracked_cancelChallenge id l Hl) as (Hpend & _).
    apply Hpend in Ht. rewrite challengeTimers_cancelChallenge, lookup_delete_eq in Ht.
    done.
Qed.

(** X29.  An accepted challenge is used up: it was addressed to the accepting
    connection, both players were idle, and afterwards it is gone with no
    expiry of it pending, so that accepting or declining it again fails;
    the players stay as they were. *)
Theorem acceptChallenge_consumes_the_challenge challengeId socketId l ch :
  expiryTracked l ->
  fst (acceptChallenge challengeId socketId l) = Outcome.ok ch ->
  let l' := snd (acceptChallenge challengeId socketId l) in
  challenges l !! challengeId = Some ch
  ∧ Challenge.toSocketId ch = socketId
  ∧ available (getPlayer (Challenge.fromSocketId ch) l) = true
  ∧ available (getPlayer socketId l) = true
  ∧ challenges l' !! challengeId = None
  ∧ (∀ t, pending l' !! t ≠ Some challengeId)
  ∧ players l' = players l
  ∧ (∀ sid, acceptChallenge challengeId sid l'
            = (Outcome.failure "Challenge not found or expired", l'))
  ∧ (∀ sid, declineChallenge challengeId sid l'
            = (Outcome.failure "Challenge not found", l')).
Proof.
  intros Hl Hok l'.
  assert (challenges l !! challengeId = Some ch
          ∧ Challenge.toSocketId ch = socketId
          ∧ available (players l !! Challenge.fromSocketId ch) = true
          ∧ available (players l !! Challenge.toSocketId ch) = true
          ∧ l' = cancelChallenge challengeId l) as (Hc & Hto & Hfrom & Havail & ->).
  { subst l'. revert Hok. unfold acceptChallenge.
    destruct (challenges l !! challengeId) as [c|] eqn:Hc; [|done].
    case_decide as Hto; [done|].
    destruct (available (players l !! Challenge.fromSocketId c)) eqn:Hfrom; [|done].
    destruct (available (players l !! Challenge.toSocketId c)) eqn:Havail; [|done].
    cbn. by intros [= ->]. }
  clear Hok.
  assert (challenges (cancelChallenge challengeId l) !! challengeId = None) as Hgone
    by (by rewrite challenges_cancelChallenge, lookup_delete_eq).
  split; [done|]. split; [done|]. split; [done|]. unfold getPlayer.
  split; [by rewrite <- Hto|]. split; [done|]. split.
  { intros t Ht. destruct (tracked_cancelChallenge challengeId l Hl) as (Hpend & _).
    apply Hpend in Ht. rewrite challengeTimers_cancelChallenge, lookup_delete_eq in Ht.
    done. }
  split; [apply players_cancelChallenge|].
  split; intros sid; unfold acceptChallenge, declineChallenge; by rewrite Hgone.
Qed.

(** X30.  A connection that joins again under another address keeps its old
    address on record: the old address still counts as online and leads to
    the player, who now has the new address, although no online player has
    the old one; and a challenge sent by that connection to its old address
    passes the check against challenging oneself. *)
Theorem rejoin_keeps_the_old_address_online ops socketId a b name stats now now' :
  Forall (fun '(op, _) => namedJoin op) ops -> socketId ≠ "" -> a ≠ b ->
  let l := join socketId b name stats now' (join socketId a name stats now (run ops empty)) in
  isOnline a l = true
  ∧ (∃ p, getPlayerByAddress a l = Some p ∧ LobbyPlayer.address p = b)
  ∧ (∀ s p, players l !! s = Some p -> LobbyPlayer.address p ≠ a)
  ∧ ∀ stakeTier challengeId createdAt now'',
      let out := fst (createChallenge socketId a stakeTier challengeId createdAt now'' l) in
      out = Outcome.failure "Challenge already pending"
      ∨ ∃ ch, out = Outcome.ok ch
              ∧ Challenge.fromSocketId ch = socketId
              ∧ Challenge.toSocketId ch = socketId.
Proof.
  intros Hops Hnamed Hab l.
  pose proof (run_registered ops empty registered_empty Hops) as H0.
  pose proof (registered_join socketId a name stats now _ H0 Hnamed) as H1.
  pose proof (registered_join socketId b name stats now' _ H1 Hnamed) as H2.
  fold l in H2.
  set (l1 := join socketId a name stats now (run ops empty)) in *.
  assert (addressToSocket l1 !! a = Some socketId) as Ha1.
  { subst l1. destruct (join_vacated socketId a name stats now (run ops empty))
      as (_ & -> & _). apply lookup_insert_eq. }
  assert (addressToSocket (vacated socketId b l1) !! a = Some socketId) as Hav.
  { unfold vacated. destruct (addressToSocket l1 !! b) as [e|] eqn:He; [|done].
    case_decide as Hother; [|done]. destruct (leave_spec e l1) as (_ & -> & _).
    destruct (players l1 !! e) as [pe|] eqn:Hpe; [|done].
    rewrite lookup_delete_ne; [done|]. intros Heq.
    destruct (H1 _ _ Hpe) as (_ & _ & Hrec). rewrite Heq in Hrec.
    destruct Hother as [_ Hother]. congruence. }
  destruct (join_vacated socketId b name stats now' l1) as (Hp & Hs & _).
  fold l in Hp, Hs.
  assert (addressToSocket l !! a = Some socketId) as Ha
    by (by rewrite Hs, lookup_insert_ne).
  assert (players l !! socketId
          = Some {| LobbyPlayer.socketId := socketId;
                    LobbyPlayer.address := b;
                    LobbyPlayer.username := name;
                    LobbyPlayer.status := idle;
                    LobbyPlayer.joinedAt := now';
                    LobbyPlayer.gamesWon := default 0 (stats ≫= fst);
                    LobbyPlayer.gamesPlayed := default 0 (stats ≫= snd) |}) as Hme
    by (by rewrite Hp, lookup_insert_eq).
  clearbody l. split.
  { unfold isOnline. apply bool_decide_eq_true. by eexists. }
  split.
  { unfold getPlayerByAddress. rewrite Ha, decide_False by done. by eexists. }
  split.
  { intros s p Hsp Haddr. destruct (H2 _ _ Hsp) as (_ & _ & Hrec).
    rewrite Haddr in Hrec. assert (s = socketId) as -> by congruence.
    rewrite Hme in Hsp. injection Hsp as <-. cbn in Haddr. congruence. }
  intros stakeTier challengeId createdAt now'' out. subst out.
  unfold createChallenge. rewrite Hme. cbn [LobbyPlayer.status LobbyPlayer.address].
  rewrite decide_False by (by intros []). rewrite Ha. rewrite decide_False by done.
  rewrite Hme. cbn [LobbyPlayer.status LobbyPlayer.address].
  rewrite decide_False by (by intros []). rewrite decide_False by congruence.
  case_decide; [by left|]. right. by eexists.
Qed.

End LobbyFacts.

(** ** The properties on concrete games *)

Lemma heapSound_singleton {Position : Type} (m : Mgr.t Position) id g :
  Mgr.heap m = {[id := g]} -> Game.id g = id ->
  0 <= Game.depositSats g -> 0 <= Game.baseSats g -> heapSound m.
Proof.
  intros Hheap Hid Hdep Hbase id' g' Hg'. rewrite Hheap in Hg'.
  apply lookup_singleton_Some in Hg' as [<- <-]. done.
Qed.

Lemma created_sound : heapSound Scenario.created.
Proof.
  refine (heapSound_singleton _ "g1" (Scenario.gameIn Scenario.created) _ _ _ _);
    by vm_compute.
Qed.

Lemma started_sound : heapSound Scenario.started.
Proof.
  refine (heapSound_singleton _ "g1" (Scenario.gameIn Scenario.started) _ _ _ _);
    by vm_compute.
Qed.

Lemma afterCaptures_sound : heapSound Scenario.afterCaptures.
Proof.
  refine (heapSound_singleton _ "g1" (Scenario.gameIn Scenario.afterCaptures) _ _ _ _);
    by vm_compute.
Qed.

Lemma abandoned_sound : heapSound Scenario.abandoned.
Proof.
  refine (heapSound_singleton _ "g1" (Scenario.gameIn Scenario.abandoned) _ _ _ _);
    by vm_compute.
Qed.

Lemma dropped_sound : heapSound Cases.dropped.
Proof.
  refine (heapSound_singleton _ "g1" (Scenario.gameIn Cases.dropped) _ _ _ _);
    by vm_compute.
Qed.

Lemma dropped_tracked : clocksTracked Cases.dropped.
Proof. exact (tracked_handleDisconnect "s1" 3 Scenario.started started_tracked). Qed.

Lemma started_lookup :
  Mgr.heap Scenario.started !! "g1" = Some (Scenario.gameIn Scenario.started).
Proof. by vm_compute. Qed.

Lemma abandoned_lookup :
  Mgr.heap Scenario.abandoned !! "g1" = Some (Scenario.gameIn Scenario.abandoned).
Proof. by vm_compute. Qed.

Lemma moves_notCreate : Forall (fun '(op, _) => notCreate op) Cases.moves.
Proof. by repeat constructor. Qed.

(** Through the opening the pot of the started game only grows. *)
Lemma run_pot_witness :
  ∃ g', Mgr.heap (run Cases.moves Scenario.started) !! "g1" = Some g'
        ∧ Game.pot (Scenario.gameIn Scenario.started) <= Game.pot g'.
Proof.
  exact (run_pot Cases.moves Scenario.started "g1" _ started_sound moves_notCreate
           started_lookup).
Defined.

Lemma records_are_append_only_witness :
  ∃ g', Mgr.heap (run Cases.moves Scenario.started) !! "g1" = Some g'
        ∧ Game.capturePayments (Scenario.gameIn Scenario.started)
          `prefix_of` Game.capturePayments g'
        ∧ Game.moveHistory (Scenario.gameIn Scenario.started)
          `prefix_of` Game.moveHistory g'
        ∧ (Forall wellSplit (Game.capturePayments (Scenario.gameIn Scenario.started)) ->
           Forall wellSplit (Game.capturePayments g')).
Proof.
  exact (records_are_append_only Cases.moves Scenario.started "g1" _ started_sound
           moves_notCreate started_lookup).
Defined.

Lemma terms_of_a_game_are_fixed_witness :
  ∃ g', Mgr.heap (run Cases.moves Scenario.started) !! "g1" = Some g'
        ∧ Game.depositSats g' = 2000000
        ∧ Player.address (Game.black g') = "1Bob".
Proof.
  destruct (terms_of_a_game_are_fixed Cases.moves Scenario.started "g1" _ started_sound
              moves_notCreate started_lookup)
    as (g' & Hg' & _ & _ & Hdep & _ & Hseats).
  exists g'. split; [exact Hg'|]. split; [exact Hdep|].
  exact (proj1 (Hseats black)).
Defined.

Lemma afterwards_others :
  Forall (fun '(op, _) => notCreate op ∧ notConfirm op ∧ notPause op) Cases.afterwards.
Proof. by repeat constructor. Qed.

Lemma afterwards_notConfirm :
  Forall (fun '(op, _) => notCreate op ∧ notConfirm op) Cases.afterwards.
Proof. by repeat constructor. Qed.

(** The abandoned game is over with one deposit in its pot; a reconnect, a
    resignation and a timeout leave it so. *)
Lemma only_confirmation_starts_play_witness :
  ∃ g', Mgr.heap (run Cases.afterwards Scenario.abandoned) !! "g1" = Some g'
        ∧ Game.phase g' ≠ playing
        ∧ Game.pot g' = Game.pot (Scenario.gameIn Scenario.abandoned).
Proof.
  assert (Game.phase (Scenario.gameIn Scenario.abandoned) ≠ playing) as Hph
    by (by vm_compute).
  exact (only_confirmation_starts_play Cases.afterwards Scenario.abandoned "g1" _
           abandoned_sound afterwards_notConfirm abandoned_lookup Hph).
Defined.

Lemma gameover_is_final_witness :
  ∃ g', Mgr.heap (run Cases.afterwards Scenario.abandoned) !! "g1" = Some g'
        ∧ Game.phase g' = gameover.
Proof.
  assert (Game.phase (Scenario.gameIn Scenario.abandoned) = gameover) as Hph
    by (by vm_compute).
  exact (gameover_is_final Cases.afterwards Scenario.abandoned "g1" _
           abandoned_sound afterwards_others abandoned_lookup Hph).
Defined.

(** Black leaves the created game before anybody has paid. *)
Lemma handleDisconnect_during_deposits_witness :
  ∃ d, fst (handleDisconnect "s2" 1 Scenario.created) = Some d
       ∧ Disconnection.graceStarted d = false
       ∧ Disconnection.wagerRefund d = None.
Proof.
  assert (getGameBySocket "s2" Scenario.created = Some Scenario.fresh) as Hg
    by (by vm_compute).
  assert (Game.phase Scenario.fresh = awaiting_wagers) as Hph by done.
  assert (getSlot Scenario.fresh "s2" = Some black) as Hslot by (by vm_compute).
  destruct (handleDisconnect_during_deposits "s2" 1 Scenario.created Scenario.fresh black
              Hg Hph Hslot)
    as (d & r & g' & Hd & _ & _ & Hgrace & _ & _ & _ & _ & _ & Hrefund & _).
  exists d. split; [exact Hd|]. split; [exact Hgrace|]. exact Hrefund.
Defined.

(** White's connection drops in the started game: the turn clock (handle
    0) stops and the grace clock starts under handle 1. *)
Lemma handleDisconnect_starts_grace_witness :
  Mgr.turnTimers Cases.dropped !! "g1" = None
  ∧ Mgr.disconnectTimers Cases.dropped !! disconnectKey "g1" white = Some 1%nat
  ∧ Mgr.pending Cases.dropped !! 1%nat = Some (DisconnectExpiry "g1" white black).
Proof.
  assert (getGameBySocket "s1" Scenario.started
          = Some (Scenario.gameIn Scenario.started)) as Hg by (by vm_compute).
  assert (Game.phase (Scenario.gameIn Scenario.started) = playing
          ∨ Game.phase (Scenario.gameIn Scenario.started) = paused) as Hph
    by (left; by vm_compute).
  assert (getSlot (Scenario.gameIn Scenario.started) "s1" = Some white) as Hslot
    by (by vm_compute).
  exact (proj2 (proj2 (handleDisconnect_starts_grace "s1" 3 Scenario.started
                         (Scenario.gameIn Scenario.started) white Hg Hph Hslot))).
Defined.

(** White comes back on a new connection. *)
Lemma handleReconnect_restores_seat_witness :
  Mgr.playerToGame (snd (handleReconnect "s7" "g1" "1Alice" 4 Cases.dropped)) !! "s7"
  = Some "g1"
  ∧ Mgr.playerToGame (snd (handleReconnect "s7" "g1" "1Alice" 4 Cases.dropped)) !! "s1"
    = Some "g1".
Proof.
  assert (games_get "g1" Cases.dropped = Some (Scenario.gameIn Cases.dropped)) as Hg
    by (by vm_compute).
  assert (Game.id (Scenario.gameIn Cases.dropped) = "g1") as Hid by (by vm_compute).
  assert (Game.phase (Scenario.gameIn Cases.dropped) ≠ gameover) as Hph
    by (by vm_compute).
  assert (seatByAddress (Scenario.gameIn Cases.dropped) "1Alice" = Some white) as Hseat
    by (by vm_compute).
  pose proof (handleReconnect_restores_seat "s7" "g1" "1Alice" 4 Cases.dropped
                (Scenario.gameIn Cases.dropped) white dropped_tracked Hg Hid Hph Hseat)
    as (_ & _ & Hnew & Hold & _).
  split; [exact Hnew|].
  assert ("s1" ≠ "s7") as Hne by done.
  assert (Mgr.playerToGame Cases.dropped !! "s1" = Some "g1") as Hbound
    by (by vm_compute).
  exact (eq_trans (Hold "s1" Hne) Hbound).
Defined.

(** The turn clock of the started game runs out on white's move: black
    wins, and the handler of the socket layer hands on the same result. *)
Lemma timeout_handlers_repeat_the_result_witness :
  phaseOf "g1" (snd (onExpiry (TurnExpiry "g1") 300002 Scenario.started)) = Some gameover
  ∧ GameOver.winner
      (fst (endGame (Scenario.gameIn Scenario.started) black timeout 300002
              Scenario.started)) = Some black.
Proof.
  assert (fst (onExpiry (TurnExpiry "g1") 300002 Scenario.started)
          = Some (fst (endGame (Scenario.gameIn Scenario.started) black timeout 300002
                         Scenario.started))) as Hr by (by vm_compute).
  assert (taskGame (TurnExpiry "g1") ∈ Mgr.games Scenario.started) as Hreg
    by (by vm_compute).
  assert (∀ id slot opponent, TurnExpiry "g1" ≠ DisconnectExpiry id slot opponent)
    as Htask by done.
  split.
  - exact (proj1 (timeout_handlers_repeat_the_result (TurnExpiry "g1") 300002
                    Scenario.started _ started_sound Hr Hreg Htask)).
  - by vm_compute.
Defined.

(** White does not come back: black wins by the grace clock, and the
    handler of the socket layer returns without a result. *)
Lemma disconnect_timeout_is_never_settled_witness :
  phaseOf "g1" (snd (onDisconnectExpiry "g1" white black 120003 Cases.dropped))
  = Some gameover
  ∧ ∀ now', Socket.deliver (OnDisconnectTimeout "g1" black white) now'
              (snd (onDisconnectExpiry "g1" white black 120003 Cases.dropped))
            = (None, snd (onDisconnectExpiry "g1" white black 120003 Cases.dropped)).
Proof.
  assert (fst (onDisconnectExpiry "g1" white black 120003 Cases.dropped)
          = Some (fst (endGame (Scenario.gameIn Cases.dropped) black disconnect 120003
                         Cases.dropped))) as Hr by (by vm_compute).
  pose proof (disconnect_timeout_is_never_settled "g1" white black 120003 Cases.dropped
                _ dropped_sound Hr) as (_ & _ & Hover & _ & Hnone).
  split; [exact Hover|exact Hnone].
Defined.

(** White's deposit is submitted in the created game. *)
Lemma submit_wager_counts_a_deposit_once_witness :
  ∃ g', Mgr.heap (snd (Socket.submit_wager "s1" (Some "tx1") 1 Scenario.created)) !! "g1"
        = Some g'
        ∧ paidSeats g' = 1
        ∧ Game.pot g' = Game.depositSats g' * paidSeats g'.
Proof.
  assert (getGameBySocket "s1" Scenario.created = Some Scenario.fresh) as Hg
    by (by vm_compute).
  assert (Game.pot Scenario.fresh = Game.depositSats Scenario.fresh * paidSeats Scenario.fresh)
    as Hpot by (by vm_compute).
  assert (fst (Socket.submit_wager "s1" (Some "tx1") 1 Scenario.created)
          = Socket.WagerConfirmed
              {| ConfirmResult.success := true; ConfirmResult.bothPaid := false;
                 ConfirmResult.error := None |}) as Hc by (by vm_compute).
  destruct (submit_wager_counts_a_deposit_once "s1" "tx1" 1 Scenario.created
              Scenario.fresh _ created_sound Hg Hpot Hc)
    as (slot & g' & _ & _ & _ & Hg' & _ & Hseats & Hpot' & _).
  exists g'. split; [exact Hg'|]. split; [exact Hseats|]. exact Hpot'.
Defined.


(** A deposit is requested from white in the created game. *)
Lemma pending_deposit_is_shown_to_its_payer_witness :
  fst (requestWagerPayment "g1" white "escrow1" Scenario.created)
  = Some {| WagerRequest.amount := 2000000; WagerRequest.toAddress := "escrow1" |}.
Proof.
  assert (games_get "g1" Scenario.created = Some Scenario.fresh) as Hg by (by vm_compute).
  assert (Game.id Scenario.fresh = "g1") as Hid by done.
  assert (Game.phase Scenario.fresh = awaiting_wagers) as Hph by done.
  assert (Player.wagerPaid (player Scenario.fresh white) = false) as Hpaid by done.
  exact (proj1 (pending_deposit_is_shown_to_its_payer "g1" white "escrow1"
                  Scenario.created Scenario.fresh Hg Hid Hph Hpaid)).
Defined.

(** Black resigns after the two captures. *)
Lemma resign_awards_the_opponent_witness :
  ∃ r, fst (resign "s2" 9 Scenario.afterCaptures)
       = Some {| Resignation.gameId := "g1"; Resignation.result := r |}
       ∧ GameOver.winner r = Some white
       ∧ ∀ now', resign "s2" now' (snd (resign "s2" 9 Scenario.afterCaptures))
                 = (None, snd (resign "s2" 9 Scenario.afterCaptures)).
Proof.
  assert (getGameBySocket "s2" Scenario.afterCaptures
          = Some (Scenario.gameIn Scenario.afterCaptures)) as Hg by (by vm_compute).
  assert (Game.phase (Scenario.gameIn Scenario.afterCaptures) ≠ gameover) as Hph
    by (by vm_compute).
  assert (getSlot (Scenario.gameIn Scenario.afterCaptures) "s2" = Some black) as Hslot
    by (by vm_compute).
  destruct (resign_awards_the_opponent "s2" 9 Scenario.afterCaptures
              (Scenario.gameIn Scenario.afterCaptures) black afterCaptures_sound
              Hg Hph Hslot)
    as (r & Hr & _ & Hwin & _ & _ & _ & Hagain).
  exists r. split; [exact Hr|]. split; [exact Hwin|exact Hagain].
Defined.

(** White opens with the king's pawn. *)
Lemma attemptMove_records_the_move_witness :
  ∃ g', Mgr.heap (snd (attemptMove "s1" "e2" "e4" None None 3 Scenario.started)) !! "g1"
        = Some g'
        ∧ Player.moveCount (Game.white g') = 1.
Proof.
  assert (MoveResult.success
            (fst (attemptMove "s1" "e2" "e4" None None 3 Scenario.started)) = true)
    as Hok by (by vm_compute).
  destruct (attemptMove_records_the_move "s1" "e2" "e4" None None 3 Scenario.started Hok)
    as (g & slot & move & position & g' & Hg & Hslot & _ & Hg' & _ & _ & _ & Hcount & _).
  assert (g = Scenario.gameIn Scenario.started) as ->.
  { assert (getGameBySocket "s1" Scenario.started
            = Some (Scenario.gameIn Scenario.started)) as E by (by vm_compute).
    congruence. }
  assert (slot = white) as ->.
  { assert (getSlot (Scenario.gameIn Scenario.started) "s1" = Some white) as E
      by (by vm_compute).
    congruence. }
  exists g'. split; [exact Hg'|]. exact Hcount.
Defined.

Lemma attemptMove_follows_the_engine_witness :
  ∃ position : Scripted.Position,
    MoveResult.gameOver (fst (attemptMove "s1" "e2" "e4" None None 3 Scenario.started))
    = Some (bool_decide (is_Some (verdict position))).
Proof.
  assert (MoveResult.success
            (fst (attemptMove "s1" "e2" "e4" None None 3 Scenario.started)) = true)
    as Hok by (by vm_compute).
  destruct (attemptMove_follows_the_engine "s1" "e2" "e4" None None 3 Scenario.started
              Hok)
    as (g & slot & move & position & g' & _ & _ & _ & _ & Hover & _).
  exists position. exact Hover.
Defined.

(** *** In the lobby *)

Lemma arrivals_named : Forall (fun '(op, _) => Lobby.namedJoin op) Cases.arrivals.
Proof. by repeat constructor. Qed.

Lemma lobby_one_connection_per_address_witness :
  "c2" = "c2"
  ∧ Lobby.getPlayerByAddress "1Bob" Cases.lobby = Some Cases.bob
  ∧ Lobby.isOnline "1Bob" Cases.lobby = true.
Proof.
  assert (Lobby.players Cases.lobby !! "c2" = Some Cases.bob) as Hbob by (by vm_compute).
  exact (LobbyFacts.lobby_one_connection_per_address Cases.arrivals arrivals_named
           "c2" "c2" Cases.bob Cases.bob Hbob Hbob eq_refl).
Defined.

Lemma challenging_fresh : Lobby.freshIds Cases.challenging Lobby.empty.
Proof. by vm_compute. Qed.

(** The challenge between the two players has its expiry pending under
    handle 0, and only there. *)
Lemma lobby_expiry_is_tracked_witness :
  Lobby.pending Cases.challenged !! 0%nat = Some "ch_1"
  ∧ ∀ t1 t2 id,
      Lobby.pending Cases.challenged !! t1 = Some id ->
      Lobby.pending Cases.challenged !! t2 = Some id -> t1 = t2.
Proof.
  split; [by vm_compute|].
  exact (proj1 (LobbyFacts.lobby_expiry_is_tracked Cases.challenging challenging_fresh)).
Defined.

Lemma challenged_tracked : Lobby.expiryTracked Cases.challenged.
Proof.
  exact (LobbyFacts.run_tracked Cases.challenging Lobby.empty
           LobbyFacts.tracked_empty_lobby challenging_fresh).
Qed.

(** Bob accepts the challenge. *)
Lemma acceptChallenge_consumes_the_challenge_witness :
  Lobby.challenges (snd (Lobby.acceptChallenge "ch_1" "c2" Cases.challenged)) !! "ch_1"
  = None
  ∧ ∀ t, Lobby.pending (snd (Lobby.acceptChallenge "ch_1" "c2" Cases.challenged)) !! t
         ≠ Some "ch_1".
Proof.
  assert (fst (Lobby.acceptChallenge "ch_1" "c2" Cases.challenged)
          = Lobby.Outcome.ok Cases.challenge) as Hok by (by vm_compute).
  pose proof (LobbyFacts.acceptChallenge_consumes_the_challenge "ch_1" "c2"
                Cases.challenged Cases.challenge challenged_tracked Hok)
    as (_ & _ & _ & _ & Hgone & Hquiet & _).
  split; [exact Hgone|exact Hquiet].
Defined.

(** Alice's connection joins again as Carol and challenges Alice. *)
Lemma rejoin_keeps_the_old_address_online_witness :
  let l :=
    Lobby.join "c1" "1Carol" "alice" None 3
      (Lobby.join "c1" "1Alice" "alice" None 2 (Lobby.run Cases.arrivals Lobby.empty)) in
  let out := fst (Lobby.createChallenge "c1" "1Alice" 100 "ch_9" 4 4 l) in
  Lobby.isOnline "1Alice" l = true
  ∧ (out = Lobby.Outcome.failure "Challenge already pending"
     ∨ ∃ ch, out = Lobby.Outcome.ok ch
             ∧ Lobby.Challenge.fromSocketId ch = "c1"
             ∧ Lobby.Challenge.toSocketId ch = "c1").
Proof.
  assert ("c1" ≠ "") as Hnamed by done.
  assert ("1Alice" ≠ "1Carol") as Hab by done.
  pose proof (LobbyFacts.rejoin_keeps_the_old_address_online Cases.arrivals "c1"
                "1Alice" "1Carol" "alice" None 2 3 arrivals_named Hnamed Hab)
    as (Honline & _ & _ & Hself).
  split; [exact Honline|]. exact (Hself 100 "ch_9" 4 4).
Defined.
